(** * GenOS-SMA: the multi-agent command pipeline of [Genosma.py]

    A shallow embedding of the orchestration core: the plan knowledge base
    ([load_kb], [add_to_kb], [find_similar_plan]), the comprehension,
    planning, examination and execution agents, the auditor and
    [MultiAgentSystem.process_request].

    Python values that come from or go to JSON are values of [json].
    The collaborators the program calls but does not define (the LLM, the
    web search, [subprocess.run], [json.loads] on a reply) are fields of an
    environment [env]; standard input is a list of lines; the two files
    the program owns are part of the [world], together with a trace of
    everything the program did. *)

From Stdlib Require Import List String Ascii ZArith Bool Arith Lia Sorted.
Import ListNotations.
Open Scope string_scope.
Set Warnings "-register-all".

(** ** Python values *)

(** A binary64 float as [json.loads] produces it: only its class matters
    to the program (zero is falsy), the payload is carried along. *)
Inductive pyfloat : Type :=
| FZero (neg : bool)
| FInf (neg : bool)
| FNaN
| FFinite (neg : bool) (m : positive) (e : Z).

(** The values [json.load]/[json.loads] return and [json.dump] accepts.
    A dict is an association list in insertion order with distinct keys. *)
Inductive json : Type :=
| JNull
| JBool (b : bool)
| JInt (z : Z)
| JFloat (f : pyfloat)
| JStr (s : string)
| JList (l : list json)
| JObj (kv : list (string * json)).

(** Python exceptions the program can meet. *)
Inductive exn : Type :=
| AttributeError
| KeyError (k : string)
| TypeError
| EOFError
| UnicodeDecodeError
| CollaboratorError (msg : string).

Inductive result (A : Type) : Type :=
| Ok (a : A)
| Raise (e : exn).
Arguments Ok {A} a.
Arguments Raise {A} e.

(** [bool(v)]: the truth value Python gives a JSON value. *)
Definition truthy (v : json) : bool :=
  match v with
  | JNull => false
  | JBool b => b
  | JInt z => negb (Z.eqb z 0)
  | JFloat (FZero _) => false
  | JFloat _ => true
  | JStr s => negb (String.eqb s "")
  | JList l => match l with [] => false | _ => true end
  | JObj kv => match kv with [] => false | _ => true end
  end.

Fixpoint assoc (k : string) (kv : list (string * json)) : option json :=
  match kv with
  | [] => None
  | (k', v) :: rest => if String.eqb k k' then Some v else assoc k rest
  end.

(** [d.get(k)]: only a dict has the method. *)
Definition dict_get (d : json) (k : string) : result (option json) :=
  match d with
  | JObj kv => Ok (assoc k kv)
  | _ => Raise AttributeError
  end.

(** [d.get(k, default)]. *)
Definition dict_get_default (d : json) (k : string) (default : json)
  : result json :=
  match dict_get d k with
  | Ok (Some v) => Ok v
  | Ok None => Ok default
  | Raise e => Raise e
  end.

(** [v[k]] with a string key [k]: a dict looks the key up, every other JSON
    value refuses a string subscript. *)
Definition subscript (v : json) (k : string) : result json :=
  match v with
  | JObj kv => match assoc k kv with
               | Some x => Ok x
               | None => Raise (KeyError k)
               end
  | _ => Raise TypeError
  end.

(** [v == s] for a string literal [s]. *)
Definition eq_str (v : json) (s : string) : bool :=
  match v with
  | JStr t => String.eqb t s
  | _ => false
  end.

Fixpoint chars (s : string) : list json :=
  match s with
  | EmptyString => []
  | String c r => JStr (String c EmptyString) :: chars r
  end.

(** [list(v)]: what a [for] loop over [v] visits. *)
Definition py_iter (v : json) : result (list json) :=
  match v with
  | JList l => Ok l
  | JStr s => Ok (chars s)
  | JObj kv => Ok (map (fun p => JStr (fst p)) kv)
  | _ => Raise TypeError
  end.

Fixpoint string_skipn (n : nat) (s : string) : string :=
  match n, s with
  | O, _ => s
  | S _, EmptyString => EmptyString
  | S n', String _ r => string_skipn n' r
  end.

(** [v[n:]]: a list or a string is sliced, a dict raises ([TypeError]
    before Python 3.12, where a slice became hashable and the lookup
    fails with [KeyError] instead). *)
Definition slice_from (v : json) (n : nat) : result json :=
  match v with
  | JList l => Ok (JList (skipn n l))
  | JStr s => Ok (JStr (string_skipn n s))
  | _ => Raise TypeError
  end.

(** ** Strings

    A character is a code point below 256. *)

(** [c.isspace()] on that range. *)
Definition is_space (c : ascii) : bool :=
  let n := nat_of_ascii c in
  (((9 <=? n) && (n <=? 13)) || ((28 <=? n) && (n <=? 32))
   || (n =? 133) || (n =? 160))%nat.

Fixpoint lstrip (s : string) : string :=
  match s with
  | EmptyString => EmptyString
  | String c r => if is_space c then lstrip r else s
  end.

Fixpoint rstrip (s : string) : string :=
  match s with
  | EmptyString => EmptyString
  | String c r =>
      match rstrip r with
      | EmptyString => if is_space c then EmptyString else String c EmptyString
      | r' => String c r'
      end
  end.

(** [s.strip()]. *)
Definition strip (s : string) : string := rstrip (lstrip s).

Definition lower_char (c : ascii) : ascii :=
  let n := nat_of_ascii c in
  if (((65 <=? n) && (n <=? 90))
      || ((192 <=? n) && (n <=? 222) && negb (n =? 215)))%nat
  then ascii_of_nat (n + 32) else c.

(** [s.lower()]. *)
Fixpoint lower (s : string) : string :=
  match s with
  | EmptyString => EmptyString
  | String c r => String (lower_char c) (lower r)
  end.

Definition is_open (c : ascii) : bool := Ascii.eqb c "{"%char.
Definition is_close (c : ascii) : bool := Ascii.eqb c "}"%char.

(** The suffix of [s] that starts at its first opening brace. *)
Fixpoint from_first_open (s : string) : option string :=
  match s with
  | EmptyString => None
  | String c r => if is_open c then Some s else from_first_open r
  end.

(** The prefix of [s] that ends at its last closing brace. *)
Fixpoint upto_last_close (s : string) : option string :=
  match s with
  | EmptyString => None
  | String c r =>
      match upto_last_close r with
      | Some t => Some (String c t)
      | None => if is_close c then Some (String c EmptyString) else None
      end
  end.

(** [re.search(r'\{.*\}', s, re.DOTALL)] and [group(0)] of the match: the
    leftmost opening brace, then as much as possible up to a closing
    brace. *)
Definition re_search_braces (s : string) : option string :=
  match from_first_open s with
  | None => None
  | Some t => upto_last_close t
  end.

(** ** [difflib]

    [find_similar_plan] calls [difflib.get_close_matches]; the part of
    [difflib.SequenceMatcher] behind it is embedded here, with
    [isjunk=None] and [autojunk=True] as [get_close_matches] sets them.
    Sequences are lists of characters; [a] is the stored query and [b] is
    the word looked for. *)
Module Difflib.

#[local] Open Scope nat_scope.

Definition seq := list ascii.

Definition nth_char (s : seq) (i : nat) : ascii := nth i s zero.

Fixpoint count_occ_char (c : ascii) (s : seq) : nat :=
  match s with
  | [] => 0
  | x :: r => (if Ascii.eqb x c then 1 else 0) + count_occ_char c r
  end.

(** [__chain_b]: an element is popular when [b] has at least 200 elements
    and more than [len(b) // 100 + 1] of them are that element. *)
Definition popular (b : seq) (c : ascii) : bool :=
  (200 <=? List.length b) && (List.length b / 100 + 1 <? count_occ_char c b).

Fixpoint indices_from (c : ascii) (s : seq) (start : nat) : list nat :=
  match s with
  | [] => []
  | x :: r => if Ascii.eqb x c then start :: indices_from c r (S start)
              else indices_from c r (S start)
  end.

(** [b2j.get(c, [])] after the popular elements were deleted. *)
Definition b2j (b : seq) (c : ascii) : list nat :=
  if popular b c then [] else indices_from c b 0.

Fixpoint lookup_len (j : nat) (j2len : list (nat * nat)) : nat :=
  match j2len with
  | [] => 0
  | (j', k) :: rest => if j =? j' then k else lookup_len j rest
  end.

(** [j2len.get(j-1, 0)]: the key [-1] is never present. *)
Definition prev_len (j : nat) (j2len : list (nat * nat)) : nat :=
  match j with
  | O => 0
  | S j' => lookup_len j' j2len
  end.

Record best := { besti : nat; bestj : nat; bestsize : nat }.

(** The inner loop of [find_longest_match] over the indices [js] of
    [a[i]] in [b]. *)
Fixpoint scan_row (blo bhi i : nat) (j2len : list (nat * nat))
  (js : list nat) (newj2len : list (nat * nat)) (bst : best)
  : list (nat * nat) * best :=
  match js with
  | [] => (newj2len, bst)
  | j :: js' =>
      if j <? blo then scan_row blo bhi i j2len js' newj2len bst
      else if bhi <=? j then (newj2len, bst)
      else
        let k := prev_len j j2len + 1 in
        let bst' := if bestsize bst <? k
                    then {| besti := i + 1 - k; bestj := j + 1 - k;
                            bestsize := k |}
                    else bst in
        scan_row blo bhi i j2len js' ((j, k) :: newj2len) bst'
  end.

(** The outer loop, for [i] in [range(alo, ahi)]: [n] rows are left. *)
Fixpoint scan_rows (a b : seq) (blo bhi : nat) (n i : nat)
  (j2len : list (nat * nat)) (bst : best) : best :=
  match n with
  | O => bst
  | S n' =>
      let '(newj2len, bst') :=
        scan_row blo bhi i j2len (b2j b (nth_char a i)) [] bst in
      scan_rows a b blo bhi n' (S i) newj2len bst'
  end.

(** Extend the match to the left while the elements before it agree. *)
Fixpoint extend_left (a b : seq) (alo blo : nat) (bi bj size : nat) : best :=
  match bi, bj with
  | S bi', S bj' =>
      if (alo <? bi) && (blo <? bj)
         && Ascii.eqb (nth_char a bi') (nth_char b bj')
      then extend_left a b alo blo bi' bj' (S size)
      else {| besti := bi; bestj := bj; bestsize := size |}
  | _, _ => {| besti := bi; bestj := bj; bestsize := size |}
  end.

(** Extend the match to the right; [n] bounds the steps left in [a]. *)
Fixpoint extend_right (a b : seq) (bhi : nat) (bi bj : nat) (n size : nat)
  : nat :=
  match n with
  | O => size
  | S n' =>
      if (bj + size <? bhi)
         && Ascii.eqb (nth_char a (bi + size)) (nth_char b (bj + size))
      then extend_right a b bhi bi bj n' (S size)
      else size
  end.

(** [find_longest_match(alo, ahi, blo, bhi)].  With no junk the two last
    loops of the function, which take junk in, never run. *)
Definition find_longest_match (a b : seq) (alo ahi blo bhi : nat) : best :=
  let b0 := scan_rows a b blo bhi (ahi - alo) alo []
              {| besti := alo; bestj := blo; bestsize := 0 |} in
  let b1 := extend_left a b alo blo (besti b0) (bestj b0) (bestsize b0) in
  let size := extend_right a b bhi (besti b1) (bestj b1)
                (ahi - (besti b1 + bestsize b1)) (bestsize b1) in
  {| besti := besti b1; bestj := bestj b1; bestsize := size |}.

(** The sum of the sizes of the blocks [get_matching_blocks] collects:
    the longest match of the range, then the ranges left and right of it.
    Sorting the blocks and merging adjacent ones leaves the sum as it is.
    Every call works on a strictly shorter range of [a], so [fuel] above
    the length of the range is never used up. *)
Fixpoint matches_in (fuel : nat) (a b : seq) (alo ahi blo bhi : nat) : nat :=
  match fuel with
  | O => 0
  | S fuel' =>
      let m := find_longest_match a b alo ahi blo bhi in
      let i := besti m in
      let j := bestj m in
      let k := bestsize m in
      if k =? 0 then 0
      else
        k + (if (alo <? i) && (blo <? j)
             then matches_in fuel' a b alo i blo j else 0)
          + (if (i + k <? ahi) && (j + k <? bhi)
             then matches_in fuel' a b (i + k) ahi (j + k) bhi else 0)
  end.

Definition matches (a b : seq) : nat :=
  matches_in (S (List.length a)) a b 0 (List.length a) 0 (List.length b).

(** [quick_ratio]'s count: elements of [a] matched against the multiset
    of elements of [b]. *)
Fixpoint remove_one (c : ascii) (s : seq) : option seq :=
  match s with
  | [] => None
  | x :: r => if Ascii.eqb x c then Some r
              else match remove_one c r with
                   | Some r' => Some (x :: r')
                   | None => None
                   end
  end.

Fixpoint quick_matches (a avail : seq) : nat :=
  match a with
  | [] => 0
  | c :: r => match remove_one c avail with
              | Some avail' => S (quick_matches r avail')
              | None => quick_matches r avail
              end
  end.

(** A ratio [2.0 * matches / length] is kept as the pair
    [(2 * matches, length)]; [_calculate_ratio] returns 1.0 for length 0.
    Ratios are compared exactly, which is what the float comparison does
    for sequences far longer than any request. *)
Definition ratio_t := (nat * nat)%type.

Definition calculate_ratio (m length : nat) : ratio_t :=
  if length =? 0 then (1, 1) else (2 * m, length).

Definition ratio (a b : seq) : ratio_t :=
  calculate_ratio (matches a b) (List.length a + List.length b).

Definition quick_ratio (a b : seq) : ratio_t :=
  calculate_ratio (quick_matches a b) (List.length a + List.length b).

Definition real_quick_ratio (a b : seq) : ratio_t :=
  calculate_ratio (Nat.min (List.length a) (List.length b))
    (List.length a + List.length b).

(** [r1 < r2] and [r1 >= r2] on ratios with positive denominators. *)
Definition ratio_ltb (r1 r2 : ratio_t) : bool :=
  fst r1 * snd r2 <? fst r2 * snd r1.

Definition ratio_geb (r1 r2 : ratio_t) : bool := negb (ratio_ltb r1 r2).

(** The default cutoff, 0.6. *)
Definition cutoff : ratio_t := (3, 5).

(** [(score1, x1) < (score2, x2)] on tuples. *)
Definition scored_ltb (p1 p2 : ratio_t * string) : bool :=
  ratio_ltb (fst p1) (fst p2)
  || (negb (ratio_ltb (fst p2) (fst p1)) && String.ltb (snd p1) (snd p2)).

(** [max(it, default=sentinel)]: the first of the largest elements. *)
Fixpoint max_scored (cur : ratio_t * string) (l : list (ratio_t * string))
  : ratio_t * string :=
  match l with
  | [] => cur
  | p :: r => max_scored (if scored_ltb cur p then p else cur) r
  end.

(** [heapq.nlargest(1, result)]. *)
Definition nlargest1 (l : list (ratio_t * string))
  : list (ratio_t * string) :=
  match l with
  | [] => []
  | p :: r => [max_scored p r]
  end.

(** The [result] list built by the loop over the possibilities. *)
Fixpoint close_candidates (word : string) (possibilities : list string)
  : list (ratio_t * string) :=
  match possibilities with
  | [] => []
  | x :: rest =>
      let a := list_ascii_of_string x in
      let b := list_ascii_of_string word in
      if ratio_geb (real_quick_ratio a b) cutoff
         && ratio_geb (quick_ratio a b) cutoff
         && ratio_geb (ratio a b) cutoff
      then (ratio a b, x) :: close_candidates word rest
      else close_candidates word rest
  end.

(** [get_close_matches(word, possibilities, n=1, cutoff=0.6)]. *)
Definition get_close_matches (word : string) (possibilities : list string)
  : list string :=
  map snd (nlargest1 (close_candidates word possibilities)).

End Difflib.

(** ** The world the program runs in *)

(** What a prompt sent to the LLM is built from; the wording around the
    data is fixed text. *)
Inductive prompt : Type :=
| SearchDecisionPrompt (user_input : string)
| ComprehensionPrompt (user_input search_results : string)
| PlanningPrompt (user_input : string) (comprehension_data : json)
    (search_context : string) (failure : option (json * json * json))
| ExaminePrompt (commands : json).

(** A query sent to the search tool: the LLM's search terms, or
    ["linux commands "] followed by the intent. *)
Inductive search_query : Type :=
| SearchTerms (terms : string)
| LinuxCommands (intent : json).

Inductive search_outcome : Type :=
| Found (results : string)
| SearchError (msg : string).

(** How [subprocess.run(cmd, shell=True, check=True, timeout=300)] ends:
    exit status zero, [CalledProcessError] (with [str(e)]),
    [TimeoutExpired], or another exception. *)
Inductive run_outcome : Type :=
| Completed (stdout stderr : string)
| CalledProcessError (msg : string)
| TimeoutExpired
| RunError (e : exn).

(** A line written by [print]. *)
Inductive message : Type :=
| MsgText (s : string)
| MsgStep (idx total : nat) (cmd : json)
| MsgJson (v : json).

(** The trace: every method entered and every interaction with the
    outside, in order. *)
Inductive event : Type :=
| CallAnalyze (user_input : string)
| CallCreatePlan (user_input : string) (comprehension_data error_context : json)
| CallAnalyzePlan (plan : json)
| CallRequestUserPermission (plan analysis : json)
| CallExecute (plan : json) (user_query : string)
| CallAddToKb (query : string) (plan : json)
| CallLog (stage : string) (data : json)
| CallSummary (execution_results : json)
| EvLLM (p : prompt)
| EvSearch (q : search_query)
| EvRun (cmd : json)
| EvInput
| EvPrint (m : message).

(** The collaborators.  Each answer may depend on everything that
    happened before the call. *)
Record env : Type := {
  llm_invoke : list event -> prompt -> result string;
  search_run : list event -> search_query -> search_outcome;
  subprocess_run : list event -> json -> run_outcome;
  json_loads : string -> option json
}.

(** A file as [json.load] sees it: missing, not decodable as text, text
    that is not JSON, or JSON. *)
Inductive file : Type :=
| Absent
| Undecodable
| Malformed
| Holds (v : json).

Record world : Type := {
  kb_file : file;
  log_file : file;
  stdin : list string;
  trace : list event
}.

(** A computation: it runs in a world and returns or raises. *)
Definition M (A : Type) : Type := world -> result A * world.

Definition ret {A} (a : A) : M A := fun w => (Ok a, w).

Definition raise {A} (e : exn) : M A := fun w => (Raise e, w).

Definition bind {A B} (c : M A) (k : A -> M B) : M B :=
  fun w => match c w with
           | (Ok a, w') => k a w'
           | (Raise e, w') => (Raise e, w')
           end.

Notation "x <- c ;; k" := (bind c (fun x => k))
  (at level 61, c at next level, right associativity).
Notation "c ;;; k" := (bind c (fun _ => k))
  (at level 61, right associativity).

Definition lift {A} (r : result A) : M A := fun w => (r, w).

Definition emit (e : event) : M unit :=
  fun w => (Ok tt, {| kb_file := kb_file w; log_file := log_file w;
                      stdin := stdin w; trace := trace w ++ [e] |}).

Definition print (s : string) : M unit := emit (EvPrint (MsgText s)).

Definition set_kb_file (f : file) : M unit :=
  fun w => (Ok tt, {| kb_file := f; log_file := log_file w;
                      stdin := stdin w; trace := trace w |}).

Definition set_log_file (f : file) : M unit :=
  fun w => (Ok tt, {| kb_file := kb_file w; log_file := f;
                      stdin := stdin w; trace := trace w |}).

(** ** Knowledge base *)

(** [load_kb]: only [json.JSONDecodeError] is caught. *)
Definition load_kb : M json :=
  fun w => match kb_file w with
           | Absent => (Ok (JList []), w)
           | Undecodable => (Raise UnicodeDecodeError, w)
           | Malformed => (Ok (JList []), w)
           | Holds v => (Ok v, w)
           end.

Definition save_kb (kb_data : json) : M unit := set_kb_file (Holds kb_data).

Definition kb_entry (query : string) (plan : json) : json :=
  JObj [("query", JStr query); ("plan", plan)].

(** [l.append(x)]: only a list has the method. *)
Definition append (l : json) (x : json) : result json :=
  match l with
  | JList xs => Ok (JList (xs ++ [x]))
  | _ => Raise AttributeError
  end.

Definition add_to_kb (query : string) (plan : json) : M unit :=
  emit (CallAddToKb query plan) ;;;
  kb <- load_kb ;;
  kb' <- lift (append kb (kb_entry query plan)) ;;
  save_kb kb'.

Fixpoint map_result {A B} (f : A -> result B) (l : list A)
  : result (list B) :=
  match l with
  | [] => Ok []
  | x :: r => match f x with
              | Raise e => Raise e
              | Ok y => match map_result f r with
                        | Raise e => Raise e
                        | Ok ys => Ok (y :: ys)
                        end
              end
  end.

(** The stored queries handed to [difflib] are strings: [add_to_kb]
    stores the request.  For a number, a boolean or null [difflib] raises
    [TypeError]; the model extends that to the other non-strings, which
    [add_to_kb] never writes. *)
Definition as_string (v : json) : result string :=
  match v with
  | JStr s => Ok s
  | _ => Raise TypeError
  end.

(** The loop [for item in kb] that returns [item["plan"]] at the first
    item whose query is the match, and [None] after the loop. *)
Fixpoint first_with_query (m : string) (items : list json) : result json :=
  match items with
  | [] => Ok JNull
  | item :: rest =>
      match subscript item "query" with
      | Raise e => Raise e
      | Ok q => if eq_str q m then subscript item "plan"
                else first_with_query m rest
      end
  end.

(** [find_similar_plan(query)] with the default threshold; [JNull] is
    Python's [None]. *)
Definition find_similar_plan (query : string) : M json :=
  kb <- load_kb ;;
  if negb (truthy kb) then ret JNull
  else
    items <- lift (py_iter kb) ;;
    queries <- lift (map_result (fun item => subscript item "query") items) ;;
    possibilities <- lift (map_result as_string queries) ;;
    match Difflib.get_close_matches query possibilities with
    | [] => ret JNull
    | m :: _ => lift (first_with_query m items)
    end.

(** ** The agents *)

Section Agents.

Variable E : env.

Definition llm (p : prompt) : M string :=
  fun w => let '(r, w') := emit (EvLLM p) w in
           (llm_invoke E (trace w) p, w').

Definition search (q : search_query) : M search_outcome :=
  fun w => let '(r, w') := emit (EvSearch q) w in
           (Ok (search_run E (trace w) q), w').

Definition run (cmd : json) : M run_outcome :=
  fun w => let '(r, w') := emit (EvRun cmd) w in
           (Ok (subprocess_run E (trace w) cmd), w').

(** The [try] block every agent wraps around the reply: the first
    brace-to-brace substring parsed as JSON, or [None] where the code
    reaches its [except Exception] branch. *)
Definition extract_json (response : string) : option json :=
  match re_search_braces response with
  | Some m => json_loads E m
  | None => None
  end.

(** *** Comprehension agent *)

Definition default_comprehension (user_input : string) : json :=
  JObj [("intent", JStr user_input);
        ("task_type", JStr "other");
        ("complexity", JStr "simple");
        ("requirements", JList []);
        ("risks", JList [])].

Definition analyze (user_input : string) : M json :=
  emit (CallAnalyze user_input) ;;;
  reply <- llm (SearchDecisionPrompt user_input) ;;
  let search_decision := strip reply in
  search_results <-
    (if negb (String.eqb search_decision "NO_SEARCH_NEEDED")
     then
       o <- search (SearchTerms search_decision) ;;
       match o with
       | Found results => ret ("Search results: " ++ results)
       | SearchError msg => ret ("Search failed: " ++ msg)
       end
     else ret "") ;;
  reply2 <- llm (ComprehensionPrompt user_input search_results) ;;
  let response := strip reply2 in
  match extract_json response with
  | Some v => ret v
  | None => ret (default_comprehension user_input)
  end.

(** *** Planning agent *)

Definition failed_plan : json :=
  JObj [("steps", JList []);
        ("description", JStr "Failed to create plan");
        ("estimated_time", JStr "unknown");
        ("reversible", JBool false)].

(** The three fields of a truthy [error_context] the prompt quotes. *)
Definition failure_of (error_context : json)
  : result (option (json * json * json)) :=
  if truthy error_context then
    match subscript error_context "command" with
    | Raise e => Raise e
    | Ok c =>
        match subscript error_context "error" with
        | Raise e => Raise e
        | Ok err =>
            match subscript error_context "remaining_steps" with
            | Raise e => Raise e
            | Ok rem => Ok (Some (c, err, rem))
            end
        end
    end
  else Ok None.

(** [create_plan]; [error_context] is [JNull] for Python's [None]. *)
Definition create_plan (user_input : string)
  (comprehension_data error_context : json) : M json :=
  emit (CallCreatePlan user_input comprehension_data error_context) ;;;
  existing_plan <- find_similar_plan user_input ;;
  if truthy existing_plan
  then print "Retrieved existing plan from KB" ;;; ret existing_plan
  else
    task_type <- lift (dict_get comprehension_data "task_type") ;;
    complexity <- lift (dict_get comprehension_data "complexity") ;;
    search_context <-
      (if match task_type with Some v => eq_str v "installation"
                             | None => false end
          || match complexity with Some v => eq_str v "complex"
                                 | None => false end
       then
         intent <- lift (dict_get_default comprehension_data "intent"
                           (JStr user_input)) ;;
         o <- search (LinuxCommands intent) ;;
         match o with
         | Found results => ret ("Reference: " ++ results)
         | SearchError msg => ret ("Search failed: " ++ msg)
         end
       else ret "") ;;
    failure <- lift (failure_of error_context) ;;
    reply <- llm (PlanningPrompt user_input comprehension_data
                    search_context failure) ;;
    let response := strip reply in
    match extract_json response with
    | Some v => ret v
    | None => ret failed_plan
    end.

(** *** Examiner agent *)

Definition default_analysis (commands : json) : json :=
  JObj [("risk_level", JStr "high");
        ("requires_permission", JBool true);
        ("dangerous_commands", commands);
        ("safe_commands", JList []);
        ("recommendation", JStr "request_permission");
        ("warning_message", JStr "Analysis failed")].

Definition analyze_plan (plan : json) : M json :=
  emit (CallAnalyzePlan plan) ;;;
  commands <- lift (dict_get_default plan "steps" (JList [])) ;;
  reply <- llm (ExaminePrompt commands) ;;
  let response := strip reply in
  match extract_json response with
  | Some v => ret v
  | None => ret (default_analysis commands)
  end.

Definition is_yes (resp : string) : bool :=
  String.eqb resp "y" || String.eqb resp "yes".

Definition is_no (resp : string) : bool :=
  String.eqb resp "n" || String.eqb resp "no".

(** The [while True] loop over the lines of standard input: the answer
    (or [EOFError] when the input ends), the lines not read, and the number of
    times [input] was called. *)
Fixpoint ask (lines : list string) : result bool * list string * nat :=
  match lines with
  | [] => (Raise EOFError, [], 1)
  | line :: rest =>
      let resp := lower (strip line) in
      if is_yes resp then (Ok true, rest, 1)
      else if is_no resp then (Ok false, rest, 1)
      else let '(r, unread, n) := ask rest in (r, unread, S n)
  end.

Definition prompt_user : M bool :=
  fun w => let '(r, unread, n) := ask (stdin w) in
           (r, {| kb_file := kb_file w; log_file := log_file w;
                  stdin := unread;
                  trace := trace w ++ repeat EvInput n |}).

Definition request_user_permission (plan analysis : json) : M bool :=
  emit (CallRequestUserPermission plan analysis) ;;;
  recommendation <- lift (subscript analysis "recommendation") ;;
  if eq_str recommendation "deny" then ret false
  else if eq_str recommendation "approve" then ret true
  else prompt_user.

(** *** Execution agent *)

Definition step_success (cmd : json) (stdout stderr : string) : json :=
  JObj [("command", cmd); ("status", JStr "success");
        ("stdout", JStr stdout); ("stderr", JStr stderr)].

Definition error_context_of (cmd : json) (error : string)
  (remaining_steps : json) : json :=
  JObj [("command", cmd); ("error", JStr error);
        ("remaining_steps", remaining_steps)].

Definition stopped (status : string) (results : list json)
  (error_context : json) : json :=
  JObj [("status", JStr status); ("results", JList results);
        ("error_context", error_context)].

Definition succeeded (results : list json) : json :=
  JObj [("status", JStr "success"); ("results", JList results)].

(** The [for idx, cmd in enumerate(steps)] loop, from index [idx] on,
    with the [results] collected so far. *)
Fixpoint execute_loop (plan : json) (user_query : string) (steps : json)
  (total : nat) (cmds : list json) (idx : nat) (results : list json)
  : M json :=
  match cmds with
  | [] => ret (succeeded results)
  | cmd :: rest =>
      emit (EvPrint (MsgStep (idx + 1) total cmd)) ;;;
      o <- run cmd ;;
      match o with
      | Completed out err =>
          add_to_kb user_query plan ;;;
          execute_loop plan user_query steps total rest (S idx)
            (results ++ [step_success cmd out err])
      | CalledProcessError msg =>
          remaining <- lift (slice_from steps (idx + 1)) ;;
          ret (stopped "failed" results (error_context_of cmd msg remaining))
      | TimeoutExpired =>
          remaining <- lift (slice_from steps (idx + 1)) ;;
          ret (stopped "timeout" results
                 (error_context_of cmd "Timeout" remaining))
      | RunError e => raise e
      end
  end.

Definition execute (plan : json) (user_query : string) : M json :=
  emit (CallExecute plan user_query) ;;;
  steps <- lift (dict_get_default plan "steps" (JList [])) ;;
  cmds <- lift (py_iter steps) ;;
  execute_loop plan user_query steps (List.length cmds) cmds 0 [].

End Agents.

(** ** Auditor agent *)

Definition audit_record (stage : string) (data : json) : json :=
  JObj [("stage", JStr stage); ("data", data)].

(** The [logs] a call of [log] starts from: every exception of the read
    is caught. *)
Definition read_logs : M json :=
  fun w => match log_file w with
           | Absent => (Ok (JList []), w)
           | Undecodable => (Ok (JList []), w)
           | Malformed => (Ok (JList []), w)
           | Holds v => (Ok v, w)
           end.

Definition log (stage : string) (data : json) : M unit :=
  emit (CallLog stage data) ;;;
  logs <- read_logs ;;
  logs' <- lift (append logs (audit_record stage data)) ;;
  set_log_file (Holds logs').

Definition count_true (l : list bool) : Z :=
  Z.of_nat (List.length (filter (fun b => b) l)).

Definition newline : string := String (ascii_of_nat 10) EmptyString.

Definition summary (execution_results : json) : M json :=
  emit (CallSummary execution_results) ;;;
  total <- lift (dict_get_default execution_results "total_commands"
                   (JInt 0)) ;;
  executed <- lift (dict_get_default execution_results "executed_commands"
                      (JInt 0)) ;;
  results <- lift (dict_get_default execution_results "results"
                     (JList [])) ;;
  rs <- lift (py_iter results) ;;
  statuses <- lift (map_result (fun r => subscript r "status") rs) ;;
  error_context <- lift (dict_get_default execution_results "error_context"
                           JNull) ;;
  let success := map (fun s => eq_str s "success") statuses in
  let s := JObj [("total_commands", total);
                 ("executed_commands", executed);
                 ("success_count", JInt (count_true success));
                 ("failed_count", JInt (count_true (map negb success)));
                 ("error_context", error_context)] in
  print (newline ++ "Execution Summary:") ;;;
  emit (EvPrint (MsgJson s)) ;;;
  ret s.

(** ** Orchestrator *)

Section Orchestrator.

Variable E : env.

Definition process_request (user_input : string) : M unit :=
  print "Analyzing request..." ;;;
  comprehension <- analyze E user_input ;;
  log "comprehension" comprehension ;;;
  print "Generating plan..." ;;;
  plan <- create_plan E user_input comprehension JNull ;;
  log "plan_creation" plan ;;;
  steps <- lift (dict_get_default plan "steps" JNull) ;;
  if negb (truthy steps) then print "No plan could be created."
  else
    print "Examining plan for risks..." ;;;
    analysis <- analyze_plan E plan ;;
    log "plan_analysis" analysis ;;;
    requires_permission <-
      lift (dict_get_default analysis "requires_permission" (JBool true)) ;;
    let run_plan :=
      print "Executing plan..." ;;;
      execution <- execute E plan user_input ;;
      log "execution" execution ;;;
      summary execution ;;;
      ret tt in
    if truthy requires_permission then
      granted <- request_user_permission plan analysis ;;
      if negb granted then print "Execution cancelled by user."
      else run_plan
    else run_plan.

End Orchestrator.

(** ** A scripted environment

    To run the model on concrete requests: a decoder for the part of JSON
    the scripts use (objects, arrays, strings without escapes, integers,
    [true], [false], [null]), on which it agrees with [json.loads], and
    collaborators that answer from a script. *)
Module Script.

Definition dq : string := String (ascii_of_nat 34) EmptyString.

(** [s] between double quotes. *)
Definition quoted (s : string) : string := dq ++ s ++ dq.

Definition is_ws (c : ascii) : bool :=
  let n := nat_of_ascii c in
  ((n =? 32) || (n =? 9) || (n =? 10) || (n =? 13))%nat.

Fixpoint skip_ws (s : list ascii) : list ascii :=
  match s with
  | c :: r => if is_ws c then skip_ws r else s
  | [] => []
  end.

(** The characters of a string literal up to the closing quote; escapes
    and control characters are outside the part decoded. *)
Fixpoint string_body (s : list ascii) : option (string * list ascii) :=
  match s with
  | [] => None
  | c :: r =>
      let n := nat_of_ascii c in
      if (n =? 34)%nat then Some (EmptyString, r)
      else if ((n =? 92) || (n <? 32))%nat then None
      else match string_body r with
           | Some (t, rest) => Some (String c t, rest)
           | None => None
           end
  end.

Definition digit (c : ascii) : option Z :=
  let n := nat_of_ascii c in
  if ((48 <=? n) && (n <=? 57))%nat then Some (Z.of_nat (n - 48)) else None.

Fixpoint digits (s : list ascii) (acc : Z) : Z * list ascii :=
  match s with
  | c :: r => match digit c with
              | Some d => digits r (10 * acc + d)
              | None => (acc, s)
              end
  | [] => (acc, [])
  end.

(** An integer literal: no leading zero, no fraction, no exponent. *)
Definition integer (s : list ascii) : option (Z * list ascii) :=
  match s with
  | c :: r =>
      match digit c with
      | Some d =>
          let '(z, rest) := if (d =? 0)%Z then (0%Z, r) else digits r d in
          match rest with
          | c' :: _ =>
              let n := nat_of_ascii c' in
              if ((n =? 46) || (n =? 101) || (n =? 69))%nat then None
              else match digit c' with
                   | Some _ => None
                   | None => Some (z, rest)
                   end
          | [] => Some (z, rest)
          end
      | None => None
      end
  | [] => None
  end.

Fixpoint starts_with (p s : list ascii) : option (list ascii) :=
  match p, s with
  | [], _ => Some s
  | c :: p', d :: s' => if Ascii.eqb c d then starts_with p' s' else None
  | _ :: _, [] => None
  end.

(** A later pair with the same key replaces the value and keeps the
    place of the first, as a dict does. *)
Fixpoint dict_set (k : string) (v : json) (kv : list (string * json))
  : list (string * json) :=
  match kv with
  | [] => [(k, v)]
  | (k', v') :: rest => if String.eqb k k' then (k', v) :: rest
                        else (k', v') :: dict_set k v rest
  end.

Inductive mode : Type :=
| Value
| Members (acc : list (string * json))
| Elements (acc : list json).

Fixpoint parse (fuel : nat) (m : mode) (s : list ascii)
  : option (json * list ascii) :=
  match fuel with
  | O => None
  | S fuel' =>
      let s := skip_ws s in
      match m with
      | Value =>
          match s with
          | [] => None
          | c :: r =>
              let n := nat_of_ascii c in
              if (n =? 123)%nat then
                match skip_ws r with
                | c' :: r' => if (nat_of_ascii c' =? 125)%nat
                              then Some (JObj [], r')
                              else parse fuel' (Members []) r
                | [] => None
                end
              else if (n =? 91)%nat then
                match skip_ws r with
                | c' :: r' => if (nat_of_ascii c' =? 93)%nat
                              then Some (JList [], r')
                              else parse fuel' (Elements []) r
                | [] => None
                end
              else if (n =? 34)%nat then
                match string_body r with
                | Some (t, rest) => Some (JStr t, rest)
                | None => None
                end
              else if (n =? 45)%nat then
                match integer r with
                | Some (z, rest) => Some (JInt (- z), rest)
                | None => None
                end
              else
                match starts_with (list_ascii_of_string "true") s with
                | Some rest => Some (JBool true, rest)
                | None =>
                match starts_with (list_ascii_of_string "false") s with
                | Some rest => Some (JBool false, rest)
                | None =>
                match starts_with (list_ascii_of_string "null") s with
                | Some rest => Some (JNull, rest)
                | None =>
                match integer s with
                | Some (z, rest) => Some (JInt z, rest)
                | None => None
                end end end end
          end
      | Members acc =>
          match s with
          | c :: r =>
              if (nat_of_ascii c =? 34)%nat then
                match string_body r with
                | Some (k, rest) =>
                    match skip_ws rest with
                    | c1 :: r1 =>
                        if (nat_of_ascii c1 =? 58)%nat then
                          match parse fuel' Value r1 with
                          | Some (v, rest1) =>
                              let acc' := dict_set k v acc in
                              match skip_ws rest1 with
                              | c2 :: r2 =>
                                  if (nat_of_ascii c2 =? 44)%nat
                                  then parse fuel' (Members acc') r2
                                  else if (nat_of_ascii c2 =? 125)%nat
                                  then Some (JObj acc', r2)
                                  else None
                              | [] => None
                              end
                          | None => None
                          end
                        else None
                    | [] => None
                    end
                | None => None
                end
              else None
          | [] => None
          end
      | Elements acc =>
          match parse fuel' Value s with
          | Some (v, rest1) =>
              let acc' := (acc ++ [v])%list in
              match skip_ws rest1 with
              | c2 :: r2 =>
                  if (nat_of_ascii c2 =? 44)%nat
                  then parse fuel' (Elements acc') r2
                  else if (nat_of_ascii c2 =? 93)%nat
                  then Some (JList acc', r2)
                  else None
              | [] => None
              end
          | None => None
          end
      end
  end.

(** The whole text must be one value. *)
Definition loads (s : string) : option json :=
  let l := list_ascii_of_string s in
  match parse (S (List.length l)) Value l with
  | Some (v, rest) => match skip_ws rest with
                      | [] => Some v
                      | _ => None
                      end
  | None => None
  end.

(** The LLM gives one reply per kind of prompt; a command fails with a
    non-zero exit when it is in [failing], times out when it is in
    [slow], and succeeds with empty output otherwise. *)
Definition scripted (decision comprehension planning examination : string)
  (failing slow : list string) : env :=
  {| llm_invoke := fun _ p =>
       Ok (match p with
           | SearchDecisionPrompt _ => decision
           | ComprehensionPrompt _ _ => comprehension
           | PlanningPrompt _ _ _ _ => planning
           | ExaminePrompt _ => examination
           end);
     search_run := fun _ _ => Found "nothing found";
     subprocess_run := fun _ cmd =>
       match cmd with
       | JStr c =>
           if existsb (String.eqb c) failing
           then CalledProcessError
                  ("Command '" ++ c ++ "' returned non-zero exit status 1.")
           else if existsb (String.eqb c) slow then TimeoutExpired
           else Completed "" ""
       | _ => RunError TypeError
       end;
     json_loads := loads |}.

(** A world with an empty trace. *)
Definition fresh (kb logs : file) (lines : list string) : world :=
  {| kb_file := kb; log_file := logs; stdin := lines; trace := [] |}.

End Script.

(** * Properties *)

(** ** The brace search *)

Lemma from_first_open_head (s t : string) :
  from_first_open s = Some t ->
  exists r, t = String "{"%char r.
Proof.
  induction s as [|c r IH]; simpl; [discriminate|].
  destruct (is_open c) eqn:Hc.
  - intros [= <-]. unfold is_open in Hc.
    apply Ascii.eqb_eq in Hc. subst c. now exists r.
  - exact IH.
Qed.

Lemma from_first_open_split (s t : string) :
  from_first_open s = Some t ->
  exists pre, s = pre ++ t /\ from_first_open pre = None.
Proof.
  revert t. induction s as [|c r IH]; simpl; intros t; [discriminate|].
  destruct (is_open c) eqn:Hc.
  - intros [= <-]. now exists EmptyString.
  - intros H. destruct (IH _ H) as (pre & -> & Hpre).
    exists (String c pre). simpl. now rewrite Hc.
Qed.

Lemma upto_last_close_split (s m : string) :
  upto_last_close s = Some m ->
  exists body post,
    m = body ++ "}" /\ s = m ++ post /\ upto_last_close post = None.
Proof.
  revert m. induction s as [|c r IH]; simpl; intros m; [discriminate|].
  destruct (upto_last_close r) as [t|] eqn:Hr.
  - intros [= <-]. destruct (IH _ eq_refl) as (body & post & -> & -> & Hp).
    exists (String c body), post. now simpl.
  - destruct (is_close c) eqn:Hc; [|discriminate].
    intros [= <-]. unfold is_close in Hc. apply Ascii.eqb_eq in Hc. subst c.
    exists EmptyString, r. now simpl.
Qed.

(** The match of [re_search_braces] is the text from the first opening
    brace to the last closing brace. *)
Lemma re_search_braces_spec (s m : string) :
  re_search_braces s = Some m ->
  exists pre body post,
    s = pre ++ m ++ post /\ m = String "{"%char (body ++ "}")
    /\ from_first_open pre = None /\ upto_last_close post = None.
Proof.
  unfold re_search_braces.
  destruct (from_first_open s) as [t|] eqn:Ht; [|discriminate].
  intros Hm.
  destruct (from_first_open_head _ _ Ht) as (r & ->).
  destruct (from_first_open_split _ _ Ht) as (pre & -> & Hpre).
  destruct (upto_last_close_split _ _ Hm) as (body & post & -> & Hs & Hp).
  destruct body as [|c body]; simpl in Hs; [discriminate|].
  injection Hs as <- Hs.
  exists pre, body, post. repeat split; try assumption.
  simpl. now rewrite Hs.
Qed.

(** A reply without an opening brace has no match. *)
Lemma re_search_braces_no_open (s : string) :
  from_first_open s = None -> re_search_braces s = None.
Proof. unfold re_search_braces. now intros ->. Qed.

#[local] Open Scope list_scope.

(** ** Replies without JSON *)

(** No JSON object can be extracted from [response] and parsed: the brace
    search finds nothing, or [json.loads] rejects what it found. *)
Definition no_json (E : env) (response : string) : Prop :=
  re_search_braces response = None
  \/ exists m, re_search_braces response = Some m /\ json_loads E m = None.

Lemma no_json_extract (E : env) (response : string) :
  no_json E response <-> extract_json E response = None.
Proof.
  unfold no_json, extract_json. split.
  - intros [-> | (m & -> & Hm)]; [reflexivity | exact Hm].
  - destruct (re_search_braces response) as [m|]; [|now left].
    intros Hm. right. now exists m.
Qed.

(** [w] after the events [evs]. *)
Definition after (w : world) (evs : list event) : world :=
  {| kb_file := kb_file w; log_file := log_file w; stdin := stdin w;
     trace := trace w ++ evs |}.

Lemma after_after (w : world) (e1 e2 : list event) :
  after (after w e1) e2 = after w (e1 ++ e2).
Proof. unfold after. simpl. now rewrite app_assoc. Qed.

(** The history and the prompt of the second LLM call of [analyze], when
    the first reply was [decision]. *)
Definition comprehension_call (E : env) (user_input : string) (w : world)
  (decision : string) : list event * prompt :=
  let tr1 := trace w ++ [CallAnalyze user_input;
                         EvLLM (SearchDecisionPrompt user_input)] in
  let terms := strip decision in
  if String.eqb terms "NO_SEARCH_NEEDED"
  then (tr1, ComprehensionPrompt user_input "")
  else
    (tr1 ++ [EvSearch (SearchTerms terms)],
     ComprehensionPrompt user_input
       match search_run E tr1 (SearchTerms terms) with
       | Found results => ("Search results: " ++ results)%string
       | SearchError msg => ("Search failed: " ++ msg)%string
       end).

(** C8. Whatever the request and the search decision, and whether the
    search works or fails: when no JSON object can be extracted from the
    LLM's comprehension reply and parsed, [analyze] returns (it does not
    raise) exactly the default descriptor, whose intent is the request. *)
Theorem analyze_default_on_parse_failure
  (E : env) (user_input : string) (w : world) (decision reply : string) :
  llm_invoke E (trace w ++ [CallAnalyze user_input])
    (SearchDecisionPrompt user_input) = Ok decision ->
  llm_invoke E (fst (comprehension_call E user_input w decision))
    (snd (comprehension_call E user_input w decision)) = Ok reply ->
  no_json E (strip reply) ->
  fst (analyze E user_input w)
  = Ok (JObj [("intent", JStr user_input);
              ("task_type", JStr "other");
              ("complexity", JStr "simple");
              ("requirements", JList []);
              ("risks", JList [])]).
Proof.
  intros Hd Hr Hno. apply no_json_extract in Hno.
  unfold comprehension_call in Hr.
  unfold analyze, bind, llm, search, emit, ret. simpl.
  rewrite Hd.
  destruct (String.eqb (strip decision) "NO_SEARCH_NEEDED") eqn:Hs; simpl in *.
  - rewrite <- app_assoc. simpl. rewrite Hr, Hno. reflexivity.
  - rewrite <- !app_assoc in *. simpl in *.
    destruct (search_run E _ _); simpl;
      rewrite <- app_assoc; simpl; rewrite Hr, Hno; reflexivity.
Qed.

(** C2. For every plan (a dict) and every reply of the LLM from which no
    JSON object can be extracted and parsed, [analyze_plan] returns (it
    does not raise) exactly the conservative default, whose dangerous
    commands are the plan's steps; the result is a function of the plan
    alone. *)
Theorem analyze_plan_default_on_parse_failure
  (E : env) (kv : list (string * json)) (w : world) (reply : string) :
  let steps := match assoc "steps" kv with
               | Some v => v
               | None => JList []
               end in
  llm_invoke E (trace w ++ [CallAnalyzePlan (JObj kv)]) (ExaminePrompt steps)
  = Ok reply ->
  no_json E (strip reply) ->
  fst (analyze_plan E (JObj kv) w)
  = Ok (JObj [("risk_level", JStr "high");
              ("requires_permission", JBool true);
              ("dangerous_commands", steps);
              ("safe_commands", JList []);
              ("recommendation", JStr "request_permission");
              ("warning_message", JStr "Analysis failed")]).
Proof.
  intros steps Hr Hno. apply no_json_extract in Hno.
  unfold analyze_plan, bind, llm, emit, ret, lift, dict_get_default. simpl.
  subst steps. destruct (assoc "steps" kv); simpl in *;
    rewrite Hr, Hno; reflexivity.
Qed.

Lemma analyze_default_on_parse_failure_witness :
  fst (analyze
         (Script.scripted "curl install ubuntu" "Here you go: {intent: curl}"
            "" "" [] [])
         "install curl" (Script.fresh Absent Absent []))
  = Ok (JObj [("intent", JStr "install curl");
              ("task_type", JStr "other");
              ("complexity", JStr "simple");
              ("requirements", JList []);
              ("risks", JList [])]).
Proof.
  apply (analyze_default_on_parse_failure _ _ _ "curl install ubuntu"
           "Here you go: {intent: curl}").
  - reflexivity.
  - reflexivity.
  - right. exists "{intent: curl}". split; reflexivity.
Defined.

Lemma analyze_plan_default_on_parse_failure_witness :
  fst (analyze_plan
         (Script.scripted "" "" "" "I cannot assess these commands." [] [])
         (JObj [("steps", JList [JStr "rm -rf build"; JStr "make"]);
                ("description", JStr "rebuild")])
         (Script.fresh Absent Absent []))
  = Ok (JObj [("risk_level", JStr "high");
              ("requires_permission", JBool true);
              ("dangerous_commands",
               JList [JStr "rm -rf build"; JStr "make"]);
              ("safe_commands", JList []);
              ("recommendation", JStr "request_permission");
              ("warning_message", JStr "Analysis failed")]).
Proof.
  exact (analyze_plan_default_on_parse_failure
           (Script.scripted "" "" "" "I cannot assess these commands." [] [])
           [("steps", JList [JStr "rm -rf build"; JStr "make"]);
            ("description", JStr "rebuild")]
           (Script.fresh Absent Absent [])
           "I cannot assess these commands."
           eq_refl (or_introl eq_refl)).
Defined.

(** ** The permission gate *)

Lemma eq_str_true (v : json) (s : string) :
  eq_str v s = true <-> v = JStr s.
Proof.
  destruct v; simpl; try (split; [discriminate | discriminate]).
  rewrite String.eqb_eq. split; [now intros -> | now intros [= ->]].
Qed.

(** The answer a line of input stands for, if it is one. *)
Definition answer (line : string) : option bool :=
  let resp := lower (strip line) in
  if is_yes resp then Some true
  else if is_no resp then Some false
  else None.

(** The loop skips the lines that are no answer and returns the first
    that is one. *)
Lemma ask_first_answer (skipped : list string) (line : string) (b : bool)
  (rest : list string) :
  Forall (fun l => answer l = None) skipped ->
  answer line = Some b ->
  ask (skipped ++ line :: rest) = (Ok b, rest, S (List.length skipped)).
Proof.
  intros Hs Hl. induction Hs as [|l ls Hl0 _ IH]; simpl.
  - unfold answer in Hl.
    destruct (is_yes (lower (strip line))).
    + now injection Hl as <-.
    + destruct (is_no (lower (strip line))); [now injection Hl as <-|].
      discriminate.
  - unfold answer in Hl0.
    destruct (is_yes (lower (strip l))); [discriminate|].
    destruct (is_no (lower (strip l))); [discriminate|].
    now rewrite IH.
Qed.

(** The answers in the words of the prompt: y or yes, n or no, once the
    line is stripped and in lower case; every other line is no answer. *)
Lemma answer_yes (line : string) :
  In (lower (strip line)) ["y"; "yes"] -> answer line = Some true.
Proof.
  unfold answer. intros [<- | [<- | []]]; reflexivity.
Qed.

Lemma answer_no (line : string) :
  In (lower (strip line)) ["n"; "no"] -> answer line = Some false.
Proof.
  unfold answer. intros [<- | [<- | []]]; reflexivity.
Qed.

Lemma answer_other (line : string) :
  ~ In (lower (strip line)) ["y"; "yes"; "n"; "no"] -> answer line = None.
Proof.
  unfold answer, is_yes, is_no. intros Hno.
  destruct (String.eqb_spec (lower (strip line)) "y") as [H | _];
    [exfalso; apply Hno; rewrite H; simpl; tauto|].
  destruct (String.eqb_spec (lower (strip line)) "yes") as [H | _];
    [exfalso; apply Hno; rewrite H; simpl; tauto|].
  destruct (String.eqb_spec (lower (strip line)) "n") as [H | _];
    [exfalso; apply Hno; rewrite H; simpl; tauto|].
  destruct (String.eqb_spec (lower (strip line)) "no") as [H | _];
    [exfalso; apply Hno; rewrite H; simpl; tauto|].
  reflexivity.
Qed.

(** C3. The gate is a decision table over the recommendation: [deny]
    gives false and [approve] gives true, both without reading input;
    any other recommendation prompts the human again and again, skipping
    every line that, stripped and in lower case, is none of y, yes, n
    and no; the first line that is one of them decides: true for y and
    yes, false for n and no. *)
Theorem request_user_permission_decision_table
  (plan : json) (kv : list (string * json)) (recommendation : json)
  (w : world) :
  assoc "recommendation" kv = Some recommendation ->
  let call := CallRequestUserPermission plan (JObj kv) in
  (recommendation = JStr "deny" ->
   request_user_permission plan (JObj kv) w = (Ok false, after w [call]))
  /\ (recommendation = JStr "approve" ->
      request_user_permission plan (JObj kv) w = (Ok true, after w [call]))
  /\ (forall skipped line rest,
        recommendation <> JStr "deny" ->
        recommendation <> JStr "approve" ->
        stdin w = skipped ++ line :: rest ->
        Forall (fun l => ~ In (lower (strip l)) ["y"; "yes"; "n"; "no"])
          skipped ->
        let answered :=
          {| kb_file := kb_file w; log_file := log_file w; stdin := rest;
             trace := trace w
                      ++ call :: repeat EvInput (S (List.length skipped)) |}
        in
        (In (lower (strip line)) ["y"; "yes"] ->
         request_user_permission plan (JObj kv) w = (Ok true, answered))
        /\ (In (lower (strip line)) ["n"; "no"] ->
            request_user_permission plan (JObj kv) w
            = (Ok false, answered))).
Proof.
  intros Hrec call.
  split; [|split].
  - intros ->.
    unfold request_user_permission, bind, emit, lift, subscript, ret.
    now rewrite Hrec.
  - intros ->.
    unfold request_user_permission, bind, emit, lift, subscript, ret.
    now rewrite Hrec.
  - intros skipped line rest Hd Ha Hin Hs answered.
    assert (Hd' : eq_str recommendation "deny" = false).
    { destruct (eq_str recommendation "deny") eqn:H; [|reflexivity].
      apply eq_str_true in H. contradiction. }
    assert (Ha' : eq_str recommendation "approve" = false).
    { destruct (eq_str recommendation "approve") eqn:H; [|reflexivity].
      apply eq_str_true in H. contradiction. }
    assert (Hs' : Forall (fun l => answer l = None) skipped).
    { eapply Forall_impl; [|exact Hs]. intros l. apply answer_other. }
    assert (Hask : forall b, answer line = Some b ->
              request_user_permission plan (JObj kv) w = (Ok b, answered)).
    { intros b Hl.
      unfold request_user_permission, bind, emit, lift, subscript, ret.
      rewrite Hrec, Hd', Ha'. unfold prompt_user. simpl. rewrite Hin.
      rewrite (ask_first_answer _ _ _ _ Hs' Hl). simpl.
      unfold answered. rewrite <- app_assoc. reflexivity. }
    split; intros Hl; apply Hask.
    + now apply answer_yes.
    + now apply answer_no.
Qed.

Lemma request_user_permission_decision_table_witness :
  let plan := JObj [("steps", JList [JStr "reboot"])] in
  let ask_kv := [("risk_level", JStr "medium");
                 ("recommendation", JStr "request_permission")] in
  let deny_kv := [("recommendation", JStr "deny")] in
  let approve_kv := [("recommendation", JStr "approve")] in
  request_user_permission plan (JObj ask_kv)
    (Script.fresh Absent Absent ["maybe"; "  YES "; "n"])
  = (Ok true,
     {| kb_file := Absent; log_file := Absent; stdin := ["n"];
        trace := [CallRequestUserPermission plan (JObj ask_kv);
                  EvInput; EvInput] |})
  /\ request_user_permission plan (JObj ask_kv)
       (Script.fresh Absent Absent ["nope"; "yes please"; " No"; "y"])
     = (Ok false,
        {| kb_file := Absent; log_file := Absent; stdin := ["y"];
           trace := [CallRequestUserPermission plan (JObj ask_kv);
                     EvInput; EvInput; EvInput] |})
  /\ request_user_permission plan (JObj deny_kv)
       (Script.fresh Absent Absent ["y"])
     = (Ok false,
        {| kb_file := Absent; log_file := Absent; stdin := ["y"];
           trace := [CallRequestUserPermission plan (JObj deny_kv)] |})
  /\ request_user_permission plan (JObj approve_kv)
       (Script.fresh Absent Absent ["n"])
     = (Ok true,
        {| kb_file := Absent; log_file := Absent; stdin := ["n"];
           trace := [CallRequestUserPermission plan (JObj approve_kv)] |}).
Proof.
  intros plan ask_kv deny_kv approve_kv.
  split; [|split; [|split]].
  - destruct (request_user_permission_decision_table plan ask_kv
                (JStr "request_permission")
                (Script.fresh Absent Absent ["maybe"; "  YES "; "n"])
                eq_refl) as (_ & _ & H).
    apply (H ["maybe"] "  YES " ["n"]).
    + discriminate.
    + discriminate.
    + reflexivity.
    + constructor; [|constructor]. vm_compute.
      intros [H0 | [H0 | [H0 | [H0 | []]]]]; discriminate H0.
    + vm_compute. right. left. reflexivity.
  - destruct (request_user_permission_decision_table plan ask_kv
                (JStr "request_permission")
                (Script.fresh Absent Absent
                   ["nope"; "yes please"; " No"; "y"])
                eq_refl) as (_ & _ & H).
    apply (H ["nope"; "yes please"] " No" ["y"]).
    + discriminate.
    + discriminate.
    + reflexivity.
    + repeat constructor; vm_compute;
        intros [H0 | [H0 | [H0 | [H0 | []]]]]; discriminate H0.
    + vm_compute. right. left. reflexivity.
  - destruct (request_user_permission_decision_table plan deny_kv
                (JStr "deny") (Script.fresh Absent Absent ["y"])
                eq_refl) as (H & _).
    exact (H eq_refl).
  - destruct (request_user_permission_decision_table plan approve_kv
                (JStr "approve") (Script.fresh Absent Absent ["n"])
                eq_refl) as (_ & H & _).
    exact (H eq_refl).
Defined.

(** ** The audit log *)

(** The records [log] keeps from the file it finds: those of a JSON
    array, none when the file is missing or cannot be read as JSON. *)
Definition kept_records (f : file) : list json :=
  match f with
  | Holds (JList records) => records
  | _ => []
  end.

(** On a log file that holds a JSON array the record goes at the end. *)
Lemma log_on_array (stage : string) (data : json) (records : list json)
  (w : world) :
  log_file w = Holds (JList records) ->
  log stage data w
  = (Ok tt,
     {| kb_file := kb_file w;
        log_file := Holds (JList (records ++ [audit_record stage data]));
        stdin := stdin w;
        trace := trace w ++ [CallLog stage data] |}).
Proof.
  intros H. unfold log, bind, emit, read_logs, lift, set_log_file. simpl.
  now rewrite H.
Qed.

(** C10, as amended. A call of [log] on a log file that holds a JSON
    array keeps the prior records and appends the new one; on a file that
    is present and unparseable it drops whatever was there and writes an
    array with the new record alone, as it does when there is no file. *)
Theorem log_appends_or_restarts (stage : string) (data : json) (w : world) :
  (exists records, log_file w = Holds (JList records))
  \/ log_file w = Malformed \/ log_file w = Undecodable
  \/ log_file w = Absent ->
  log stage data w
  = (Ok tt,
     {| kb_file := kb_file w;
        log_file := Holds (JList (kept_records (log_file w)
                                  ++ [JObj [("stage", JStr stage);
                                            ("data", data)]]));
        stdin := stdin w;
        trace := trace w ++ [CallLog stage data] |}).
Proof.
  intros Hfile.
  unfold log, bind, emit, read_logs, lift, set_log_file, append. simpl.
  destruct Hfile as [(records & ->) | [-> | [-> | ->]]]; reflexivity.
Qed.

Lemma log_appends_or_restarts_witness :
  let old := JObj [("stage", JStr "comprehension"); ("data", JObj [])] in
  log "plan_creation" (JObj [("steps", JList [])])
    (Script.fresh Absent (Holds (JList [old])) [])
  = (Ok tt,
     {| kb_file := Absent;
        log_file :=
          Holds (JList [old;
                        JObj [("stage", JStr "plan_creation");
                              ("data", JObj [("steps", JList [])])]]);
        stdin := [];
        trace := [CallLog "plan_creation" (JObj [("steps", JList [])])] |})
  /\ log "execution" JNull (Script.fresh Absent Malformed [])
     = (Ok tt,
        {| kb_file := Absent;
           log_file := Holds (JList [JObj [("stage", JStr "execution");
                                           ("data", JNull)]]);
           stdin := [];
           trace := [CallLog "execution" JNull] |}).
Proof.
  intros old. split.
  - apply (log_appends_or_restarts "plan_creation" _
             (Script.fresh Absent (Holds (JList [old])) [])).
    left. now exists [old].
  - apply (log_appends_or_restarts "execution" JNull
             (Script.fresh Absent Malformed [])).
    right. left. reflexivity.
Defined.

(** C10 as stated fails on a log file that parses as JSON but is not an
    array: [logs.append] raises and the file stays as it was. *)
Lemma log_non_array_counterexample :
  let w := Script.fresh Absent (Holds (JObj [])) [] in
  fst (log "execution" JNull w) = Raise AttributeError
  /\ log_file (snd (log "execution" JNull w)) = Holds (JObj [])
  /\ ~ exists records,
         log_file (snd (log "execution" JNull w))
         = Holds (JList (records ++ [audit_record "execution" JNull])).
Proof.
  simpl. repeat split. intros (records & H). discriminate H.
Qed.

(** ** Execution *)

(** The cache file accepts a new entry: it is missing, is not JSON, or
    holds a JSON array. *)
Definition appendable (f : file) : Prop :=
  f = Absent \/ f = Malformed \/ exists entries, f = Holds (JList entries).

Definition kb_entries (f : file) : list json :=
  match f with
  | Holds (JList entries) => entries
  | _ => []
  end.

Lemma add_to_kb_appendable (query : string) (plan : json) (w : world) :
  appendable (kb_file w) ->
  add_to_kb query plan w
  = (Ok tt,
     {| kb_file := Holds (JList (kb_entries (kb_file w)
                                 ++ [kb_entry query plan]));
        log_file := log_file w; stdin := stdin w;
        trace := trace w ++ [CallAddToKb query plan] |}).
Proof.
  unfold add_to_kb, bind, emit, load_kb, lift, save_kb, set_kb_file. simpl.
  intros [-> | [-> | (entries & ->)]]; reflexivity.
Qed.

(** The world after [add_to_kb query plan] went through. *)
Definition stored (w : world) (query : string) (plan : json) : world :=
  {| kb_file := Holds (JList (kb_entries (kb_file w)
                              ++ [kb_entry query plan]));
     log_file := log_file w; stdin := stdin w;
     trace := trace w ++ [CallAddToKb query plan] |}.

Lemma add_to_kb_stored (query : string) (plan : json) (w : world) :
  appendable (kb_file w) ->
  add_to_kb query plan w = (Ok tt, stored w query plan).
Proof. apply add_to_kb_appendable. Qed.

Lemma stored_appendable (w : world) (query : string) (plan : json) :
  appendable (kb_file (stored w query plan)).
Proof. right. right. simpl. eauto. Qed.

Lemma bind_ok {A B} (c : M A) (k : A -> M B) (w w' : world) (a : A) :
  c w = (Ok a, w') -> bind c k w = k a w'.
Proof. unfold bind. now intros ->. Qed.

Lemma bind_raise {A B} (c : M A) (k : A -> M B) (w w' : world) (e : exn) :
  c w = (Raise e, w') -> bind c k w = (Raise e, w').
Proof. unfold bind. now intros ->. Qed.

Lemma emit_after (e : event) (w : world) : emit e w = (Ok tt, after w [e]).
Proof. reflexivity. Qed.

Lemma run_after (E : env) (cmd : json) (w : world) :
  run E cmd w = (Ok (subprocess_run E (trace w) cmd), after w [EvRun cmd]).
Proof. reflexivity. Qed.

Lemma llm_after (E : env) (p : prompt) (w : world) :
  llm E p w = (llm_invoke E (trace w) p, after w [EvLLM p]).
Proof. reflexivity. Qed.

Section ExecuteLoop.

Variable E : env.
Variables (plan : json) (user_query : string) (steps : json) (total : nat).

(** One turn of the loop whose command exits with status zero. *)
Lemma execute_loop_completed (cmd : json) (rest : list json) (idx : nat)
  (results : list json) (out err : string) (w : world) :
  subprocess_run E (trace w ++ [EvPrint (MsgStep (idx + 1) total cmd)]) cmd
  = Completed out err ->
  appendable (kb_file w) ->
  execute_loop E plan user_query steps total (cmd :: rest) idx results w
  = execute_loop E plan user_query steps total rest (S idx)
      (results ++ [step_success cmd out err])
      (stored (after w [EvPrint (MsgStep (idx + 1) total cmd); EvRun cmd])
         user_query plan).
Proof.
  intros Hrun Hkb. simpl.
  rewrite (bind_ok _ _ _ _ _ (emit_after _ w)).
  rewrite (bind_ok _ _ _ _ _ (run_after E cmd _)).
  cbn [trace after]. rewrite Hrun, after_after.
  exact (bind_ok _ _ _ _ _
           (add_to_kb_stored user_query plan
              (after w [EvPrint (MsgStep (idx + 1) total cmd); EvRun cmd])
              Hkb)).
Qed.

(** One turn of the loop whose command exits with a non-zero status. *)
Lemma execute_loop_failed (cmd : json) (rest : list json) (idx : nat)
  (results : list json) (msg : string) (remaining : json) (w : world) :
  subprocess_run E (trace w ++ [EvPrint (MsgStep (idx + 1) total cmd)]) cmd
  = CalledProcessError msg ->
  slice_from steps (idx + 1) = Ok remaining ->
  execute_loop E plan user_query steps total (cmd :: rest) idx results w
  = (Ok (stopped "failed" results (error_context_of cmd msg remaining)),
     after w [EvPrint (MsgStep (idx + 1) total cmd); EvRun cmd]).
Proof.
  intros Hrun Hslice. simpl.
  rewrite (bind_ok _ _ _ _ _ (emit_after _ w)).
  rewrite (bind_ok _ _ _ _ _ (run_after E cmd _)).
  cbn [trace after]. rewrite Hrun. unfold lift. rewrite Hslice.
  unfold bind, ret. now rewrite after_after.
Qed.

End ExecuteLoop.

Lemma execute_enters_loop (E : env) (kv : list (string * json))
  (cmds : list json) (user_query : string) (w : world) :
  assoc "steps" kv = Some (JList cmds) ->
  execute E (JObj kv) user_query w
  = execute_loop E (JObj kv) user_query (JList cmds) (List.length cmds)
      cmds 0 [] (after w [CallExecute (JObj kv) user_query]).
Proof.
  intros Hsteps. unfold execute.
  rewrite (bind_ok _ _ _ _ _ (emit_after _ w)).
  unfold lift, dict_get_default, dict_get. rewrite Hsteps.
  reflexivity.
Qed.




(** ** What a computation leaves alone

    A relation [R] between the world before and the world after, closed
    under sequencing, holds across a computation as soon as it holds
    across each of its steps. *)

Definition preserves {A} (R : world -> world -> Prop) (c : M A) : Prop :=
  forall w, R w (snd (c w)).

(** The events [R] lets a computation emit. *)
Definition allows (R : world -> world -> Prop) (e : event) : Prop :=
  forall w, R w (after w [e]).

Section Frame.

Variable R : world -> world -> Prop.
Hypothesis R_refl : forall w, R w w.
Hypothesis R_trans : forall w1 w2 w3, R w1 w2 -> R w2 w3 -> R w1 w3.

Lemma preserves_ret {A} (a : A) : preserves R (ret a).
Proof. intros w. apply R_refl. Qed.

Lemma preserves_raise {A} (e : exn) : preserves R (@raise A e).
Proof. intros w. apply R_refl. Qed.

Lemma preserves_lift {A} (r : result A) : preserves R (lift r).
Proof. intros w. apply R_refl. Qed.

Lemma preserves_bind {A B} (c : M A) (k : A -> M B) :
  preserves R c -> (forall a, preserves R (k a)) -> preserves R (bind c k).
Proof.
  intros Hc Hk w. unfold bind. specialize (Hc w).
  destruct (c w) as [[a|e] w1]; simpl in *; [|exact Hc].
  eapply R_trans; [exact Hc | apply Hk].
Qed.

Lemma preserves_emit (e : event) : allows R e -> preserves R (emit e).
Proof. intros He w. apply He. Qed.

Lemma preserves_load_kb : preserves R load_kb.
Proof. intros w. unfold load_kb. destruct (kb_file w); apply R_refl. Qed.

Lemma preserves_read_logs : preserves R read_logs.
Proof. intros w. unfold read_logs. destruct (log_file w); apply R_refl. Qed.

Lemma preserves_find_similar_plan (query : string) :
  preserves R (find_similar_plan query).
Proof.
  unfold find_similar_plan.
  apply preserves_bind; [apply preserves_load_kb | intros kb].
  destruct (negb (truthy kb)); [apply preserves_ret|].
  repeat (apply preserves_bind; [apply preserves_lift | intros ?]).
  destruct (Difflib.get_close_matches _ _);
    [apply preserves_ret | apply preserves_lift].
Qed.

Variable E : env.

Lemma preserves_llm (p : prompt) : allows R (EvLLM p) -> preserves R (llm E p).
Proof. intros He w. apply He. Qed.

Lemma preserves_search (q : search_query) :
  allows R (EvSearch q) -> preserves R (search E q).
Proof. intros He w. apply He. Qed.

Lemma preserves_run (cmd : json) :
  allows R (EvRun cmd) -> preserves R (run E cmd).
Proof. intros He w. apply He. Qed.

Lemma preserves_analyze (user_input : string) :
  allows R (CallAnalyze user_input) ->
  (forall p, allows R (EvLLM p)) ->
  (forall q, allows R (EvSearch q)) ->
  preserves R (analyze E user_input).
Proof.
  intros Hcall Hllm Hsearch. unfold analyze.
  apply preserves_bind; [now apply preserves_emit | intros _].
  apply preserves_bind; [now apply preserves_llm | intros reply].
  apply preserves_bind.
  - destruct (negb _); [|apply preserves_ret].
    apply preserves_bind; [now apply preserves_search | intros o].
    destruct o; apply preserves_ret.
  - intros search_results.
    apply preserves_bind; [now apply preserves_llm | intros reply2].
    destruct (extract_json _ _); apply preserves_ret.
Qed.

Lemma preserves_create_plan (user_input : string)
  (comprehension_data error_context : json) :
  allows R (CallCreatePlan user_input comprehension_data error_context) ->
  (forall m, allows R (EvPrint m)) ->
  (forall p, allows R (EvLLM p)) ->
  (forall q, allows R (EvSearch q)) ->
  preserves R (create_plan E user_input comprehension_data error_context).
Proof.
  intros Hcall Hprint Hllm Hsearch. unfold create_plan.
  apply preserves_bind; [now apply preserves_emit | intros _].
  apply preserves_bind; [apply preserves_find_similar_plan | intros p].
  destruct (truthy p).
  - apply preserves_bind; [apply preserves_emit, Hprint | intros _].
    apply preserves_ret.
  - do 2 (apply preserves_bind; [apply preserves_lift | intros ?]).
    apply preserves_bind.
    + destruct (_ || _); [|apply preserves_ret].
      apply preserves_bind; [apply preserves_lift | intros intent].
      apply preserves_bind; [now apply preserves_search | intros o].
      destruct o; apply preserves_ret.
    + intros search_context.
      apply preserves_bind; [apply preserves_lift | intros failure].
      apply preserves_bind; [now apply preserves_llm | intros reply].
      destruct (extract_json _ _); apply preserves_ret.
Qed.

Lemma preserves_analyze_plan (plan : json) :
  allows R (CallAnalyzePlan plan) ->
  (forall p, allows R (EvLLM p)) ->
  preserves R (analyze_plan E plan).
Proof.
  intros Hcall Hllm. unfold analyze_plan.
  apply preserves_bind; [now apply preserves_emit | intros _].
  apply preserves_bind; [apply preserves_lift | intros commands].
  apply preserves_bind; [now apply preserves_llm | intros reply].
  destruct (extract_json _ _); apply preserves_ret.
Qed.

End Frame.

(** The log file is left as it was. *)
Definition same_log (w w' : world) : Prop := log_file w' = log_file w.

(** The trace grew by events that satisfy [P]. *)
Definition extends (P : event -> Prop) (w w' : world) : Prop :=
  exists evs, trace w' = trace w ++ evs /\ Forall P evs.

Lemma same_log_refl (w : world) : same_log w w.
Proof. reflexivity. Qed.

Lemma same_log_trans (w1 w2 w3 : world) :
  same_log w1 w2 -> same_log w2 w3 -> same_log w1 w3.
Proof. unfold same_log. congruence. Qed.

Lemma same_log_allows (e : event) : allows same_log e.
Proof. intros w. reflexivity. Qed.

Lemma extends_refl (P : event -> Prop) (w : world) : extends P w w.
Proof. exists []. split; [now rewrite app_nil_r | constructor]. Qed.

Lemma extends_trans (P : event -> Prop) (w1 w2 w3 : world) :
  extends P w1 w2 -> extends P w2 w3 -> extends P w1 w3.
Proof.
  intros (e1 & H1 & F1) (e2 & H2 & F2). exists (e1 ++ e2). split.
  - now rewrite H2, H1, app_assoc.
  - apply Forall_app. now split.
Qed.

Lemma extends_allows (P : event -> Prop) (e : event) :
  P e -> allows (extends P) e.
Proof. intros He w. exists [e]. split; [reflexivity | now constructor]. Qed.

Lemma extends_weaken (P Q : event -> Prop) (w w' : world) :
  (forall e, P e -> Q e) -> extends P w w' -> extends Q w w'.
Proof.
  intros HPQ (evs & H & F). exists evs. split; [exact H|].
  eapply Forall_impl; [exact HPQ | exact F].
Qed.

(** ** The orchestrator up to the plan *)

(** The first five statements of [process_request]: everything up to and
    including the one call of [create_plan]. *)
Definition planning (E : env) (user_input : string) : M json :=
  print "Analyzing request..." ;;;
  comprehension <- analyze E user_input ;;
  log "comprehension" comprehension ;;;
  print "Generating plan..." ;;;
  create_plan E user_input comprehension JNull.

(** What [process_request] does once it holds the plan. *)
Definition after_planning (E : env) (user_input : string) (plan : json)
  : M unit :=
  log "plan_creation" plan ;;;
  steps <- lift (dict_get_default plan "steps" JNull) ;;
  if negb (truthy steps) then print "No plan could be created."
  else
    print "Examining plan for risks..." ;;;
    analysis <- analyze_plan E plan ;;
    log "plan_analysis" analysis ;;;
    requires_permission <-
      lift (dict_get_default analysis "requires_permission" (JBool true)) ;;
    let run_plan :=
      print "Executing plan..." ;;;
      execution <- execute E plan user_input ;;
      log "execution" execution ;;;
      summary execution ;;;
      ret tt in
    if truthy requires_permission then
      granted <- request_user_permission plan analysis ;;
      if negb granted then print "Execution cancelled by user."
      else run_plan
    else run_plan.

Lemma process_request_planning (E : env) (user_input : string) (w : world) :
  process_request E user_input w
  = bind (planning E user_input) (after_planning E user_input) w.
Proof.
  unfold process_request, planning, after_planning, bind.
  destruct (print "Analyzing request..." w) as [[[]|e] w0]; [|reflexivity].
  destruct (analyze E user_input w0) as [[c|e] w1]; [|reflexivity].
  destruct (log "comprehension" c w1) as [[[]|e] w2]; [|reflexivity].
  destruct (print "Generating plan..." w2) as [[[]|e] w3]; [|reflexivity].
  destruct (create_plan E user_input c JNull w3) as [[p|e] w4]; reflexivity.
Qed.

(** A call of [log] that returns leaves a JSON array in the log file. *)
Lemma log_ok_holds_array (stage : string) (data : json) (w w' : world) :
  log stage data w = (Ok tt, w') ->
  exists records, log_file w' = Holds (JList records).
Proof.
  unfold log, bind, emit, read_logs, lift, set_log_file. simpl.
  destruct (log_file w) as [| | |v]; try (intros [= <-]; simpl; eauto).
  destruct v; try discriminate. intros [= <-]. simpl. eauto.
Qed.

(** When [planning] returns, the log file holds a JSON array: the
    comprehension record went in, and nothing after it touched the file. *)
Lemma planning_log_array (E : env) (user_input : string) (w w1 : world)
  (plan : json) :
  planning E user_input w = (Ok plan, w1) ->
  exists records, log_file w1 = Holds (JList records).
Proof.
  unfold planning, bind.
  destruct (print "Analyzing request..." w) as [[[]|e] w0]; [|discriminate].
  destruct (analyze E user_input w0) as [[c|e] wa]; [|discriminate].
  destruct (log "comprehension" c wa) as [[[]|e] wl] eqn:Hlog; [|discriminate].
  destruct (print "Generating plan..." wl) as [[[]|e] wp] eqn:Hp;
    [|discriminate].
  intros Hplan.
  destruct (log_ok_holds_array _ _ _ _ Hlog) as (records & Hrec).
  exists records.
  assert (Hs : same_log wp w1).
  { pose proof (preserves_create_plan same_log same_log_refl same_log_trans
                  E user_input c JNull (same_log_allows _)
                  (fun m => same_log_allows _) (fun p => same_log_allows _)
                  (fun q => same_log_allows _) wp) as H.
    now rewrite Hplan in H. }
  unfold same_log in Hs. rewrite Hs.
  injection Hp as <-. exact Hrec.
Qed.

(** ** Traces of the agents *)

Section TraceFrame.

Variable P : event -> Prop.

Let R := extends P.

Lemma trace_kept_extends {A} (c : M A) :
  (forall w, trace (snd (c w)) = trace w) -> preserves R c.
Proof.
  intros H w. exists []. split; [now rewrite H, app_nil_r | constructor].
Qed.

Lemma extends_bind {A B} (c : M A) (k : A -> M B) :
  preserves R c -> (forall a, preserves R (k a)) -> preserves R (bind c k).
Proof. apply preserves_bind. apply extends_trans. Qed.

Lemma extends_emit (e : event) : P e -> preserves R (emit e).
Proof. intros He. apply preserves_emit. now apply extends_allows. Qed.

Lemma extends_lift {A} (r : result A) : preserves R (lift r).
Proof. apply preserves_lift, extends_refl. Qed.

Lemma extends_ret {A} (a : A) : preserves R (ret a).
Proof. apply preserves_ret, extends_refl. Qed.

Lemma extends_add_to_kb (query : string) (plan : json) :
  P (CallAddToKb query plan) -> preserves R (add_to_kb query plan).
Proof.
  intros Hp. unfold add_to_kb.
  apply extends_bind; [now apply extends_emit | intros _].
  apply extends_bind;
    [apply preserves_load_kb, extends_refl | intros kb].
  apply extends_bind; [apply extends_lift | intros kb'].
  now apply trace_kept_extends.
Qed.

Lemma extends_log (stage : string) (data : json) :
  P (CallLog stage data) -> preserves R (log stage data).
Proof.
  intros Hp. unfold log.
  apply extends_bind; [now apply extends_emit | intros _].
  apply extends_bind;
    [apply preserves_read_logs, extends_refl | intros logs].
  apply extends_bind; [apply extends_lift | intros logs'].
  now apply trace_kept_extends.
Qed.

Lemma extends_summary (execution_results : json) :
  P (CallSummary execution_results) ->
  (forall m, P (EvPrint m)) ->
  preserves R (summary execution_results).
Proof.
  intros Hc Hp. unfold summary.
  apply extends_bind; [now apply extends_emit | intros _].
  do 6 (apply extends_bind; [apply extends_lift | intros ?]).
  apply extends_bind; [apply extends_emit, Hp | intros _].
  apply extends_bind; [apply extends_emit, Hp | intros _].
  apply extends_ret.
Qed.

Lemma extends_prompt_user : P EvInput -> preserves R prompt_user.
Proof.
  intros Hp w. unfold prompt_user.
  destruct (ask (stdin w)) as [[r unread] n]. simpl.
  exists (repeat EvInput n). split; [reflexivity|].
  apply Forall_forall. intros e He. apply repeat_spec in He. now subst.
Qed.

Lemma extends_request_user_permission (plan analysis : json) :
  P (CallRequestUserPermission plan analysis) -> P EvInput ->
  preserves R (request_user_permission plan analysis).
Proof.
  intros Hc Hi. unfold request_user_permission.
  apply extends_bind; [now apply extends_emit | intros _].
  apply extends_bind; [apply extends_lift | intros recommendation].
  destruct (eq_str recommendation "deny"); [apply extends_ret|].
  destruct (eq_str recommendation "approve"); [apply extends_ret|].
  now apply extends_prompt_user.
Qed.

Variable E : env.

Lemma extends_execute_loop (plan : json) (user_query : string)
  (steps : json) (total : nat) (cmds : list json) :
  (forall m, P (EvPrint m)) -> (forall c, P (EvRun c)) ->
  P (CallAddToKb user_query plan) ->
  forall idx results,
    preserves R
      (execute_loop E plan user_query steps total cmds idx results).
Proof.
  intros Hp Hr Hk. induction cmds as [|cmd rest IH]; intros idx results.
  - apply extends_ret.
  - simpl.
    apply extends_bind; [apply extends_emit, Hp | intros _].
    apply extends_bind.
    { apply preserves_run, extends_allows, Hr. }
    intros o. destruct o.
    + apply extends_bind; [now apply extends_add_to_kb | intros _].
      apply IH.
    + apply extends_bind; [apply extends_lift | intros ?].
      apply extends_ret.
    + apply extends_bind; [apply extends_lift | intros ?].
      apply extends_ret.
    + apply preserves_raise, extends_refl.
Qed.

Lemma extends_execute (plan : json) (user_query : string) :
  P (CallExecute plan user_query) ->
  (forall m, P (EvPrint m)) -> (forall c, P (EvRun c)) ->
  P (CallAddToKb user_query plan) ->
  preserves R (execute E plan user_query).
Proof.
  intros Hc Hp Hr Hk. unfold execute.
  apply extends_bind; [now apply extends_emit | intros _].
  apply extends_bind; [apply extends_lift | intros steps].
  apply extends_bind; [apply extends_lift | intros cmds].
  now apply extends_execute_loop.
Qed.

Lemma extends_analyze (user_input : string) :
  P (CallAnalyze user_input) ->
  (forall p, P (EvLLM p)) -> (forall q, P (EvSearch q)) ->
  preserves R (analyze E user_input).
Proof.
  intros Hc Hl Hs.
  apply preserves_analyze;
    [apply extends_refl | apply extends_trans | ..];
    intros; now apply extends_allows.
Qed.

Lemma extends_create_plan (user_input : string)
  (comprehension_data error_context : json) :
  P (CallCreatePlan user_input comprehension_data error_context) ->
  (forall m, P (EvPrint m)) ->
  (forall p, P (EvLLM p)) -> (forall q, P (EvSearch q)) ->
  preserves R (create_plan E user_input comprehension_data error_context).
Proof.
  intros Hc Hp Hl Hs.
  apply preserves_create_plan;
    [apply extends_refl | apply extends_trans | ..];
    intros; now apply extends_allows.
Qed.

Lemma extends_analyze_plan (plan : json) :
  P (CallAnalyzePlan plan) -> (forall p, P (EvLLM p)) ->
  preserves R (analyze_plan E plan).
Proof.
  intros Hc Hl.
  apply preserves_analyze_plan;
    [apply extends_refl | apply extends_trans | ..];
    intros; now apply extends_allows.
Qed.

End TraceFrame.

(** ** Terminal condition: a plan without steps *)

(** An event of the examination stage, the permission gate or the
    execution stage. *)
Definition downstream_event (e : event) : Prop :=
  match e with
  | CallAnalyzePlan _ | CallRequestUserPermission _ _ | CallExecute _ _
  | CallAddToKb _ _ | EvRun _ | EvInput => True
  | _ => False
  end.

Lemma planning_upstream (E : env) (user_input : string) :
  preserves (extends (fun e => ~ downstream_event e))
    (planning E user_input).
Proof.
  unfold planning.
  apply extends_bind; [now apply extends_emit | intros _].
  apply extends_bind.
  { apply extends_analyze; try (intros []); simpl; tauto. }
  intros c.
  apply extends_bind; [now apply extends_log | intros _].
  apply extends_bind; [now apply extends_emit | intros _].
  apply extends_create_plan; try (intros []); simpl; tauto.
Qed.

(** C5. When planning returns a plan whose steps are empty,
    [process_request] logs the [plan_creation] record, reports that no
    plan could be created and returns.  Nothing else happens after the
    plan is there, and nothing before it belongs to the examination
    stage, the gate or the execution stage: none of them is invoked, and
    there is no second call of [create_plan]. *)
Theorem process_request_stops_on_empty_plan
  (E : env) (user_input : string) (w w1 : world)
  (kv : list (string * json)) :
  planning E user_input w = (Ok (JObj kv), w1) ->
  assoc "steps" kv = Some (JList []) ->
  exists records evs,
    log_file w1 = Holds (JList records)
    /\ trace w1 = trace w ++ evs
    /\ Forall (fun e => ~ downstream_event e) evs
    /\ process_request E user_input w
       = (Ok tt,
          {| kb_file := kb_file w1;
             log_file :=
               Holds (JList (records
                             ++ [JObj [("stage", JStr "plan_creation");
                                       ("data", JObj kv)]]));
             stdin := stdin w1;
             trace := trace w1
                      ++ [CallLog "plan_creation" (JObj kv);
                          EvPrint (MsgText "No plan could be created.")] |}).
Proof.
  intros Hplan Hsteps.
  destruct (planning_log_array _ _ _ _ _ Hplan) as (records & Hrec).
  pose proof (planning_upstream E user_input w) as Hup.
  rewrite Hplan in Hup. destruct Hup as (evs & Htr & Hq).
  exists records, evs. repeat split; try assumption.
  rewrite process_request_planning.
  rewrite (bind_ok _ _ _ _ _ Hplan). unfold after_planning.
  rewrite (bind_ok _ _ _ _ _
             (log_on_array "plan_creation" (JObj kv) records w1 Hrec)).
  unfold lift, dict_get_default, dict_get. rewrite Hsteps.
  unfold bind, print, emit. simpl.
  rewrite <- app_assoc. reflexivity.
Qed.

Lemma process_request_stops_on_empty_plan_witness :
  let E := Script.scripted "NO_SEARCH_NEEDED" "{}" "Sorry, I cannot help."
             "" [] [] in
  let w := Script.fresh Absent Absent [] in
  let w1 := snd (planning E "do something odd" w) in
  exists records evs,
    log_file w1 = Holds (JList records)
    /\ trace w1 = trace w ++ evs
    /\ Forall (fun e => ~ downstream_event e) evs
    /\ process_request E "do something odd" w
       = (Ok tt,
          {| kb_file := kb_file w1;
             log_file :=
               Holds (JList (records
                             ++ [JObj [("stage", JStr "plan_creation");
                                       ("data", failed_plan)]]));
             stdin := stdin w1;
             trace := trace w1
                      ++ [CallLog "plan_creation" failed_plan;
                          EvPrint (MsgText "No plan could be created.")] |}).
Proof.
  intros E w w1.
  apply (process_request_stops_on_empty_plan E "do something odd" w w1
           [("steps", JList []);
            ("description", JStr "Failed to create plan");
            ("estimated_time", JStr "unknown");
            ("reversible", JBool false)]).
  - reflexivity.
  - reflexivity.
Defined.

(** ** The gate is skipped when no permission is required *)

(** From the plan to its risk assessment, when the plan has steps. *)
Definition examining (E : env) (plan : json) : M json :=
  log "plan_creation" plan ;;;
  print "Examining plan for risks..." ;;;
  analyze_plan E plan.

(** Straight to the execution stage: no call of the gate. *)
Definition executing (E : env) (user_input : string) (plan analysis : json)
  : M unit :=
  log "plan_analysis" analysis ;;;
  print "Executing plan..." ;;;
  execution <- execute E plan user_input ;;
  log "execution" execution ;;;
  summary execution ;;;
  ret tt.

(** An event of the permission gate. *)
Definition gate_event (e : event) : Prop :=
  match e with
  | CallRequestUserPermission _ _ | EvInput => True
  | _ => False
  end.

Lemma examining_no_gate (E : env) (plan : json) :
  preserves (extends (fun e => ~ gate_event e)) (examining E plan).
Proof.
  unfold examining.
  apply extends_bind; [now apply extends_log | intros _].
  apply extends_bind; [now apply extends_emit | intros _].
  apply extends_analyze_plan; try (intros ?); simpl; tauto.
Qed.

Lemma executing_no_gate (E : env) (user_input : string)
  (plan analysis : json) :
  preserves (extends (fun e => ~ gate_event e))
    (executing E user_input plan analysis).
Proof.
  unfold executing.
  apply extends_bind; [now apply extends_log | intros _].
  apply extends_bind; [now apply extends_emit | intros _].
  apply extends_bind.
  { apply extends_execute; try (intros ?); simpl; tauto. }
  intros execution.
  apply extends_bind; [now apply extends_log | intros _].
  apply extends_bind.
  { apply extends_summary; try (intros ?); simpl; tauto. }
  intros _. apply extends_ret.
Qed.

Lemma after_planning_examining (E : env) (user_input : string)
  (kv : list (string * json)) (steps analysis : json) (w1 w2 : world) :
  assoc "steps" kv = Some steps -> truthy steps = true ->
  examining E (JObj kv) w1 = (Ok analysis, w2) ->
  after_planning E user_input (JObj kv) w1
  = (log "plan_analysis" analysis ;;;
     requires_permission <-
       lift (dict_get_default analysis "requires_permission" (JBool true)) ;;
     if truthy requires_permission then
       granted <- request_user_permission (JObj kv) analysis ;;
       if negb granted then print "Execution cancelled by user."
       else (print "Executing plan..." ;;;
             execution <- execute E (JObj kv) user_input ;;
             log "execution" execution ;;;
             summary execution ;;;
             ret tt)
     else (print "Executing plan..." ;;;
           execution <- execute E (JObj kv) user_input ;;
           log "execution" execution ;;;
           summary execution ;;;
           ret tt)) w2.
Proof.
  intros Hsteps Htruthy. unfold examining, after_planning, bind.
  destruct (log "plan_creation" (JObj kv) w1) as [[[]|e] wl]; [|discriminate].
  unfold lift, dict_get_default, dict_get. rewrite Hsteps, Htruthy.
  cbn [negb].
  destruct (print "Examining plan for risks..." wl) as [[[]|e] wp];
    [|discriminate].
  intros H. rewrite H. reflexivity.
Qed.

(** C9. When the assessment's [requires_permission] is false (or any
    other falsy value), [process_request] goes from the assessment
    straight to the execution stage: it logs the assessment, announces
    the execution and calls [execute] on the plan, whatever the
    recommendation says, [deny] included; and no event of the whole run
    belongs to the gate, which is therefore consulted only when the field
    is truthy or absent. *)
Theorem process_request_skips_gate
  (E : env) (user_input : string) (w w1 w2 : world)
  (kv akv : list (string * json)) (steps requires_permission : json) :
  planning E user_input w = (Ok (JObj kv), w1) ->
  assoc "steps" kv = Some steps -> truthy steps = true ->
  examining E (JObj kv) w1 = (Ok (JObj akv), w2) ->
  assoc "requires_permission" akv = Some requires_permission ->
  truthy requires_permission = false ->
  process_request E user_input w
  = executing E user_input (JObj kv) (JObj akv) w2
  /\ extends (fun e => ~ gate_event e) w
       (snd (process_request E user_input w)).
Proof.
  intros Hplan Hsteps Htruthy Hexam Hrp Hfalse.
  assert (Heq : process_request E user_input w
                = executing E user_input (JObj kv) (JObj akv) w2).
  { rewrite process_request_planning, (bind_ok _ _ _ _ _ Hplan).
    rewrite (after_planning_examining E user_input kv steps (JObj akv)
               w1 w2 Hsteps Htruthy Hexam).
    unfold executing, bind.
    destruct (log "plan_analysis" (JObj akv) w2) as [[[]|e] wl];
      [|reflexivity].
    unfold lift, dict_get_default, dict_get. rewrite Hrp, Hfalse.
    reflexivity. }
  split; [exact Heq|].
  rewrite Heq.
  apply extends_trans with (w2 := w1).
  { pose proof (planning_upstream E user_input w) as H.
    rewrite Hplan in H. revert H. apply extends_weaken.
    intros [] H; simpl in *; tauto. }
  apply extends_trans with (w2 := w2).
  { pose proof (examining_no_gate E (JObj kv) w1) as H.
    now rewrite Hexam in H. }
  apply executing_no_gate.
Qed.

Lemma process_request_skips_gate_witness :
  let deny := ("{" ++ Script.quoted "requires_permission" ++ ": false, "
               ++ Script.quoted "recommendation" ++ ": "
               ++ Script.quoted "deny" ++ "}")%string in
  let plan := ("{" ++ Script.quoted "steps" ++ ": ["
               ++ Script.quoted "rm -rf /tmp/cache" ++ "]}")%string in
  let E := Script.scripted "NO_SEARCH_NEEDED" "{}" plan deny [] [] in
  let w := Script.fresh Absent Absent ["n"] in
  let kv := [("steps", JList [JStr "rm -rf /tmp/cache"])] in
  let akv := [("requires_permission", JBool false);
              ("recommendation", JStr "deny")] in
  let w1 := snd (planning E "clear the cache" w) in
  let w2 := snd (examining E (JObj kv) w1) in
  process_request E "clear the cache" w
  = executing E "clear the cache" (JObj kv) (JObj akv) w2
  /\ extends (fun e => ~ gate_event e) w
       (snd (process_request E "clear the cache" w)).
Proof.
  intros deny plan E w kv akv w1 w2.
  apply (process_request_skips_gate E "clear the cache" w w1 w2 kv akv
           (JList [JStr "rm -rf /tmp/cache"]) (JBool false));
    reflexivity.
Defined.

(** The other side of the table: when [requires_permission] is absent
    or truthy, the gate is called right after the assessment is logged,
    and its answer decides between cancelling and executing. *)
Lemma process_request_consults_gate
  (E : env) (user_input : string) (w w1 w2 : world)
  (kv akv : list (string * json)) (steps : json) :
  planning E user_input w = (Ok (JObj kv), w1) ->
  assoc "steps" kv = Some steps -> truthy steps = true ->
  examining E (JObj kv) w1 = (Ok (JObj akv), w2) ->
  match assoc "requires_permission" akv with
  | Some v => truthy v = true
  | None => True
  end ->
  process_request E user_input w
  = (log "plan_analysis" (JObj akv) ;;;
     granted <- request_user_permission (JObj kv) (JObj akv) ;;
     if negb granted then print "Execution cancelled by user."
     else (print "Executing plan..." ;;;
           execution <- execute E (JObj kv) user_input ;;
           log "execution" execution ;;;
           summary execution ;;;
           ret tt)) w2.
Proof.
  intros Hplan Hsteps Htruthy Hexam Hrp.
  rewrite process_request_planning, (bind_ok _ _ _ _ _ Hplan).
  rewrite (after_planning_examining E user_input kv steps (JObj akv)
             w1 w2 Hsteps Htruthy Hexam).
  unfold bind.
  destruct (log "plan_analysis" (JObj akv) w2) as [[[]|e] wl];
    [|reflexivity].
  unfold lift, dict_get_default, dict_get.
  destruct (assoc "requires_permission" akv) as [v|].
  - now rewrite Hrp.
  - reflexivity.
Qed.

(** ** Planning is entered once *)

(** A call of [create_plan] without an error context. *)
Definition without_error_context (e : event) : Prop :=
  match e with
  | CallCreatePlan _ _ error_context => error_context = JNull
  | _ => True
  end.

(** Whatever the collaborators answer, no call of [create_plan] that
    [process_request] makes carries an error context: the outcome of a
    failed execution is logged and summarised, never fed back. *)
Lemma process_request_never_feeds_back (E : env) (user_input : string) :
  preserves (extends without_error_context) (process_request E user_input).
Proof.
  unfold process_request.
  apply extends_bind; [now apply extends_emit | intros _].
  apply extends_bind; [now apply extends_analyze | intros c].
  apply extends_bind; [now apply extends_log | intros _].
  apply extends_bind; [now apply extends_emit | intros _].
  apply extends_bind; [now apply extends_create_plan | intros plan].
  apply extends_bind; [now apply extends_log | intros _].
  apply extends_bind; [apply extends_lift | intros steps].
  destruct (negb (truthy steps)); [now apply extends_emit|].
  apply extends_bind; [now apply extends_emit | intros _].
  apply extends_bind; [now apply extends_analyze_plan | intros analysis].
  apply extends_bind; [now apply extends_log | intros _].
  apply extends_bind; [apply extends_lift | intros rp].
  assert (Hrun : preserves (extends without_error_context)
                   (print "Executing plan..." ;;;
                    execution <- execute E plan user_input ;;
                    log "execution" execution ;;;
                    summary execution ;;;
                    ret tt)).
  { apply extends_bind; [now apply extends_emit | intros _].
    apply extends_bind; [now apply extends_execute | intros execution].
    apply extends_bind; [now apply extends_log | intros _].
    apply extends_bind; [now apply extends_summary | intros _].
    apply extends_ret. }
  destruct (truthy rp); [|exact Hrun].
  apply extends_bind;
    [now apply extends_request_user_permission | intros granted].
  destruct (negb granted); [now apply extends_emit | exact Hrun].
Qed.

Definition is_create_plan (e : event) : bool :=
  match e with
  | CallCreatePlan _ _ _ => true
  | _ => false
  end.

Definition is_log (e : event) : bool :=
  match e with
  | CallLog _ _ => true
  | _ => false
  end.

(** The request of the retry contract: a plan of three steps whose
    second step fails. *)
Definition three_step_plan : string :=
  ("{" ++ Script.quoted "steps" ++ ": [" ++ Script.quoted "make" ++ ", "
   ++ Script.quoted "make install" ++ ", " ++ Script.quoted "make clean"
   ++ "]}")%string.

Definition approval : string :=
  ("{" ++ Script.quoted "requires_permission" ++ ": false, "
   ++ Script.quoted "recommendation" ++ ": " ++ Script.quoted "approve"
   ++ "}")%string.

(** C1 on the code. The plan fails on step 2 of 3; [execute] returns the
    error context with the failed command and the one trailing step;
    [process_request] logs it, prints the summary and returns.  The one
    call of [create_plan] of the run is the first, without error
    context: planning is not entered again. *)
Lemma process_request_does_not_replan :
  let E := Script.scripted "NO_SEARCH_NEEDED" "{}" three_step_plan approval
             ["make install"] [] in
  let w := Script.fresh Absent Absent [] in
  let plan := JObj [("steps", JList [JStr "make"; JStr "make install";
                                     JStr "make clean"])] in
  let failure :=
    JObj [("command", JStr "make install");
          ("error",
           JStr "Command 'make install' returned non-zero exit status 1.");
          ("remaining_steps", JList [JStr "make clean"])] in
  let outcome :=
    JObj [("status", JStr "failed");
          ("results", JList [step_success (JStr "make") "" ""]);
          ("error_context", failure)] in
  fst (process_request E "install it" w) = Ok tt
  /\ filter is_create_plan (trace (snd (process_request E "install it" w)))
     = [CallCreatePlan "install it" (JObj []) JNull]
  /\ filter is_log (trace (snd (process_request E "install it" w)))
     = [CallLog "comprehension" (JObj []);
        CallLog "plan_creation" plan;
        CallLog "plan_analysis"
          (JObj [("requires_permission", JBool false);
                 ("recommendation", JStr "approve")]);
        CallLog "execution" outcome]
  /\ last (trace (snd (process_request E "install it" w))) EvInput
     = EvPrint
         (MsgJson (JObj [("total_commands", JInt 0);
                         ("executed_commands", JInt 0);
                         ("success_count", JInt 1);
                         ("failed_count", JInt 0);
                         ("error_context", failure)])).
Proof.
  vm_compute. repeat split.
Qed.

(** ** Cache hits and persistence *)

(** What [load_kb] returns for a file. *)
Definition loaded (f : file) : result json :=
  match f with
  | Absent => Ok (JList [])
  | Undecodable => Raise UnicodeDecodeError
  | Malformed => Ok (JList [])
  | Holds v => Ok v
  end.

(** What [find_similar_plan] returns for a loaded knowledge base. *)
Definition lookup (kb : json) (query : string) : result json :=
  if negb (truthy kb) then Ok JNull
  else
    match py_iter kb with
    | Raise e => Raise e
    | Ok items =>
        match map_result (fun item => subscript item "query") items with
        | Raise e => Raise e
        | Ok queries =>
            match map_result as_string queries with
            | Raise e => Raise e
            | Ok possibilities =>
                match Difflib.get_close_matches query possibilities with
                | [] => Ok JNull
                | m :: _ => first_with_query m items
                end
            end
        end
    end.

(** [find_similar_plan] reads the cache file and changes nothing. *)
Lemma find_similar_plan_lookup (query : string) (w : world) :
  find_similar_plan query w
  = (match loaded (kb_file w) with
     | Ok kb => lookup kb query
     | Raise e => Raise e
     end, w).
Proof.
  unfold find_similar_plan, bind, load_kb, loaded, lookup, lift, ret.
  destruct (kb_file w) as [| | |v]; try reflexivity.
  destruct (negb (truthy v)); [reflexivity|].
  destruct (py_iter v) as [items|e]; [|reflexivity].
  destruct (map_result _ items) as [queries|e]; [|reflexivity].
  destruct (map_result as_string queries) as [ps|e]; [|reflexivity].
  destruct (Difflib.get_close_matches query ps); reflexivity.
Qed.

(** The cache file after [n] more entries were appended to it. *)
Definition stored_times (f : file) (entry : json) (n : nat) : file :=
  match n with
  | O => f
  | S _ => Holds (JList (kb_entries f ++ repeat entry n))
  end.

Lemma stored_times_step (w : world) (query : string) (plan : json)
  (n : nat) :
  stored_times (kb_file (stored w query plan)) (kb_entry query plan) n
  = stored_times (kb_file w) (kb_entry query plan) (S n).
Proof.
  destruct n as [|n]; simpl; [reflexivity|].
  now rewrite <- app_assoc.
Qed.

(** A call of [add_to_kb] that returns has appended the entry. *)
Lemma add_to_kb_ok (query : string) (plan : json) (w w' : world) (u : unit) :
  add_to_kb query plan w = (Ok u, w') -> w' = stored w query plan.
Proof.
  unfold add_to_kb, bind, emit, load_kb, lift, save_kb, set_kb_file, stored.
  simpl. destruct (kb_file w) as [| | |v]; simpl;
    try discriminate; try (now intros [= <-]).
  destruct v; simpl; try discriminate. now intros [= <-].
Qed.

(** When the loop returns, the results grew by one record per command
    that succeeded, and the cache by one entry per such record. *)
Lemma execute_loop_persists (E : env) (plan : json) (user_query : string)
  (steps : json) (total : nat) (cmds : list json) :
  forall idx results w r w2,
    execute_loop E plan user_query steps total cmds idx results w
    = (Ok r, w2) ->
    exists more,
      dict_get r "results" = Ok (Some (JList (results ++ more)))
      /\ kb_file w2
         = stored_times (kb_file w) (kb_entry user_query plan)
             (List.length more).
Proof.
  induction cmds as [|cmd rest IH]; intros idx results w r w2.
  - simpl. unfold ret. intros [= <- <-]. exists []. simpl.
    now rewrite app_nil_r.
  - simpl.
    rewrite (bind_ok _ _ _ _ _ (emit_after _ w)).
    rewrite (bind_ok _ _ _ _ _ (run_after E cmd _)).
    destruct (subprocess_run E _ cmd) as [out err|msg| |e].
    + unfold bind at 1.
      destruct (add_to_kb user_query plan _) as [[u|e] wk] eqn:Hadd;
        [|discriminate].
      apply add_to_kb_ok in Hadd. subst wk. intros Hloop.
      destruct (IH _ _ _ _ _ Hloop) as (more & Hres & Hkb).
      exists (step_success cmd out err :: more). split.
      * now rewrite <- app_assoc in Hres.
      * rewrite Hkb, stored_times_step. reflexivity.
    + unfold bind, lift. destruct (slice_from steps (idx + 1));
        [|discriminate].
      unfold ret. intros [= <- <-]. exists []. simpl.
      now rewrite app_nil_r.
    + unfold bind, lift. destruct (slice_from steps (idx + 1));
        [|discriminate].
      unfold ret. intros [= <- <-]. exists []. simpl.
      now rewrite app_nil_r.
    + discriminate.
Qed.

Lemma execute_persists (E : env) (plan : json) (user_query : string)
  (w : world) (r : json) (w2 : world) :
  execute E plan user_query w = (Ok r, w2) ->
  exists results,
    dict_get r "results" = Ok (Some (JList results))
    /\ kb_file w2
       = stored_times (kb_file w) (kb_entry user_query plan)
           (List.length results).
Proof.
  unfold execute.
  rewrite (bind_ok _ _ _ _ _ (emit_after _ w)).
  unfold bind at 1, lift at 1.
  destruct (dict_get_default plan "steps" (JList [])) as [steps|e];
    [|discriminate].
  unfold bind at 1, lift at 1.
  destruct (py_iter steps) as [cmds|e]; [|discriminate].
  intros Hloop.
  destruct (execute_loop_persists _ _ _ _ _ _ _ _ _ _ _ Hloop)
    as (more & Hres & Hkb).
  exists more. split; [exact Hres | exact Hkb].
Qed.


(** ** [difflib]: the longest match is a match *)

Module DifflibFacts.

Import Difflib.

#[local] Open Scope nat_scope.

Lemma indices_from_spec (c : ascii) (s : seq) (start j : nat) :
  In j (indices_from c s start) <->
  start <= j < start + List.length s /\ nth (j - start) s zero = c.
Proof.
  revert start. induction s as [|x r IH]; intros start; simpl.
  - split; [tauto | lia].
  - destruct (Ascii.eqb x c) eqn:Hx.
    + apply Ascii.eqb_eq in Hx. subst x. simpl. rewrite IH. split.
      * intros [<- | (Hj & Hn)].
        -- rewrite Nat.sub_diag. split; [lia | reflexivity].
        -- split; [lia|]. destruct (j - start) as [|d] eqn:Hd; [lia|].
           replace (j - S start) with d in Hn by lia. exact Hn.
      * intros (Hj & Hn). destruct (j - start) as [|d] eqn:Hd.
        -- left. lia.
        -- right. split; [lia|]. now replace (j - S start) with d by lia.
    + rewrite IH. apply Ascii.eqb_neq in Hx. split.
      * intros (Hj & Hn). split; [lia|].
        destruct (j - start) as [|d] eqn:Hd; [lia|].
        replace (j - S start) with d in Hn by lia. exact Hn.
      * intros (Hj & Hn). destruct (j - start) as [|d] eqn:Hd.
        -- congruence.
        -- split; [lia|]. now replace (j - S start) with d by lia.
Qed.

Lemma b2j_spec (b : seq) (c : ascii) (j : nat) :
  In j (b2j b c) <->
  popular b c = false /\ j < List.length b /\ nth_char b j = c.
Proof.
  unfold b2j, nth_char. destruct (popular b c).
  - simpl. split; [tauto | intros [H _]; discriminate].
  - rewrite indices_from_spec, Nat.sub_0_r. simpl.
    split; [intros (? & ?) | intros (_ & ? & ?)]; repeat split;
      try lia; assumption.
Qed.

Lemma lookup_len_in (j : nat) (l : list (nat * nat)) :
  lookup_len j l = 0 \/ In (j, lookup_len j l) l.
Proof.
  induction l as [|[j' k] r IH]; simpl; [now left|].
  destruct (j =? j') eqn:Hj.
  - apply Nat.eqb_eq in Hj. subst. right. now left.
  - destruct IH; [now left | right; now right].
Qed.

Section Match.

Variables a b : seq.
Variables alo blo bhi : nat.

(** An entry [(j, k)] of [j2len] at row [i]: the [k] elements of [a]
    that end at [i] are the [k] elements of [b] that end at [j]. *)
Definition entry_ok (i : nat) (e : nat * nat) : Prop :=
  1 <= snd e /\ snd e <= i + 1 - alo /\ snd e <= fst e + 1 - blo
  /\ fst e < bhi
  /\ forall t, t < snd e -> nth_char a (i - t) = nth_char b (fst e - t).

(** A block within the ranges that is a match. *)
Definition block_ok (ahi : nat) (m : best) : Prop :=
  alo <= besti m /\ besti m + bestsize m <= ahi
  /\ blo <= bestj m /\ bestj m + bestsize m <= bhi
  /\ forall t, t < bestsize m ->
       nth_char a (besti m + t) = nth_char b (bestj m + t).

Lemma block_ok_mono (ahi ahi' : nat) (m : best) :
  ahi <= ahi' -> block_ok ahi m -> block_ok ahi' m.
Proof.
  unfold block_ok. intros H (H1 & H2 & H3).
  repeat split; try lia; tauto.
Qed.

Lemma prev_len_ok (i j : nat) (j2len : list (nat * nat)) :
  Forall (entry_ok i) j2len ->
  prev_len (S j) j2len = 0 \/ entry_ok i (j, prev_len (S j) j2len).
Proof.
  intros Hall. simpl. destruct (lookup_len_in j j2len) as [H | H];
    [now left | right].
  rewrite Forall_forall in Hall. exact (Hall _ H).
Qed.

(** The rows of [j2len] and the best block stay correct across the inner
    loop.  [prev] is the row above, empty for the first row. *)
Lemma scan_row_ok (i : nat) (prev : list (nat * nat)) (js : list nat) :
  alo <= i ->
  (forall i', i = S i' -> Forall (entry_ok i') prev) ->
  (i = 0 -> prev = []) ->
  (forall j, In j js -> nth_char b j = nth_char a i) ->
  forall new bst,
    Forall (entry_ok i) new -> block_ok (S i) bst ->
    Forall (entry_ok i) (fst (scan_row blo bhi i prev js new bst))
    /\ block_ok (S i) (snd (scan_row blo bhi i prev js new bst)).
Proof.
  intros Hi Hprev Hfirst.
  induction js as [|j js IH]; intros Hjs new bst Hnew Hbst.
  - simpl. now split.
  - simpl. destruct (j <? blo) eqn:Hlo.
    { apply IH; [intros; apply Hjs; now right | assumption..]. }
    destruct (bhi <=? j) eqn:Hhi; [now split|].
    apply Nat.ltb_ge in Hlo. apply Nat.leb_gt in Hhi.
    assert (Hj : nth_char b j = nth_char a i) by (apply Hjs; now left).
    assert (Hk : entry_ok i (j, prev_len j prev + 1)).
    { unfold entry_ok. cbn [fst snd].
      assert (Hp : prev_len j prev = 0
                   \/ exists i' j', i = S i' /\ j = S j'
                        /\ entry_ok i' (j', prev_len j prev)).
      { destruct j as [|j']; [now left|].
        destruct i as [|i'].
        - left. now rewrite (Hfirst eq_refl).
        - destruct (prev_len_ok i' j' prev (Hprev i' eq_refl)) as [H0 | Hok];
            [now left | right; eauto]. }
      destruct Hp as [-> | (i' & j' & -> & -> & Hok)].
      - repeat split; try lia.
        intros t Ht. replace t with 0 by lia.
        rewrite !Nat.sub_0_r. now rewrite Hj.
      - unfold entry_ok in Hok. cbn [fst snd] in Hok.
        destruct Hok as (H1 & H2 & H3 & H4 & H5).
        repeat split; try lia.
        intros t Ht. destruct t as [|t].
        + rewrite !Nat.sub_0_r. now rewrite Hj.
        + replace (S i' - S t) with (i' - t) by lia.
          replace (S j' - S t) with (j' - t) by lia.
          apply H5. lia. }
    apply IH.
    + intros; apply Hjs; now right.
    + constructor; assumption.
    + destruct (bestsize bst <? prev_len j prev + 1); [|assumption].
      unfold entry_ok in Hk. cbn [fst snd] in Hk.
      destruct Hk as (H1 & H2 & H3 & H4 & H5).
      unfold block_ok. cbn [besti bestj bestsize]. repeat split; try lia.
      intros t Ht.
      specialize (H5 (prev_len j prev + 1 - 1 - t)).
      replace (i - (prev_len j prev + 1 - 1 - t))
        with (i + 1 - (prev_len j prev + 1) + t) in H5 by lia.
      replace (j - (prev_len j prev + 1 - 1 - t))
        with (j + 1 - (prev_len j prev + 1) + t) in H5 by lia.
      apply H5. lia.
Qed.

Lemma scan_rows_ok (n : nat) :
  forall i j2len bst,
    alo <= i ->
    (forall i', i = S i' -> Forall (entry_ok i') j2len) ->
    (i = 0 -> j2len = []) ->
    block_ok i bst ->
    block_ok (i + n) (scan_rows a b blo bhi n i j2len bst).
Proof.
  induction n as [|n IH]; intros i j2len bst Hi Hprev Hfirst Hbst.
  - simpl. now rewrite Nat.add_0_r.
  - simpl.
    destruct (scan_row blo bhi i j2len (b2j b (nth_char a i)) [] bst)
      as [new bst'] eqn:Hrow.
    destruct (scan_row_ok i j2len (b2j b (nth_char a i)) Hi Hprev Hfirst)
      with (new := @nil (nat * nat)) (bst := bst) as [Hnew Hb'].
    + intros j Hj. apply b2j_spec in Hj. tauto.
    + constructor.
    + apply block_ok_mono with (ahi := i); [lia | exact Hbst].
    + rewrite Hrow in Hnew, Hb'. simpl in Hnew, Hb'.
      replace (i + S n) with (S i + n) by lia.
      apply IH; try lia; try assumption.
      intros i' [= <-]. exact Hnew.
Qed.

Lemma extend_left_ok (ahi : nat) (bi : nat) :
  forall bj size,
    block_ok ahi {| besti := bi; bestj := bj; bestsize := size |} ->
    block_ok ahi (extend_left a b alo blo bi bj size).
Proof.
  induction bi as [|bi IH]; intros bj size Hok; [exact Hok|].
  simpl. destruct bj as [|bj]; [exact Hok|].
  destruct ((alo <? S bi) && (blo <? S bj)
            && Ascii.eqb (nth_char a bi) (nth_char b bj)) eqn:Hc;
    [|exact Hok].
  apply andb_prop in Hc. destruct Hc as [Hc He].
  apply andb_prop in Hc. destruct Hc as [Ha Hb].
  apply Nat.ltb_lt in Ha, Hb. apply Ascii.eqb_eq in He.
  apply IH. unfold block_ok in *. cbn [besti bestj bestsize] in *.
  destruct Hok as (H1 & H2 & H3 & H4 & H5).
  repeat split; try lia.
  intros t Ht. destruct t as [|t].
  - now rewrite !Nat.add_0_r.
  - replace (bi + S t) with (S bi + t) by lia.
    replace (bj + S t) with (S bj + t) by lia.
    apply H5. lia.
Qed.

Lemma extend_right_ok (ahi bi bj : nat) (n : nat) :
  forall size,
    bi + size + n <= ahi ->
    block_ok ahi {| besti := bi; bestj := bj; bestsize := size |} ->
    block_ok ahi {| besti := bi; bestj := bj;
                    bestsize := extend_right a b bhi bi bj n size |}.
Proof.
  induction n as [|n IH]; intros size Hn Hok; [exact Hok|].
  simpl.
  destruct ((bj + size <? bhi)
            && Ascii.eqb (nth_char a (bi + size)) (nth_char b (bj + size)))
    eqn:Hc; [|exact Hok].
  apply andb_prop in Hc. destruct Hc as [Hb He].
  apply Nat.ltb_lt in Hb. apply Ascii.eqb_eq in He.
  apply IH; [lia|].
  unfold block_ok in *. cbn [besti bestj bestsize] in *.
  destruct Hok as (H1 & H2 & H3 & H4 & H5).
  repeat split; try lia.
  intros t Ht. destruct (Nat.eq_dec t size) as [-> | Hne];
    [exact He | apply H5; lia].
Qed.

(** [find_longest_match] returns a block of the two ranges on which [a]
    and [b] agree. *)
Lemma find_longest_match_ok (ahi : nat) :
  alo <= ahi -> blo <= bhi ->
  block_ok ahi (find_longest_match a b alo ahi blo bhi).
Proof.
  intros Ha Hb. unfold find_longest_match.
  set (b0 := scan_rows a b blo bhi (ahi - alo) alo []
               {| besti := alo; bestj := blo; bestsize := 0 |}).
  assert (H0 : block_ok ahi b0).
  { replace ahi with (alo + (ahi - alo)) at 1 by lia.
    apply scan_rows_ok; try lia.
    - intros. constructor.
    - reflexivity.
    - unfold block_ok. simpl. repeat split; try lia. }
  set (b1 := extend_left a b alo blo (besti b0) (bestj b0) (bestsize b0)).
  assert (H1 : block_ok ahi b1).
  { apply extend_left_ok. now destruct b0. }
  apply (extend_right_ok ahi (besti b1) (bestj b1)
           (ahi - (besti b1 + bestsize b1)) (bestsize b1)).
  - destruct H1 as (? & ? & _). lia.
  - now destruct b1.
Qed.

End Match.

Section Matches.

Variables a b : seq.

Lemma matches_in_S (fuel alo ahi blo bhi : nat) :
  matches_in (S fuel) a b alo ahi blo bhi
  = let m := find_longest_match a b alo ahi blo bhi in
    if bestsize m =? 0 then 0
    else bestsize m
         + (if (alo <? besti m) && (blo <? bestj m)
            then matches_in fuel a b alo (besti m) blo (bestj m) else 0)
         + (if (besti m + bestsize m <? ahi)
               && (bestj m + bestsize m <? bhi)
            then matches_in fuel a b (besti m + bestsize m) ahi
                   (bestj m + bestsize m) bhi
            else 0).
Proof. reflexivity. Qed.

(** The blocks lie side by side in both ranges, so their sizes add up to
    at most the length of the shorter range. *)
Lemma matches_in_bound (fuel : nat) :
  forall alo ahi blo bhi,
    alo <= ahi -> blo <= bhi ->
    matches_in fuel a b alo ahi blo bhi <= Nat.min (ahi - alo) (bhi - blo).
Proof.
  induction fuel as [|fuel IH]; intros alo ahi blo bhi Ha Hb;
    [simpl; lia|].
  rewrite matches_in_S. cbv zeta.
  pose proof (find_longest_match_ok a b alo blo bhi ahi Ha Hb) as Hok.
  set (m := find_longest_match a b alo ahi blo bhi) in *.
  destruct Hok as (H1 & H2 & H3 & H4 & _).
  destruct (bestsize m =? 0); [lia|].
  assert (HL : (if (alo <? besti m) && (blo <? bestj m)
                then matches_in fuel a b alo (besti m) blo (bestj m)
                else 0)
               <= Nat.min (besti m - alo) (bestj m - blo)).
  { destruct ((alo <? besti m) && (blo <? bestj m)); [|lia].
    apply IH; lia. }
  assert (HR : (if (besti m + bestsize m <? ahi)
                   && (bestj m + bestsize m <? bhi)
                then matches_in fuel a b (besti m + bestsize m) ahi
                       (bestj m + bestsize m) bhi
                else 0)
               <= Nat.min (ahi - (besti m + bestsize m))
                    (bhi - (bestj m + bestsize m))).
  { destruct ((besti m + bestsize m <? ahi)
              && (bestj m + bestsize m <? bhi)); [|lia].
    apply IH; lia. }
  lia.
Qed.

(** When the blocks fill two ranges of the same length, the ranges hold
    the same elements. *)
Lemma matches_in_full (fuel : nat) :
  forall alo ahi blo bhi,
    alo <= ahi -> blo <= bhi ->
    ahi - alo = bhi - blo ->
    matches_in fuel a b alo ahi blo bhi = ahi - alo ->
    forall t, t < ahi - alo -> nth_char a (alo + t) = nth_char b (blo + t).
Proof.
  induction fuel as [|fuel IH]; intros alo ahi blo bhi Ha Hb Hlen;
    [simpl; lia|].
  rewrite matches_in_S. cbv zeta.
  pose proof (find_longest_match_ok a b alo blo bhi ahi Ha Hb) as Hok.
  set (m := find_longest_match a b alo ahi blo bhi) in *.
  destruct Hok as (H1 & H2 & H3 & H4 & H5).
  destruct (bestsize m =? 0); [lia|].
  pose proof (matches_in_bound fuel alo (besti m) blo (bestj m)) as BL.
  pose proof (matches_in_bound fuel (besti m + bestsize m) ahi
                (bestj m + bestsize m) bhi) as BR.
  destruct ((alo <? besti m) && (blo <? bestj m)) eqn:HcL;
    destruct ((besti m + bestsize m <? ahi)
              && (bestj m + bestsize m <? bhi)) eqn:HcR;
    intros HM t Ht.
  - specialize (BL ltac:(lia) ltac:(lia)).
    specialize (BR ltac:(lia) ltac:(lia)).
    destruct (Nat.lt_ge_cases t (besti m - alo)) as [Hl | Hl].
    + apply (IH alo (besti m) blo (bestj m)); lia.
    + destruct (Nat.lt_ge_cases t (besti m - alo + bestsize m)) as [Hm | Hm].
      * replace (alo + t) with (besti m + (t - (besti m - alo))) by lia.
        replace (blo + t) with (bestj m + (t - (besti m - alo))) by lia.
        apply H5. lia.
      * replace (alo + t)
          with (besti m + bestsize m + (t - (besti m - alo + bestsize m)))
          by lia.
        replace (blo + t)
          with (bestj m + bestsize m + (t - (besti m - alo + bestsize m)))
          by lia.
        apply (IH (besti m + bestsize m) ahi (bestj m + bestsize m) bhi);
          lia.
  - specialize (BL ltac:(lia) ltac:(lia)).
    destruct (Nat.lt_ge_cases t (besti m - alo)) as [Hl | Hl].
    + apply (IH alo (besti m) blo (bestj m)); lia.
    + replace (alo + t) with (besti m + (t - (besti m - alo))) by lia.
      replace (blo + t) with (bestj m + (t - (besti m - alo))) by lia.
      apply H5. lia.
  - specialize (BR ltac:(lia) ltac:(lia)).
    destruct (Nat.lt_ge_cases t (besti m - alo + bestsize m)) as [Hm | Hm].
    + replace (alo + t) with (besti m + (t - (besti m - alo))) by lia.
      replace (blo + t) with (bestj m + (t - (besti m - alo))) by lia.
      apply H5. lia.
    + replace (alo + t)
        with (besti m + bestsize m + (t - (besti m - alo + bestsize m)))
        by lia.
      replace (blo + t)
        with (bestj m + bestsize m + (t - (besti m - alo + bestsize m)))
        by lia.
      apply (IH (besti m + bestsize m) ahi (bestj m + bestsize m) bhi);
        lia.
  - replace (alo + t) with (besti m + (t - (besti m - alo))) by lia.
    replace (blo + t) with (bestj m + (t - (besti m - alo))) by lia.
    apply H5. lia.
Qed.

(** The fuel [matches] gives is enough: with more fuel than the range of
    [a] is long, the sum does not depend on the fuel. *)
Lemma matches_in_enough_fuel (fuel : nat) :
  forall fuel' alo ahi blo bhi,
    alo <= ahi -> blo <= bhi ->
    ahi - alo < fuel -> ahi - alo < fuel' ->
    matches_in fuel a b alo ahi blo bhi
    = matches_in fuel' a b alo ahi blo bhi.
Proof.
  induction fuel as [|fuel IH]; intros fuel' alo ahi blo bhi Ha Hb Hf Hf';
    [lia|].
  destruct fuel' as [|fuel']; [lia|].
  rewrite !matches_in_S. cbv zeta.
  pose proof (find_longest_match_ok a b alo blo bhi ahi Ha Hb) as Hok.
  set (m := find_longest_match a b alo ahi blo bhi) in *.
  destruct Hok as (H1 & H2 & H3 & H4 & _).
  destruct (bestsize m =? 0) eqn:Hk; [reflexivity|].
  apply Nat.eqb_neq in Hk.
  f_equal; [f_equal|].
  - destruct ((alo <? besti m) && (blo <? bestj m)); [|reflexivity].
    apply IH; lia.
  - destruct ((besti m + bestsize m <? ahi)
              && (bestj m + bestsize m <? bhi)); [|reflexivity].
    apply IH; lia.
Qed.

Lemma matches_bound :
  matches a b <= Nat.min (List.length a) (List.length b).
Proof.
  unfold matches.
  pose proof (matches_in_bound (S (List.length a)) 0 (List.length a) 0
                (List.length b)) as H.
  rewrite !Nat.sub_0_r in H. apply H; lia.
Qed.

(** Only equal sequences are matched in full. *)
Lemma matches_full_eq :
  List.length a = List.length b -> matches a b = List.length a -> a = b.
Proof.
  intros Hlen HM. apply nth_ext with (d := zero) (d' := zero); [exact Hlen|].
  intros t Ht.
  apply (matches_in_full (S (List.length a)) 0 (List.length a) 0
           (List.length b)); try lia.
  rewrite Nat.sub_0_r. exact HM.
Qed.

(** Two different sequences are never matched in full: their ratio is
    below 1. *)
Lemma matches_lt_of_neq :
  a <> b -> 2 * matches a b < List.length a + List.length b.
Proof.
  intros Hne. pose proof matches_bound as Hb.
  destruct (Nat.eq_dec (List.length a) (List.length b)) as [Hlen | Hlen];
    [|lia].
  destruct (Nat.eq_dec (matches a b) (List.length a)) as [HM | HM];
    [|lia].
  exfalso. apply Hne. now apply matches_full_eq.
Qed.

End Matches.

End DifflibFacts.

(** ** [difflib]: a sequence matches itself in full *)

Module DifflibSame.

Import Difflib DifflibFacts.

#[local] Open Scope nat_scope.

Lemma indices_from_ge (c : ascii) (s : seq) (start : nat) :
  Forall (fun j => start <= j) (indices_from c s start).
Proof.
  apply Forall_forall. intros j Hj. apply indices_from_spec in Hj. lia.
Qed.

Lemma indices_from_sorted (c : ascii) (s : seq) :
  forall start, StronglySorted lt (indices_from c s start).
Proof.
  induction s as [|x r IH]; intros start; simpl; [constructor|].
  destruct (Ascii.eqb x c); [|apply IH].
  constructor; [apply IH|].
  eapply Forall_impl; [|apply indices_from_ge]. simpl. intros j. lia.
Qed.

(** A sorted list splits around any of its elements. *)
Lemma sorted_split (i : nat) (l : list nat) :
  StronglySorted lt l -> In i l ->
  exists before after,
    l = before ++ i :: after
    /\ Forall (fun j => j < i) before /\ Forall (fun j => i < j) after.
Proof.
  induction 1 as [|x l Hs IH Hx]; simpl; [tauto|].
  intros [-> | Hin].
  - exists [], l. repeat split; [constructor | exact Hx].
  - destruct (IH Hin) as (before & after & -> & Hb & Ha).
    exists (x :: before), after. repeat split; try assumption.
    constructor; [|exact Hb].
    rewrite Forall_forall in Hx. apply Hx. apply in_or_app. right. now left.
Qed.

Lemma lookup_len_skip (i k : nat) (front rest : list (nat * nat)) :
  Forall (fun e => fst e <> i) front ->
  lookup_len i (front ++ (i, k) :: rest) = k.
Proof.
  induction 1 as [|[j k'] front Hj _ IH]; simpl.
  - now rewrite Nat.eqb_refl.
  - simpl in Hj. destruct (i =? j) eqn:He; [|exact IH].
    apply Nat.eqb_eq in He. congruence.
Qed.

Section Same.

Variable s : seq.

Let n := List.length s.

(** The element at [j] is not popular: it stays in [b2j]. *)
Definition kept (j : nat) : bool := negb (popular s (nth_char s j)).

(** The number of kept elements in a row that end at [i]. *)
Fixpoint run_len (i : nat) : nat :=
  match i with
  | O => if kept 0 then 1 else 0
  | S i' => if kept (S i') then S (run_len i') else 0
  end.

(** The row of [j2len] above row [i]: its lengths are bounded by the runs
    and its diagonal entry is the run. *)
Definition above_ok (i : nat) (prev : list (nat * nat)) : Prop :=
  match i with
  | O => prev = []
  | S i' => Forall (fun e => snd e <= run_len (fst e)
                            /\ snd e <= run_len i') prev
            /\ lookup_len i' prev = run_len i'
  end.

Definition entry (prev : list (nat * nat)) (j : nat) : nat * nat :=
  (j, prev_len j prev + 1).

Lemma entry_bound (i j : nat) (prev : list (nat * nat)) :
  above_ok i prev -> kept i = true -> kept j = true ->
  prev_len j prev + 1 <= run_len j /\ prev_len j prev + 1 <= run_len i.
Proof.
  intros Hprev Hi Hj.
  assert (Hri : 1 <= run_len i) by (destruct i; simpl; rewrite Hi; lia).
  assert (Hrj : 1 <= run_len j) by (destruct j; simpl; rewrite Hj; lia).
  destruct j as [|j']; [cbn [prev_len]; lia|].
  destruct i as [|i'].
  - simpl in Hprev. subst prev. cbn [prev_len lookup_len]. lia.
  - destruct Hprev as [Hall _]. simpl prev_len.
    destruct (lookup_len_in j' prev) as [-> | Hin]; [lia|].
    rewrite Forall_forall in Hall. specialize (Hall _ Hin). simpl in Hall.
    simpl run_len. rewrite Hi, Hj. lia.
Qed.

Lemma entry_diagonal (i : nat) (prev : list (nat * nat)) :
  above_ok i prev -> kept i = true -> prev_len i prev + 1 = run_len i.
Proof.
  intros Hprev Hi. destruct i as [|i'].
  - simpl. rewrite Hi. reflexivity.
  - destruct Hprev as [_ Hd]. simpl. rewrite Hi, Hd. lia.
Qed.

(** Indices whose length does not beat the best block extend the row and
    leave the best block alone. *)
Lemma scan_row_quiet (i : nat) (prev : list (nat * nat)) (bst : best) :
  forall l1 l2 new,
    (forall j, In j l1 -> j < n /\ prev_len j prev + 1 <= bestsize bst) ->
    scan_row 0 n i prev (l1 ++ l2) new bst
    = scan_row 0 n i prev l2 (rev (map (entry prev) l1) ++ new) bst.
Proof.
  induction l1 as [|j l1 IH]; intros l2 new Hq; [reflexivity|].
  destruct (Hq j (or_introl eq_refl)) as [Hj Hk].
  simpl app. cbn [scan_row].
  replace (j <? 0) with false by (symmetry; now apply Nat.ltb_ge; lia).
  replace (n <=? j) with false by (symmetry; apply Nat.leb_gt; lia).
  replace (bestsize bst <? prev_len j prev + 1) with false
    by (symmetry; apply Nat.ltb_ge; lia).
  rewrite IH; [|intros j' Hj'; apply Hq; now right].
  simpl. unfold entry at 3. now rewrite <- app_assoc.
Qed.

(** The best block after a row: on the diagonal and at least as long as
    every run_len so far. *)
Definition best_ok (i : nat) (bst : best) : Prop :=
  besti bst = bestj bst /\ forall i', i' < i -> run_len i' <= bestsize bst.

Lemma scan_row_same (i : nat) (prev : list (nat * nat)) (bst : best) :
  i < n -> above_ok i prev -> best_ok i bst ->
  let r := scan_row 0 n i prev (b2j s (nth_char s i)) [] bst in
  above_ok (S i) (fst r) /\ best_ok (S i) (snd r).
Proof.
  intros Hi Hprev [Hdiag Hruns]. simpl.
  destruct (kept i) eqn:Hk.
  - assert (Hin : In i (b2j s (nth_char s i))).
    { apply b2j_spec. unfold kept in Hk.
      repeat split; [now destruct (popular s _) | exact Hi]. }
    assert (Hsorted : StronglySorted lt (b2j s (nth_char s i))).
    { unfold b2j. destruct (popular s _); [constructor|].
      apply indices_from_sorted. }
    destruct (sorted_split i _ Hsorted Hin)
      as (before & after & Hjs & Hb & Ha).
    assert (Hmem : forall j, In j (before ++ i :: after) ->
                             j < n /\ kept j = true).
    { intros j Hj. rewrite <- Hjs in Hj. apply b2j_spec in Hj.
      destruct Hj as (_ & Hlt & Hc). split; [exact Hlt|].
      unfold kept. now rewrite Hc. }
    rewrite Hjs.
    rewrite scan_row_quiet.
    2:{ intros j Hj. rewrite Forall_forall in Hb.
        destruct (Hmem j) as [Hlt Hkj]; [apply in_or_app; now left|].
        split; [exact Hlt|].
        destruct (entry_bound i j prev Hprev Hk Hkj) as [H1 _].
        specialize (Hruns j (Hb j Hj)). lia. }
    cbn [scan_row].
    replace (i <? 0) with false by (symmetry; apply Nat.ltb_ge; lia).
    replace (n <=? i) with false by (symmetry; apply Nat.leb_gt; lia).
    rewrite (entry_diagonal i prev Hprev Hk).
    set (bst' := if bestsize bst <? run_len i
                 then {| besti := i + 1 - run_len i; bestj := i + 1 - run_len i;
                         bestsize := run_len i |}
                 else bst).
    assert (Hb' : besti bst' = bestj bst'
                  /\ run_len i <= bestsize bst'
                  /\ bestsize bst <= bestsize bst').
    { unfold bst'. destruct (bestsize bst <? run_len i) eqn:Hc.
      - apply Nat.ltb_lt in Hc. simpl. lia.
      - apply Nat.ltb_ge in Hc. lia. }
    destruct Hb' as (Hd' & Hri & Hmono).
    rewrite <- (app_nil_r after).
    rewrite scan_row_quiet.
    2:{ intros j Hj.
        destruct (Hmem j) as [Hlt Hkj];
          [apply in_or_app; right; now right|].
        split; [exact Hlt|].
        destruct (entry_bound i j prev Hprev Hk Hkj) as [_ H2]. lia. }
    simpl. repeat split.
    + apply Forall_app. split.
      * apply Forall_rev, Forall_map, Forall_forall. intros j Hj. simpl.
        destruct (Hmem j) as [_ Hkj]; [apply in_or_app; right; now right|].
        apply (entry_bound i j prev Hprev Hk Hkj).
      * constructor.
        -- simpl. split; [|lia]. lia.
        -- rewrite app_nil_r.
           apply Forall_rev, Forall_map, Forall_forall. intros j Hj. simpl.
           destruct (Hmem j) as [_ Hkj]; [apply in_or_app; now left|].
           apply (entry_bound i j prev Hprev Hk Hkj).
    + apply lookup_len_skip.
      apply Forall_rev, Forall_map, Forall_forall. intros j Hj. simpl.
      rewrite Forall_forall in Ha. specialize (Ha j Hj). lia.
    + exact Hd'.
    + intros i' Hi'. destruct (Nat.eq_dec i' i) as [-> | Hne]; [exact Hri|].
      specialize (Hruns i' ltac:(lia)). lia.
  - assert (Hjs : b2j s (nth_char s i) = []).
    { unfold b2j. unfold kept in Hk.
      now destruct (popular s (nth_char s i)). }
    rewrite Hjs. simpl.
    assert (Hr : run_len i = 0) by (destruct i; simpl; now rewrite Hk).
    repeat split; try assumption.
    + constructor.
    + now rewrite Hr.
    + intros i' Hi'. destruct (Nat.eq_dec i' i) as [-> | Hne]; [lia|].
      apply Hruns. lia.
Qed.

Lemma scan_rows_same (rows : nat) :
  forall i prev bst,
    i + rows = n -> above_ok i prev -> best_ok i bst ->
    besti (scan_rows s s 0 n rows i prev bst)
    = bestj (scan_rows s s 0 n rows i prev bst).
Proof.
  induction rows as [|rows IH]; intros i prev bst Hn Hprev Hbst.
  - simpl. apply Hbst.
  - simpl.
    pose proof (scan_row_same i prev bst ltac:(lia) Hprev Hbst) as Hrow.
    simpl in Hrow.
    destruct (scan_row 0 n i prev (b2j s (nth_char s i)) [] bst)
      as [new bst'].
    simpl in Hrow. destruct Hrow as [Hnew Hb'].
    apply IH; [lia | exact Hnew | exact Hb'].
Qed.

Lemma extend_left_same (bi : nat) :
  forall size,
    extend_left s s 0 0 bi bi size
    = {| besti := 0; bestj := 0; bestsize := size + bi |}.
Proof.
  induction bi as [|bi IH]; intros size; simpl.
  - now rewrite Nat.add_0_r.
  - rewrite Ascii.eqb_refl. simpl. rewrite IH. f_equal. lia.
Qed.

Lemma extend_right_same (steps : nat) :
  forall size,
    size + steps <= n ->
    extend_right s s n 0 0 steps size = size + steps.
Proof.
  induction steps as [|steps IH]; intros size Hs; simpl; [lia|].
  replace (size <? n) with true by (symmetry; apply Nat.ltb_lt; lia).
  rewrite Ascii.eqb_refl. simpl. rewrite IH; lia.
Qed.

(** The longest match of a sequence with itself is the whole of it. *)
Lemma find_longest_match_same :
  find_longest_match s s 0 n 0 n
  = {| besti := 0; bestj := 0; bestsize := n |}.
Proof.
  unfold find_longest_match. rewrite Nat.sub_0_r.
  set (b0 := scan_rows s s 0 n n 0 []
               {| besti := 0; bestj := 0; bestsize := 0 |}).
  assert (Hd : besti b0 = bestj b0).
  { apply scan_rows_same; [reflexivity | reflexivity|].
    split; [reflexivity | intros i' Hi'; lia]. }
  assert (Hok : block_ok s s 0 0 n n b0).
  { pose proof (scan_rows_ok s s 0 0 n n 0 []
                  {| besti := 0; bestj := 0; bestsize := 0 |}) as H.
    apply H; try lia; try (intros; reflexivity).
    unfold block_ok. simpl. repeat split; lia. }
  rewrite <- Hd, extend_left_same. cbn [besti bestj bestsize].
  destruct Hok as (_ & Hle & _).
  rewrite extend_right_same by lia.
  f_equal. lia.
Qed.

Lemma matches_same : matches s s = n.
Proof.
  unfold matches. fold n. rewrite matches_in_S. cbv zeta.
  rewrite find_longest_match_same. cbn [besti bestj bestsize].
  destruct (n =? 0) eqn:Hn; [apply Nat.eqb_eq in Hn; lia|].
  rewrite ?Nat.add_0_l, !Nat.ltb_irrefl. simpl. lia.
Qed.

Lemma quick_matches_same : quick_matches s s = n.
Proof.
  unfold n. clear n. induction s as [|c r IH]; simpl; [reflexivity|].
  rewrite Ascii.eqb_refl. now rewrite IH.
Qed.

End Same.

End DifflibSame.

(** ** [difflib]: an exact match is the closest match *)

Module DifflibExact.

Import Difflib DifflibFacts DifflibSame.

#[local] Open Scope nat_scope.

(** The ratio 1.0, and a ratio below it. *)
Definition is_one (r : ratio_t) : Prop := fst r = snd r /\ 0 < snd r.
Definition below_one (r : ratio_t) : Prop := fst r < snd r.

Lemma ratio_same (s : seq) : is_one (ratio s s).
Proof.
  unfold ratio, calculate_ratio. rewrite matches_same.
  destruct (List.length s + List.length s =? 0) eqn:H; unfold is_one; simpl.
  - lia.
  - apply Nat.eqb_neq in H. lia.
Qed.

Lemma quick_ratio_same (s : seq) : is_one (quick_ratio s s).
Proof.
  unfold quick_ratio, calculate_ratio. rewrite quick_matches_same.
  destruct (List.length s + List.length s =? 0) eqn:H; unfold is_one; simpl.
  - lia.
  - apply Nat.eqb_neq in H. lia.
Qed.

Lemma real_quick_ratio_same (s : seq) : is_one (real_quick_ratio s s).
Proof.
  unfold real_quick_ratio, calculate_ratio. rewrite Nat.min_id.
  destruct (List.length s + List.length s =? 0) eqn:H; unfold is_one; simpl.
  - lia.
  - apply Nat.eqb_neq in H. lia.
Qed.

Lemma ratio_neq (a b : seq) : a <> b -> below_one (ratio a b).
Proof.
  intros Hne. pose proof (matches_lt_of_neq a b Hne) as H.
  unfold ratio, calculate_ratio, below_one.
  destruct (List.length a + List.length b =? 0) eqn:H0; simpl; [|lia].
  apply Nat.eqb_eq in H0. lia.
Qed.

Lemma is_one_geb_cutoff (r : ratio_t) :
  is_one r -> ratio_geb r cutoff = true.
Proof.
  intros [H1 H2]. unfold ratio_geb, ratio_ltb, cutoff. simpl.
  apply negb_true_iff, Nat.ltb_ge. lia.
Qed.

Lemma list_ascii_neq (x y : string) :
  x <> y -> list_ascii_of_string x <> list_ascii_of_string y.
Proof.
  intros Hne Heq. apply Hne.
  rewrite <- (string_of_list_ascii_of_string x).
  rewrite <- (string_of_list_ascii_of_string y). now rewrite Heq.
Qed.

Section Exact.

Variable word : string.

(** A scored candidate: the word itself with ratio 1.0, or another
    string with a ratio below. *)
Definition good (p : ratio_t * string) : Prop :=
  (snd p = word /\ is_one (fst p)) \/ (snd p <> word /\ below_one (fst p)).

Lemma close_candidates_good (possibilities : list string) :
  Forall good (close_candidates word possibilities).
Proof.
  induction possibilities as [|x rest IH]; simpl; [constructor|].
  destruct (_ && _); [|exact IH].
  constructor; [|exact IH].
  destruct (string_dec x word) as [-> | Hne].
  - left. split; [reflexivity | apply ratio_same].
  - right. split; [exact Hne | apply ratio_neq, list_ascii_neq, Hne].
Qed.

Lemma close_candidates_word (possibilities : list string) :
  In word possibilities ->
  exists r, In (r, word) (close_candidates word possibilities).
Proof.
  induction possibilities as [|x rest IH]; simpl; [tauto|].
  intros [-> | Hin].
  - rewrite (is_one_geb_cutoff _ (real_quick_ratio_same _)).
    rewrite (is_one_geb_cutoff _ (quick_ratio_same _)).
    rewrite (is_one_geb_cutoff _ (ratio_same _)). simpl.
    eexists. now left.
  - destruct (IH Hin) as (r & Hr). exists r.
    destruct (_ && _); [now right | exact Hr].
Qed.

Lemma scored_ltb_word_wins (cur p : ratio_t * string) :
  good cur -> good p -> snd cur <> word -> snd p = word ->
  scored_ltb cur p = true.
Proof.
  intros [[Hc _] | [_ Hc]] [[_ [Hp1 Hp2]] | [Hp _]] Hcw Hpw; try tauto.
  unfold scored_ltb, ratio_ltb, below_one in *.
  apply orb_true_iff. left. apply Nat.ltb_lt. rewrite Hp1. nia.
Qed.

Lemma scored_ltb_word_stays (cur p : ratio_t * string) :
  good cur -> good p -> snd cur = word -> snd p <> word ->
  scored_ltb cur p = false.
Proof.
  intros [[_ [Hc1 Hc2]] | [Hc _]] [[Hp _] | [_ Hp]] Hcw Hpw; try tauto.
  unfold scored_ltb, ratio_ltb, below_one in *.
  apply orb_false_iff. split.
  - apply Nat.ltb_ge. rewrite Hc1. nia.
  - apply andb_false_iff. left. apply negb_false_iff, Nat.ltb_lt.
    rewrite Hc1. nia.
Qed.

Lemma max_scored_word (l : list (ratio_t * string)) :
  forall cur,
    Forall good (cur :: l) ->
    (exists p, In p (cur :: l) /\ snd p = word) ->
    snd (max_scored cur l) = word.
Proof.
  induction l as [|p l IH]; intros cur Hgood (e & Hin & He); simpl.
  - destruct Hin as [<- | []]. exact He.
  - inversion Hgood as [|? ? Hc Hrest]; subst.
    inversion Hrest as [|? ? Hp Hl]; subst.
    destruct (string_dec (snd cur) word) as [Hcw | Hcw];
      destruct (string_dec (snd p) word) as [Hpw | Hpw].
    + apply IH.
      * destruct (scored_ltb cur p); now constructor.
      * exists (if scored_ltb cur p then p else cur).
        split; [now left | now destruct (scored_ltb cur p)].
    + rewrite (scored_ltb_word_stays cur p Hc Hp Hcw Hpw).
      apply IH; [now constructor|]. exists cur. split; [now left | exact Hcw].
    + rewrite (scored_ltb_word_wins cur p Hc Hp Hcw Hpw).
      apply IH; [now constructor|]. exists p. split; [now left | exact Hpw].
    + apply IH.
      * destruct (scored_ltb cur p); now constructor.
      * exists e. split; [|exact He].
        destruct Hin as [<- | [<- | Hin]]; try tauto. now right.
Qed.

(** A word that is among the possibilities is its own and only closest
    match. *)
Lemma get_close_matches_exact (possibilities : list string) :
  In word possibilities ->
  get_close_matches word possibilities = [word].
Proof.
  intros Hin. unfold get_close_matches, nlargest1.
  destruct (close_candidates_word possibilities Hin) as (r & Hr).
  pose proof (close_candidates_good possibilities) as Hgood.
  destruct (close_candidates word possibilities) as [|c l]; [destruct Hr|].
  simpl. f_equal. apply max_scored_word; [exact Hgood|].
  exists (r, word). split; [exact Hr | reflexivity].
Qed.

End Exact.

End DifflibExact.

(** ** Lookup in the plan cache *)

(** The cache file that holds the pairs [pairs], in the order they were
    stored. *)
Definition cache_of (pairs : list (string * json)) : file :=
  Holds (JList (map (fun e => kb_entry (fst e) (snd e)) pairs)).

(** The plan of the first pair stored for [query]. *)
Fixpoint first_plan (query : string) (pairs : list (string * json))
  : option json :=
  match pairs with
  | [] => None
  | (q, p) :: rest => if String.eqb q query then Some p
                      else first_plan query rest
  end.

(** Storing a pair in a cache of pairs gives the cache with the pair at
    the end; the cache states are those [add_to_kb] builds. *)
Lemma add_to_kb_cache_of (pairs : list (string * json)) (query : string)
  (plan : json) (w : world) :
  kb_file w = cache_of pairs ->
  kb_file (snd (add_to_kb query plan w)) = cache_of (pairs ++ [(query, plan)]).
Proof.
  intros Hkb.
  rewrite add_to_kb_stored
    by (right; right; rewrite Hkb; unfold cache_of; eauto).
  simpl. rewrite Hkb. unfold cache_of. simpl.
  now rewrite map_app.
Qed.

Lemma stored_queries (pairs : list (string * json)) :
  map_result (fun item => subscript item "query")
    (map (fun e => kb_entry (fst e) (snd e)) pairs)
  = Ok (map (fun e => JStr (fst e)) pairs).
Proof.
  induction pairs as [|[q p] rest IH]; simpl; [reflexivity|].
  simpl in IH. now rewrite IH.
Qed.

Lemma stored_possibilities (pairs : list (string * json)) :
  map_result as_string (map (fun e => JStr (fst e)) pairs)
  = Ok (map fst pairs).
Proof.
  induction pairs as [|[q p] rest IH]; simpl; [reflexivity|].
  simpl in IH. now rewrite IH.
Qed.

Lemma first_with_query_pairs (query : string) (pairs : list (string * json)) :
  first_with_query query (map (fun e => kb_entry (fst e) (snd e)) pairs)
  = Ok match first_plan query pairs with
       | Some p => p
       | None => JNull
       end.
Proof.
  induction pairs as [|[q p] rest IH]; simpl; [reflexivity|].
  destruct (String.eqb q query); [reflexivity | exact IH].
Qed.

Lemma first_plan_in (query : string) (plan : json)
  (pairs : list (string * json)) :
  In (query, plan) pairs ->
  exists first,
    first_plan query pairs = Some first
    /\ ((forall p, In (query, p) pairs -> p = plan) -> first = plan).
Proof.
  induction pairs as [|[q p] rest IH]; simpl; [tauto|].
  destruct (String.eqb q query) eqn:Hq.
  - apply String.eqb_eq in Hq. subst q. intros _. exists p.
    split; [reflexivity|]. intros Hall. apply Hall. now left.
  - intros [[= -> ->] | Hin].
    + now rewrite String.eqb_refl in Hq.
    + destruct (IH Hin) as (first & Hf & Hu). exists first.
      split; [exact Hf|]. intros Hall. apply Hu.
      intros p' Hp'. apply Hall. now right.
Qed.

(** C6, as amended. For every cache of stored pairs and every pair
    [(query, plan)] in it, the lookup of [query] finds an exact match,
    whose similarity 1.0 meets the threshold and beats every other stored
    query, and returns the plan of the first pair stored for [query]:
    [plan] itself when the query was stored once, the plan stored first
    when it was stored several times. *)
Theorem find_similar_plan_exact_query
  (pairs : list (string * json)) (query : string) (plan : json)
  (w : world) :
  kb_file w = cache_of pairs ->
  In (query, plan) pairs ->
  exists first,
    first_plan query pairs = Some first
    /\ find_similar_plan query w = (Ok first, w)
    /\ ((forall p, In (query, p) pairs -> p = plan) -> first = plan).
Proof.
  intros Hkb Hin.
  destruct (first_plan_in query plan pairs Hin) as (first & Hfirst & Huniq).
  exists first. repeat split; [exact Hfirst | | exact Huniq].
  rewrite find_similar_plan_lookup, Hkb. unfold cache_of, loaded, lookup.
  assert (Hne : truthy (JList (map (fun e => kb_entry (fst e) (snd e)) pairs))
                = true).
  { destruct pairs; [destruct Hin | reflexivity]. }
  rewrite Hne. cbn [negb py_iter].
  rewrite stored_queries, stored_possibilities.
  rewrite DifflibExact.get_close_matches_exact
    by (apply (in_map fst _ _ Hin)).
  rewrite first_with_query_pairs, Hfirst. reflexivity.
Qed.

Lemma find_similar_plan_exact_query_witness :
  let build := JObj [("steps", JList [JStr "make"])] in
  let list_files := JObj [("steps", JList [JStr "ls -la"])] in
  let pairs := [("build the project", build);
                ("list the files", list_files);
                ("build the project now", JObj [("steps", JList [])])] in
  let w := Script.fresh (cache_of pairs) Absent [] in
  exists first,
    first_plan "list the files" pairs = Some first
    /\ find_similar_plan "list the files" w = (Ok first, w)
    /\ ((forall p, In ("list the files", p) pairs -> p = list_files)
        -> first = list_files).
Proof.
  intros build list_files pairs w.
  apply (find_similar_plan_exact_query pairs "list the files" list_files w).
  - reflexivity.
  - right. left. reflexivity.
Defined.

(** C6 as stated fails when a query was stored twice with different
    plans: both pairs are in the cache, and the lookup returns the plan
    stored first, not the second. *)
Lemma find_similar_plan_duplicate_counterexample :
  let first := JObj [("steps", JList [JStr "ls"])] in
  let second := JObj [("steps", JList [JStr "ls -la"])] in
  let w0 := Script.fresh Absent Absent [] in
  let w := snd (add_to_kb "ls" second (snd (add_to_kb "ls" first w0))) in
  kb_file w = cache_of [("ls", first); ("ls", second)]
  /\ fst (find_similar_plan "ls" w) = Ok first
  /\ fst (find_similar_plan "ls" w) <> Ok second.
Proof.
  vm_compute. repeat split. discriminate.
Qed.





(** * The rest of the program *)

(** ** Reading the request *)

(** [c.upper()] for a code point whose upper case is a single code point
    below 256.  Three characters of the range are left as they are: the
    upper case of the micro sign (181) and of y with diaeresis (255)
    lies above 255, and that of sharp s (223) is two letters; none of
    them gives a letter of [END], the one word the program compares an
    upper-cased line with. *)
Definition upper_char (c : ascii) : ascii :=
  let n := nat_of_ascii c in
  if (((97 <=? n) && (n <=? 122))
      || ((224 <=? n) && (n <=? 254) && negb (n =? 247)))%nat
  then ascii_of_nat (n - 32) else c.

(** [s.upper()]. *)
Fixpoint upper (s : string) : string :=
  match s with
  | EmptyString => EmptyString
  | String c r => String (upper_char c) (upper r)
  end.

(** [input()]: the next line of standard input, [EOFError] at its end. *)
Definition input : M string :=
  fun w => match stdin w with
           | [] => (Raise EOFError, after w [EvInput])
           | line :: rest =>
               (Ok line,
                {| kb_file := kb_file w; log_file := log_file w;
                   stdin := rest; trace := trace w ++ [EvInput] |})
           end.

(** The test that ends the multi-line request. *)
Definition is_end (line : string) : bool :=
  String.eqb (upper (strip line)) "END".

(** The [while True] loop of [get_multiline_input]: the lines collected
    (or [EOFError]), the lines not read, and the number of calls of
    [input]. *)
Fixpoint read_lines (lines : list string)
  : result (list string) * list string * nat :=
  match lines with
  | [] => (Raise EOFError, [], 1)
  | line :: rest =>
      if is_end line then (Ok [], rest, 1)
      else let '(r, unread, n) := read_lines rest in
           (match r with
            | Ok collected => Ok (line :: collected)
            | Raise e => Raise e
            end, unread, S n)
  end.

Definition get_multiline_input (prompt : string) : M string :=
  print prompt ;;;
  fun w => let '(r, unread, n) := read_lines (stdin w) in
           (match r with
            | Ok collected => Ok (String.concat newline collected)
            | Raise e => Raise e
            end,
            {| kb_file := kb_file w; log_file := log_file w;
               stdin := unread; trace := trace w ++ repeat EvInput n |}).

(** [not os.environ.get(key)] is false: the variable is set and not
    empty. *)
Definition env_set (value : option string) : bool :=
  match value with
  | Some s => negb (String.eqb s "")
  | None => false
  end.

Section Main.

Variable E : env.

(** The end of [main]: an empty request is not processed. *)
Definition submit (user_input : string) : M unit :=
  if negb (String.eqb user_input "") then process_request E user_input
  else print "No input provided".

(** [main], given the values of [GROQ_API_KEY] and [TAVILY_API_KEY] in
    the environment. *)
Definition main (groq_api_key tavily_api_key : option string) : M unit :=
  if negb (env_set groq_api_key) || negb (env_set tavily_api_key)
  then print "Missing API keys."
  else
    print "Choose input method:" ;;;
    print "1) Single line" ;;;
    print "2) Multi-line" ;;;
    line <- input ;;
    let choice := strip line in
    if String.eqb choice "1" then
      request <- input ;;
      submit (strip request)
    else if String.eqb choice "2" then
      user_input <-
        get_multiline_input "Enter request (type 'END' to finish):" ;;
      submit user_input
    else print "Invalid choice".

End Main.

(** * More properties *)

(** ** What a whole run leaves alone *)

(** An event that changes neither file nor standard input: every event
    but those of [log], [add_to_kb] and [input]. *)
Definition plain (e : event) : Prop :=
  match e with
  | CallLog _ _ | CallAddToKb _ _ | EvInput => False
  | _ => True
  end.

Section RunFrame.

Variable R : world -> world -> Prop.
Hypothesis R_refl : forall w, R w w.
Hypothesis R_trans : forall w1 w2 w3, R w1 w2 -> R w2 w3 -> R w1 w3.
Hypothesis R_plain : forall e, plain e -> allows R e.
Hypothesis R_log : forall stage data, preserves R (log stage data).
Hypothesis R_prompt : preserves R prompt_user.

Variable E : env.
Variable user_input : string.
Hypothesis R_add : forall plan, preserves R (add_to_kb user_input plan).

Ltac step :=
  first [ apply R_log
        | apply R_add
        | apply R_prompt
        | apply (preserves_ret R R_refl)
        | apply (preserves_lift R R_refl)
        | apply (preserves_raise R R_refl)
        | apply preserves_emit, R_plain; exact I
        | apply preserves_run, R_plain; exact I
        | apply (preserves_bind R R_trans); [|intros ?] ].

Lemma run_summary (execution_results : json) :
  preserves R (summary execution_results).
Proof. unfold summary, print. repeat step. Qed.

Lemma run_request_user_permission (plan analysis : json) :
  preserves R (request_user_permission plan analysis).
Proof.
  unfold request_user_permission. repeat step.
  destruct (eq_str _ "deny"); [step|].
  destruct (eq_str _ "approve"); step.
Qed.

Lemma run_execute_loop (plan steps : json) (total : nat)
  (cmds : list json) :
  forall idx results,
    preserves R
      (execute_loop E plan user_input steps total cmds idx results).
Proof.
  induction cmds as [|cmd rest IH]; intros idx results; simpl; [step|].
  repeat step.
  match goal with o : run_outcome |- _ => destruct o end; repeat step.
  apply IH.
Qed.

Lemma run_execute (plan : json) : preserves R (execute E plan user_input).
Proof. unfold execute. repeat step. apply run_execute_loop. Qed.

Lemma run_analyze : preserves R (analyze E user_input).
Proof.
  apply preserves_analyze; try assumption; intros; apply R_plain; exact I.
Qed.

Lemma run_create_plan (comprehension_data error_context : json) :
  preserves R (create_plan E user_input comprehension_data error_context).
Proof.
  apply preserves_create_plan; try assumption; intros; apply R_plain;
    exact I.
Qed.

Lemma run_analyze_plan (plan : json) : preserves R (analyze_plan E plan).
Proof.
  apply preserves_analyze_plan; try assumption; intros; apply R_plain;
    exact I.
Qed.

Lemma run_process_request : preserves R (process_request E user_input).
Proof.
  unfold process_request, print.
  step; [step|]. step; [apply run_analyze|].
  step; [step|]. step; [step|].
  step; [apply run_create_plan|].
  step; [step|]. step; [step|].
  destruct (negb (truthy _)); [step|].
  step; [step|]. step; [apply run_analyze_plan|].
  step; [step|]. step; [step|].
  assert (Hrun : forall plan,
             preserves R
               (emit (EvPrint (MsgText "Executing plan...")) ;;;
                execution <- execute E plan user_input ;;
                log "execution" execution ;;;
                summary execution ;;;
                ret tt)).
  { intros plan. step; [step|]. step; [apply run_execute|].
    step; [step|]. step; [apply run_summary|]. step. }
  destruct (truthy _); [|apply Hrun].
  step; [apply run_request_user_permission|].
  destruct (negb _); [step | apply Hrun].
Qed.

End RunFrame.

(** ** The cache only grows *)

(** The file [f] after the entries [more] were appended to it: as it was
    when there are none, else an array of what it held as an array (of
    nothing, if it was missing or not JSON) followed by [more]. *)
Definition grown (f : file) (more : list json) : file :=
  match more with
  | [] => f
  | _ => Holds (JList (kb_entries f ++ more))
  end.

Lemma grown_grown (f : file) (m1 m2 : list json) :
  grown (grown f m1) m2 = grown f (m1 ++ m2).
Proof.
  destruct m1 as [|x m1]; [reflexivity|].
  destruct m2 as [|y m2]; simpl.
  - now rewrite app_nil_r.
  - now rewrite <- app_assoc.
Qed.

(** The cache file grew by entries for [query], if it changed at all. *)
Definition cache_grows (query : string) (w w' : world) : Prop :=
  exists plans, kb_file w' = grown (kb_file w) (map (kb_entry query) plans).

Lemma cache_grows_refl (query : string) (w : world) : cache_grows query w w.
Proof. now exists []. Qed.

Lemma cache_grows_trans (query : string) (w1 w2 w3 : world) :
  cache_grows query w1 w2 -> cache_grows query w2 w3 ->
  cache_grows query w1 w3.
Proof.
  intros (p1 & H1) (p2 & H2). exists (p1 ++ p2).
  now rewrite H2, H1, grown_grown, map_app.
Qed.

Lemma log_keeps_kb (stage : string) (data : json) (w : world) :
  kb_file (snd (log stage data w)) = kb_file w.
Proof.
  unfold log, bind, emit, read_logs, lift, set_log_file. simpl.
  destruct (log_file w) as [| | |v]; try reflexivity.
  destruct v; reflexivity.
Qed.

Lemma prompt_user_keeps_files (w : world) :
  kb_file (snd (prompt_user w)) = kb_file w
  /\ log_file (snd (prompt_user w)) = log_file w.
Proof.
  unfold prompt_user. destruct (ask (stdin w)) as [[r unread] n].
  now split.
Qed.

(** Whether it returns or raises, [add_to_kb] leaves the file as it was
    or with the entry at the end, and touches nothing else but the
    trace. *)
Lemma add_to_kb_effect (query : string) (plan : json) (w : world) :
  let w' := snd (add_to_kb query plan w) in
  (kb_file w' = kb_file w
   \/ kb_file w' = grown (kb_file w) [kb_entry query plan])
  /\ log_file w' = log_file w /\ stdin w' = stdin w
  /\ trace w' = trace w ++ [CallAddToKb query plan].
Proof.
  unfold add_to_kb, bind, emit, load_kb, lift, save_kb, set_kb_file.
  simpl. destruct (kb_file w) as [| | |v]; simpl; try tauto.
  destruct v; simpl; tauto.
Qed.

(** X-cache. Whatever the collaborators answer and however the run
    ends, [process_request] never removes or rewrites an entry of the
    cache: the file is left as it was, or holds what it held followed by
    new entries, each of them for the request of this run. *)
Theorem process_request_cache_append_only
  (E : env) (user_input : string) (w : world) :
  exists plans,
    kb_file (snd (process_request E user_input w))
    = grown (kb_file w) (map (kb_entry user_input) plans)
    /\ (forall entries,
          kb_file w = Holds (JList entries) ->
          kb_file (snd (process_request E user_input w))
          = Holds (JList (entries ++ map (kb_entry user_input) plans))).
Proof.
  assert (H : cache_grows user_input w
                (snd (process_request E user_input w))).
  { apply run_process_request.
    - apply cache_grows_refl.
    - apply cache_grows_trans.
    - intros e _ w0. now exists [].
    - intros stage data w0. exists []. apply log_keeps_kb.
    - intros w0. exists []. apply prompt_user_keeps_files.
    - intros plan w0.
      destruct (add_to_kb_effect user_input plan w0) as ([Hk | Hk] & _).
      + now exists [].
      + now exists [plan]. }
  destruct H as (plans & Hplans). exists plans. split; [exact Hplans|].
  intros entries Hkb. rewrite Hplans, Hkb.
  destruct plans; simpl; [now rewrite app_nil_r | reflexivity].
Qed.

(** ** The audit log follows the calls of [log] *)

(** The records of the calls of [log] among the events [evs], in order. *)
Fixpoint logs_of (evs : list event) : list json :=
  match evs with
  | [] => []
  | CallLog stage data :: rest => audit_record stage data :: logs_of rest
  | _ :: rest => logs_of rest
  end.

Lemma logs_of_app (e1 e2 : list event) :
  logs_of (e1 ++ e2) = logs_of e1 ++ logs_of e2.
Proof.
  induction e1 as [|e r IH]; simpl; [reflexivity|].
  destruct e; simpl; now rewrite ?IH.
Qed.

Lemma logs_of_inputs (n : nat) : logs_of (repeat EvInput n) = [].
Proof. induction n; simpl; auto. Qed.

(** A log file [log] can write to: anything but JSON that is not an
    array. *)
Definition log_ok (f : file) : Prop :=
  match f with
  | Holds (JList _) => True
  | Holds _ => False
  | _ => True
  end.

Lemma log_ok_grown (f : file) (more : list json) :
  log_ok f -> log_ok (grown f more).
Proof. destruct more; simpl; tauto. Qed.

(** From a log file that can be written to: the trace grew by some
    events and the file by the records of the calls of [log] among
    them. *)
Definition audited (w w' : world) : Prop :=
  log_ok (log_file w) ->
  exists evs,
    trace w' = trace w ++ evs
    /\ log_file w' = grown (log_file w) (logs_of evs).

Lemma audited_refl (w : world) : audited w w.
Proof. intros _. exists []. now rewrite app_nil_r. Qed.

Lemma audited_trans (w1 w2 w3 : world) :
  audited w1 w2 -> audited w2 w3 -> audited w1 w3.
Proof.
  intros H12 H23 Hok.
  destruct (H12 Hok) as (e1 & Ht1 & Hl1).
  destruct H23 as (e2 & Ht2 & Hl2).
  { rewrite Hl1. now apply log_ok_grown. }
  exists (e1 ++ e2). split.
  - now rewrite Ht2, Ht1, app_assoc.
  - now rewrite Hl2, Hl1, grown_grown, logs_of_app.
Qed.

Lemma audited_plain (e : event) : plain e -> allows audited e.
Proof.
  intros He w _. exists [e]. split; [reflexivity|].
  destruct e; simpl in *; tauto.
Qed.

Lemma audited_log (stage : string) (data : json) :
  preserves audited (log stage data).
Proof.
  intros w Hok. exists [CallLog stage data].
  unfold log, bind, emit, read_logs, lift, set_log_file. simpl.
  destruct (log_file w) as [| | |v]; simpl; try (split; reflexivity).
  destruct v; simpl in *; try tauto; split; reflexivity.
Qed.

Lemma audited_prompt_user : preserves audited prompt_user.
Proof.
  intros w _. unfold prompt_user.
  destruct (ask (stdin w)) as [[r unread] n]. simpl.
  exists (repeat EvInput n). split; [reflexivity|].
  now rewrite logs_of_inputs.
Qed.

Lemma audited_add_to_kb (query : string) (plan : json) :
  preserves audited (add_to_kb query plan).
Proof.
  intros w _. exists [CallAddToKb query plan].
  destruct (add_to_kb_effect query plan w) as (_ & Hl & _ & Ht).
  split; [exact Ht | exact Hl].
Qed.

(** X-audit. From a log file that is missing, unreadable or a JSON
    array, and however the run ends, the file after [process_request]
    holds one record per call of [log] of the run, in the order of the
    calls, after the records it kept from before. *)
Theorem process_request_audit_trail
  (E : env) (user_input : string) (w : world) :
  log_ok (log_file w) ->
  exists evs,
    trace (snd (process_request E user_input w)) = trace w ++ evs
    /\ log_file (snd (process_request E user_input w))
       = grown (log_file w) (logs_of evs).
Proof.
  apply (run_process_request audited audited_refl audited_trans
           audited_plain audited_log audited_prompt_user E user_input
           (audited_add_to_kb user_input)).
Qed.

Lemma process_request_audit_trail_witness :
  let E := Script.scripted "NO_SEARCH_NEEDED" "{}" three_step_plan approval
             ["make install"] [] in
  let old := audit_record "comprehension" (JObj []) in
  let w := Script.fresh Absent (Holds (JList [old])) [] in
  exists evs,
    trace (snd (process_request E "install it" w)) = trace w ++ evs
    /\ log_file (snd (process_request E "install it" w))
       = grown (log_file w) (logs_of evs).
Proof.
  intros E old w.
  apply (process_request_audit_trail E "install it" w). exact I.
Defined.

(** ** The outcome of an execution *)

(** [r] is the success record of the command [c]. *)
Definition success_of (c r : json) : Prop :=
  exists out err, r = step_success c out err.

(** The commands run among the events [evs], in order. *)
Fixpoint runs_of (evs : list event) : list json :=
  match evs with
  | [] => []
  | EvRun cmd :: rest => cmd :: runs_of rest
  | _ :: rest => runs_of rest
  end.

Lemma runs_of_app (e1 e2 : list event) :
  runs_of (e1 ++ e2) = runs_of e1 ++ runs_of e2.
Proof.
  induction e1 as [|e r IH]; simpl; [reflexivity|].
  destruct e; simpl; now rewrite ?IH.
Qed.

Lemma grown_stored (w : world) (query : string) (plan : json) (n : nat) :
  grown (kb_file (stored w query plan)) (repeat (kb_entry query plan) n)
  = grown (kb_file w) (repeat (kb_entry query plan) (S n)).
Proof.
  change (kb_file (stored w query plan))
    with (grown (kb_file w) [kb_entry query plan]).
  now rewrite grown_grown.
Qed.

Section LoopShape.

Variable E : env.
Variables (plan : json) (user_query : string) (all : list json).

(** The loop from index [idx] on, over the steps [rest] still to run:
    when it returns, [j] more steps succeeded, each run once and stored
    once, and the loop either reached the end or stopped at step
    [idx + j]. *)
Lemma execute_loop_shape (total : nat) (rest : list json) :
  forall idx results w r w2,
    rest = skipn idx all ->
    execute_loop E plan user_query (JList all) total rest idx results w
    = (Ok r, w2) ->
    exists j more evs,
      j <= List.length rest
      /\ Forall2 success_of (firstn j rest) more
      /\ kb_file w2
         = grown (kb_file w) (repeat (kb_entry user_query plan) j)
      /\ trace w2 = trace w ++ evs
      /\ ((j = List.length rest
           /\ r = succeeded (results ++ more)
           /\ runs_of evs = rest)
          \/ exists cmd status error,
               nth_error rest j = Some cmd
               /\ (status = "failed"
                   \/ (status = "timeout" /\ error = "Timeout"))
               /\ r = stopped status (results ++ more)
                        (error_context_of cmd error
                           (JList (skipn (S (idx + j)) all)))
               /\ runs_of evs = firstn (S j) rest).
Proof.
  induction rest as [|cmd rest IH]; intros idx results w r w2 Hrest.
  - simpl. unfold ret. intros [= <- <-].
    exists 0, [], []. rewrite !app_nil_r.
    split; [simpl; lia|]. split; [constructor|].
    split; [reflexivity|]. split; [reflexivity|].
    left. repeat split.
  - cbn [execute_loop].
    rewrite (bind_ok _ _ _ _ _ (emit_after _ w)).
    rewrite (bind_ok _ _ _ _ _ (run_after E cmd _)).
    set (w1 := after (after w [EvPrint (MsgStep (idx + 1) total cmd)])
                 [EvRun cmd]).
    assert (Hnext : rest = skipn (S idx) all).
    { clear - Hrest. revert all Hrest.
      induction idx as [|idx IHi]; intros l H; destruct l as [|x l];
        simpl in *; try discriminate.
      - now injection H.
      - now apply IHi. }
    destruct (subprocess_run E _ cmd) as [out err|msg| |e].
    + unfold bind at 1.
      destruct (add_to_kb user_query plan w1) as [[u|e] wk] eqn:Hadd;
        [|discriminate].
      apply add_to_kb_ok in Hadd. subst wk. intros Hloop.
      destruct (IH _ _ _ _ _ Hnext Hloop)
        as (j & more & evs & Hj & Hmore & Hkb & Htr & Hend).
      exists (S j), (step_success cmd out err :: more),
        ([EvPrint (MsgStep (idx + 1) total cmd); EvRun cmd;
          CallAddToKb user_query plan] ++ evs).
      split; [simpl; lia|].
      split; [simpl; constructor; [now exists out, err | exact Hmore]|].
      split; [rewrite Hkb; exact (grown_stored w1 user_query plan j)|].
      split.
      { rewrite Htr. unfold stored, w1, after. simpl.
        now rewrite <- !app_assoc. }
      destruct Hend as [(Hlen & Hr & Hruns)
                         | (c & st & er & Hnth & Hst & Hr & Hruns)].
      * left. split; [simpl; now rewrite Hlen|].
        split; [now rewrite <- app_assoc in Hr|].
        simpl. now rewrite Hruns.
      * right. exists c, st, er.
        split; [exact Hnth|]. split; [exact Hst|]. split.
        -- rewrite <- app_assoc in Hr.
           now replace (idx + S j) with (S idx + j) by lia.
        -- simpl. now rewrite Hruns.
    + unfold bind, lift, slice_from, ret. intros [= <- <-].
      exists 0, [], [EvPrint (MsgStep (idx + 1) total cmd); EvRun cmd].
      split; [simpl; lia|]. split; [constructor|].
      split; [reflexivity|].
      split; [unfold w1; now rewrite after_after|].
      right. exists cmd, "failed", msg. rewrite app_nil_r.
      split; [reflexivity|]. split; [now left|].
      split; [|reflexivity].
      now rewrite Nat.add_0_r, Nat.add_1_r.
    + unfold bind, lift, slice_from, ret. intros [= <- <-].
      exists 0, [], [EvPrint (MsgStep (idx + 1) total cmd); EvRun cmd].
      split; [simpl; lia|]. split; [constructor|].
      split; [reflexivity|].
      split; [unfold w1; now rewrite after_after|].
      right. exists cmd, "timeout", "Timeout". rewrite app_nil_r.
      split; [reflexivity|]. split; [now right|].
      split; [|reflexivity].
      now rewrite Nat.add_0_r, Nat.add_1_r.
    + discriminate.
Qed.

End LoopShape.

(** X-shape. Whatever the commands do, an outcome that [execute]
    returns for a plan with a list of steps accounts for every step: the
    first [k] steps succeeded, were each run once and in order, have
    their success records in [results] and put [k] entries in the cache;
    then either all steps are done and the status is success, or step
    [k] failed or timed out, is named by the error context with the
    steps after it as remaining steps, and no later step was run. *)
Theorem execute_accounts_for_every_step
  (E : env) (kv : list (string * json)) (cmds : list json)
  (user_query : string) (w w2 : world) (outcome : json) :
  assoc "steps" kv = Some (JList cmds) ->
  execute E (JObj kv) user_query w = (Ok outcome, w2) ->
  exists k results evs,
    Forall2 success_of (firstn k cmds) results
    /\ kb_file w2
       = grown (kb_file w) (repeat (kb_entry user_query (JObj kv)) k)
    /\ trace w2 = trace w ++ evs
    /\ ((k = List.length cmds
         /\ outcome = JObj [("status", JStr "success");
                            ("results", JList results)]
         /\ runs_of evs = cmds)
        \/ exists cmd status error,
             cmds = firstn k cmds ++ cmd :: skipn (S k) cmds
             /\ (status = "failed"
                 \/ (status = "timeout" /\ error = "Timeout"))
             /\ outcome
                = JObj [("status", JStr status);
                        ("results", JList results);
                        ("error_context",
                         JObj [("command", cmd); ("error", JStr error);
                               ("remaining_steps",
                                JList (skipn (S k) cmds))])]
             /\ runs_of evs = firstn k cmds ++ [cmd]).
Proof.
  intros Hsteps Hexec.
  rewrite (execute_enters_loop E kv cmds user_query w Hsteps) in Hexec.
  destruct (execute_loop_shape E (JObj kv) user_query cmds _ cmds 0 []
              _ _ _ eq_refl Hexec)
    as (j & more & evs & Hj & Hmore & Hkb & Htr & Hend).
  exists j, more, (CallExecute (JObj kv) user_query :: evs).
  split; [exact Hmore|]. split; [exact Hkb|]. split.
  { rewrite Htr. unfold after. simpl. now rewrite <- app_assoc. }
  destruct Hend as [(Hlen & Hr & Hruns)
                   | (c & st & er & Hnth & Hst & Hr & Hruns)].
  - left. repeat split; assumption.
  - right. exists c, st, er.
    assert (Hsplit : cmds = firstn j cmds ++ c :: skipn (S j) cmds
                     /\ firstn (S j) cmds = firstn j cmds ++ [c]).
    { clear - Hnth. revert cmds Hnth.
      induction j as [|j IHj]; intros l H; destruct l as [|x l];
        simpl in *; try discriminate.
      - injection H as ->. now split.
      - destruct (IHj l H) as [H1 H2]. split; f_equal; assumption. }
    destruct Hsplit as [Hsplit Hfirst].
    split; [exact Hsplit|]. split; [exact Hst|]. split; [exact Hr|].
    simpl runs_of. rewrite Hruns. exact Hfirst.
Qed.

Lemma execute_accounts_for_every_step_witness :
  let E := Script.scripted "" "" "" "" [] ["make install"] in
  let kv := [("steps", JList [JStr "make"; JStr "make install";
                              JStr "make clean"])] in
  let w := Script.fresh Malformed Absent [] in
  let outcome :=
    stopped "timeout" [step_success (JStr "make") "" ""]
      (error_context_of (JStr "make install") "Timeout"
         (JList [JStr "make clean"])) in
  let w2 := snd (execute E (JObj kv) "install it" w) in
  exists k results evs,
    Forall2 success_of
      (firstn k [JStr "make"; JStr "make install"; JStr "make clean"])
      results
    /\ kb_file w2
       = grown (kb_file w) (repeat (kb_entry "install it" (JObj kv)) k)
    /\ trace w2 = trace w ++ evs
    /\ ((k = 3
         /\ outcome = JObj [("status", JStr "success");
                            ("results", JList results)]
         /\ runs_of evs
            = [JStr "make"; JStr "make install"; JStr "make clean"])
        \/ exists cmd status error,
             [JStr "make"; JStr "make install"; JStr "make clean"]
             = firstn k [JStr "make"; JStr "make install";
                         JStr "make clean"]
               ++ cmd :: skipn (S k) [JStr "make"; JStr "make install";
                                      JStr "make clean"]
             /\ (status = "failed"
                 \/ (status = "timeout" /\ error = "Timeout"))
             /\ outcome
                = JObj [("status", JStr status);
                        ("results", JList results);
                        ("error_context",
                         JObj [("command", cmd); ("error", JStr error);
                               ("remaining_steps",
                                JList (skipn (S k)
                                         [JStr "make"; JStr "make install";
                                          JStr "make clean"]))])]
             /\ runs_of evs
                = firstn k [JStr "make"; JStr "make install";
                            JStr "make clean"] ++ [cmd]).
Proof.
  intros E kv w outcome w2.
  apply (execute_accounts_for_every_step E kv
           [JStr "make"; JStr "make install"; JStr "make clean"]
           "install it" w w2 outcome).
  - reflexivity.
  - reflexivity.
Defined.

(** ** When [execute] returns *)

Lemma execute_loop_returns (E : env) (plan : json) (user_query : string)
  (all : list json) (total : nat) (cmds : list json) :
  (forall tr c e, In c cmds -> subprocess_run E tr c <> RunError e) ->
  forall idx results w,
    appendable (kb_file w) ->
    exists outcome w2,
      execute_loop E plan user_query (JList all) total cmds idx results w
      = (Ok outcome, w2).
Proof.
  induction cmds as [|cmd rest IH]; intros Hrun idx results w Hkb.
  - simpl. unfold ret. eauto.
  - destruct (subprocess_run E
                (trace w ++ [EvPrint (MsgStep (idx + 1) total cmd)]) cmd)
      as [out err|msg| |e] eqn:Ho.
    + rewrite (execute_loop_completed E plan user_query (JList all) total
                 cmd rest idx results out err w Ho Hkb).
      apply IH; [|apply stored_appendable].
      intros tr c e Hc. apply Hrun. now right.
    + rewrite (execute_loop_failed E plan user_query (JList all) total
                 cmd rest idx results msg _ w Ho eq_refl).
      eauto.
    + cbn [execute_loop].
      rewrite (bind_ok _ _ _ _ _ (emit_after _ w)).
      rewrite (bind_ok _ _ _ _ _ (run_after E cmd _)).
      cbn [trace after]. rewrite Ho.
      unfold bind, lift, slice_from, ret. eauto.
    + exfalso. exact (Hrun _ _ _ (or_introl eq_refl) Ho).
Qed.

(** X-returns. [execute] returns an outcome, and raises nothing, for
    every plan whose steps are a list, as long as the cache file can
    take a new entry and running a step of the plan raises nothing but
    [CalledProcessError] and [TimeoutExpired]. *)
Theorem execute_returns
  (E : env) (kv : list (string * json)) (cmds : list json)
  (user_query : string) (w : world) :
  assoc "steps" kv = Some (JList cmds) ->
  appendable (kb_file w) ->
  (forall tr c e, In c cmds -> subprocess_run E tr c <> RunError e) ->
  exists outcome w2,
    execute E (JObj kv) user_query w = (Ok outcome, w2).
Proof.
  intros Hsteps Hkb Hrun.
  rewrite (execute_enters_loop E kv cmds user_query w Hsteps).
  now apply execute_loop_returns.
Qed.

(** A runner for which every command succeeds. *)
Definition obliging : env :=
  {| llm_invoke := fun _ _ => Ok "";
     search_run := fun _ _ => Found "";
     subprocess_run := fun _ _ => Completed "" "";
     json_loads := Script.loads |}.

Lemma execute_returns_witness :
  let E := Script.scripted "" "" "" "" ["false"] [] in
  let kv := [("steps", JList [JStr "true"; JStr "false"; JStr "true"])] in
  exists outcome w2,
    execute E (JObj kv) "try it" (Script.fresh Absent Absent [])
    = (Ok outcome, w2).
Proof.
  intros E kv.
  apply (execute_returns E kv [JStr "true"; JStr "false"; JStr "true"]
           "try it" (Script.fresh Absent Absent [])).
  - reflexivity.
  - left. reflexivity.
  - intros tr c e [<- | [<- | [<- | []]]]; discriminate.
Defined.

(** ** The summary of an execution *)

Definition success_record (r : json) : Prop :=
  exists c out err, r = step_success c out err.

Lemma execute_loop_form (E : env) (plan : json) (user_query : string)
  (steps : json) (total : nat) (cmds : list json) :
  forall idx results w outcome w2,
    execute_loop E plan user_query steps total cmds idx results w
    = (Ok outcome, w2) ->
    exists more,
      Forall success_record more
      /\ (outcome = succeeded (results ++ more)
          \/ exists status error_context,
               outcome = stopped status (results ++ more) error_context).
Proof.
  induction cmds as [|cmd rest IH]; intros idx results w outcome w2.
  - simpl. unfold ret. intros [= <- <-]. exists [].
    rewrite app_nil_r. split; [constructor | now left].
  - cbn [execute_loop].
    rewrite (bind_ok _ _ _ _ _ (emit_after _ w)).
    rewrite (bind_ok _ _ _ _ _ (run_after E cmd _)).
    destruct (subprocess_run E _ cmd) as [out err|msg| |e].
    + unfold bind at 1.
      destruct (add_to_kb user_query plan _) as [[u|e] wk]; [|discriminate].
      intros Hloop. destruct (IH _ _ _ _ _ Hloop) as (more & Hm & Ho).
      exists (step_success cmd out err :: more). split.
      * constructor; [now exists cmd, out, err | exact Hm].
      * now rewrite <- app_assoc in Ho.
    + unfold bind, lift. destruct (slice_from steps (idx + 1));
        [|discriminate].
      unfold ret. intros [= <- <-]. exists []. rewrite app_nil_r.
      split; [constructor | right; eauto].
    + unfold bind, lift. destruct (slice_from steps (idx + 1));
        [|discriminate].
      unfold ret. intros [= <- <-]. exists []. rewrite app_nil_r.
      split; [constructor | right; eauto].
    + discriminate.
Qed.

Lemma statuses_of_successes (results : list json) :
  Forall success_record results ->
  map_result (fun r => subscript r "status") results
  = Ok (map (fun _ => JStr "success") results).
Proof.
  induction 1 as [|r rs (c & out & err & ->) _ IH]; simpl; [reflexivity|].
  simpl in IH. now rewrite IH.
Qed.

Lemma count_true_all (l : list json) :
  count_true (map (fun s => eq_str s "success")
                (map (fun _ => JStr "success") l))
  = Z.of_nat (List.length l)
  /\ count_true (map negb (map (fun s => eq_str s "success")
                             (map (fun _ => JStr "success") l)))
     = 0%Z.
Proof.
  unfold count_true. induction l as [|x l [IH1 IH2]]; simpl; [now split|].
  split.
  - simpl in IH1. lia.
  - exact IH2.
Qed.

(** X-summary. For every outcome [execute] returns, the summary counts
    the results as successes and reports zero for [total_commands],
    [executed_commands] and [failed_count], whether the execution
    succeeded, failed or timed out: the outcome has no such keys, and a
    step that fails leaves no record in [results]. *)
Theorem summary_counts_successes_only
  (E : env) (plan : json) (user_query : string) (w w2 w3 : world)
  (outcome : json) :
  execute E plan user_query w = (Ok outcome, w2) ->
  exists results error_context,
    dict_get outcome "results" = Ok (Some (JList results))
    /\ dict_get_default outcome "error_context" JNull = Ok error_context
    /\ fst (summary outcome w3)
       = Ok (JObj [("total_commands", JInt 0);
                   ("executed_commands", JInt 0);
                   ("success_count", JInt (Z.of_nat (List.length results)));
                   ("failed_count", JInt 0);
                   ("error_context", error_context)]).
Proof.
  unfold execute.
  rewrite (bind_ok _ _ _ _ _ (emit_after _ w)).
  unfold bind at 1, lift at 1.
  destruct (dict_get_default plan "steps" (JList [])) as [steps|e];
    [|discriminate].
  unfold bind at 1, lift at 1.
  destruct (py_iter steps) as [cmds|e]; [|discriminate].
  intros Hloop.
  destruct (execute_loop_form _ _ _ _ _ _ _ _ _ _ _ Hloop)
    as (results & Hres & Hform).
  simpl in Hform.
  destruct (count_true_all results) as [Hs Hf].
  destruct Hform as [-> | (status & ec & ->)].
  - exists results, JNull. repeat split.
    unfold summary, bind, emit, lift, print, ret. simpl.
    rewrite (statuses_of_successes results Hres). simpl.
    now rewrite Hs, Hf.
  - exists results, ec. repeat split.
    unfold summary, bind, emit, lift, print, ret. simpl.
    rewrite (statuses_of_successes results Hres). simpl.
    now rewrite Hs, Hf.
Qed.

Lemma summary_counts_successes_only_witness :
  let E := Script.scripted "" "" "" "" ["make install"] [] in
  let plan := JObj [("steps", JList [JStr "make"; JStr "make install"])] in
  let w := Script.fresh Absent Absent [] in
  let outcome :=
    stopped "failed" [step_success (JStr "make") "" ""]
      (error_context_of (JStr "make install")
         "Command 'make install' returned non-zero exit status 1."
         (JList [])) in
  exists results error_context,
    dict_get outcome "results" = Ok (Some (JList results))
    /\ dict_get_default outcome "error_context" JNull = Ok error_context
    /\ fst (summary outcome w)
       = Ok (JObj [("total_commands", JInt 0);
                   ("executed_commands", JInt 0);
                   ("success_count", JInt (Z.of_nat (List.length results)));
                   ("failed_count", JInt 0);
                   ("error_context", error_context)]).
Proof.
  intros E plan w outcome.
  apply (summary_counts_successes_only E plan "install it" w
           (snd (execute E plan "install it" w)) w outcome).
  reflexivity.
Defined.

(** ** The stages of a run *)

(** The gate as [process_request] applies it to an assessment: the
    assessment is logged, and the answer is true without asking when no
    permission is required. *)
Definition permission (plan analysis : json) : M bool :=
  log "plan_analysis" analysis ;;;
  requires_permission <-
    lift (dict_get_default analysis "requires_permission" (JBool true)) ;;
  if truthy requires_permission
  then request_user_permission plan analysis
  else ret true.

(** The end of [process_request]: execution, its log record and the
    summary. *)
Definition run_plan (E : env) (user_input : string) (plan : json)
  : M unit :=
  print "Executing plan..." ;;;
  execution <- execute E plan user_input ;;
  log "execution" execution ;;;
  summary execution ;;;
  ret tt.

(** [process_request] stage by stage. *)
Lemma process_request_stages (E : env) (user_input : string) (w : world) :
  process_request E user_input w
  = (plan <- planning E user_input ;;
     log "plan_creation" plan ;;;
     steps <- lift (dict_get_default plan "steps" JNull) ;;
     if negb (truthy steps) then print "No plan could be created."
     else
       print "Examining plan for risks..." ;;;
       analysis <- analyze_plan E plan ;;
       granted <- permission plan analysis ;;
       if negb granted then print "Execution cancelled by user."
       else run_plan E user_input plan) w.
Proof.
  unfold process_request, planning, permission, run_plan, bind.
  destruct (print "Analyzing request..." w) as [[[]|e] w0]; [|reflexivity].
  destruct (analyze E user_input w0) as [[c|e] w1]; [|reflexivity].
  destruct (log "comprehension" c w1) as [[[]|e] w2]; [|reflexivity].
  destruct (print "Generating plan..." w2) as [[[]|e] w3]; [|reflexivity].
  destruct (create_plan E user_input c JNull w3) as [[plan|e] w4];
    [|reflexivity].
  destruct (log "plan_creation" plan w4) as [[[]|e] w5]; [|reflexivity].
  unfold lift.
  destruct (dict_get_default plan "steps" JNull) as [steps|e];
    [|reflexivity].
  destruct (negb (truthy steps)); [reflexivity|].
  destruct (print "Examining plan for risks..." w5) as [[[]|e] w6];
    [|reflexivity].
  destruct (analyze_plan E plan w6) as [[analysis|e] w7]; [|reflexivity].
  destruct (log "plan_analysis" analysis w7) as [[[]|e] w8]; [|reflexivity].
  destruct (dict_get_default analysis "requires_permission" (JBool true))
    as [rp|e]; [|reflexivity].
  destruct (truthy rp); [|reflexivity].
  destruct (request_user_permission plan analysis w8) as [[g|e] w9];
    reflexivity.
Qed.

(** ** Commands are run only after approval *)

(** An event of the execution stage. *)
Definition execution_event (e : event) : Prop :=
  match e with
  | CallExecute _ _ | EvRun _ | CallAddToKb _ _ => True
  | _ => False
  end.

(** No event of the execution stage between the two worlds. *)
Definition quiet : world -> world -> Prop :=
  extends (fun e => ~ execution_event e).

Lemma quiet_trans (w1 w2 w3 : world) :
  quiet w1 w2 -> quiet w2 w3 -> quiet w1 w3.
Proof. apply extends_trans. Qed.

Lemma quiet_planning (E : env) (user_input : string) :
  preserves quiet (planning E user_input).
Proof.
  intros w. pose proof (planning_upstream E user_input w) as H.
  revert H. apply extends_weaken. intros [] H; simpl in *; tauto.
Qed.

Lemma quiet_log (stage : string) (data : json) :
  preserves quiet (log stage data).
Proof. apply extends_log. simpl. tauto. Qed.

Lemma quiet_print (s : string) : preserves quiet (print s).
Proof. apply extends_emit. simpl. tauto. Qed.

Lemma quiet_analyze_plan (E : env) (plan : json) :
  preserves quiet (analyze_plan E plan).
Proof. apply extends_analyze_plan; try (intros ?); simpl; tauto. Qed.

Lemma quiet_permission (plan analysis : json) :
  preserves quiet (permission plan analysis).
Proof.
  unfold permission.
  apply extends_bind; [apply quiet_log | intros _].
  apply extends_bind; [apply extends_lift | intros rp].
  destruct (truthy rp); [|apply extends_ret].
  apply extends_request_user_permission; simpl; tauto.
Qed.

(** A run either got the gate's approval for an examined plan, or has no
    event of the execution stage. *)
Lemma process_request_approved_or_quiet
  (E : env) (user_input : string) (w : world) :
  (exists plan w1 analysis w2 w3,
      planning E user_input w = (Ok plan, w1)
      /\ examining E plan w1 = (Ok analysis, w2)
      /\ permission plan analysis w2 = (Ok true, w3))
  \/ quiet w (snd (process_request E user_input w)).
Proof.
  rewrite process_request_stages. unfold bind at 1.
  pose proof (quiet_planning E user_input w) as Q1.
  destruct (planning E user_input w) as [[plan|e] w1] eqn:Hp;
    [|right; exact Q1].
  simpl in Q1. unfold bind at 1.
  pose proof (quiet_log "plan_creation" plan w1) as Q2.
  destruct (log "plan_creation" plan w1) as [[[]|e] w2] eqn:Hl;
    [|right; exact (quiet_trans _ _ _ Q1 Q2)].
  simpl in Q2. pose proof (quiet_trans _ _ _ Q1 Q2) as Q12.
  unfold bind at 1, lift at 1.
  destruct (dict_get_default plan "steps" JNull) as [steps|e];
    [|right; exact Q12].
  destruct (negb (truthy steps)).
  { right. exact (quiet_trans _ _ _ Q12 (quiet_print _ w2)). }
  unfold bind at 1.
  pose proof (quiet_print "Examining plan for risks..." w2) as Q3.
  destruct (print "Examining plan for risks..." w2) as [[[]|e] w3] eqn:Hx;
    [|right; exact (quiet_trans _ _ _ Q12 Q3)].
  simpl in Q3. pose proof (quiet_trans _ _ _ Q12 Q3) as Q13.
  unfold bind at 1.
  pose proof (quiet_analyze_plan E plan w3) as Q4.
  destruct (analyze_plan E plan w3) as [[analysis|e] w4] eqn:Ha;
    [|right; exact (quiet_trans _ _ _ Q13 Q4)].
  simpl in Q4. pose proof (quiet_trans _ _ _ Q13 Q4) as Q14.
  unfold bind at 1.
  pose proof (quiet_permission plan analysis w4) as Q5.
  destruct (permission plan analysis w4) as [[[|]|e] w5] eqn:Hg.
  - left. exists plan, w1, analysis, w4, w5. repeat split; try assumption.
    unfold examining, bind. now rewrite Hl, Hx, Ha.
  - right. simpl in Q5.
    exact (quiet_trans _ _ _ (quiet_trans _ _ _ Q14 Q5) (quiet_print _ w5)).
  - right. exact (quiet_trans _ _ _ Q14 Q5).
Qed.

(** X-safety. In every run of [process_request], whatever the
    collaborators answer: if [execute] is called, a command is run or a
    plan is stored in the cache, then planning returned a plan, the
    examination stage returned an assessment of that plan, and the gate
    returned true for it (by the human's yes, by an [approve]
    recommendation, or because the assessment requires no permission). *)
Theorem commands_run_only_after_approval
  (E : env) (user_input : string) (w : world) (evs : list event)
  (e : event) :
  trace (snd (process_request E user_input w)) = trace w ++ evs ->
  In e evs -> execution_event e ->
  exists plan w1 analysis w2 w3,
    planning E user_input w = (Ok plan, w1)
    /\ examining E plan w1 = (Ok analysis, w2)
    /\ permission plan analysis w2 = (Ok true, w3).
Proof.
  intros Htrace Hin Hexec.
  destruct (process_request_approved_or_quiet E user_input w)
    as [H | (evs' & Htr & Hq)]; [exact H|].
  exfalso. rewrite Htrace in Htr. apply app_inv_head in Htr. subst evs'.
  rewrite Forall_forall in Hq. exact (Hq e Hin Hexec).
Qed.

Lemma commands_run_only_after_approval_witness :
  let E := Script.scripted "NO_SEARCH_NEEDED" "{}" three_step_plan approval
             [] [] in
  let w := Script.fresh Absent Absent [] in
  exists plan w1 analysis w2 w3,
    planning E "install it" w = (Ok plan, w1)
    /\ examining E plan w1 = (Ok analysis, w2)
    /\ permission plan analysis w2 = (Ok true, w3).
Proof.
  intros E w.
  apply (commands_run_only_after_approval E "install it" w
           (skipn 0 (trace (snd (process_request E "install it" w))))
           (EvRun (JStr "make"))).
  - reflexivity.
  - vm_compute. repeat (first [left; reflexivity | right]).
  - exact I.
Defined.

(** ** Cancelled runs *)

(** The cache file is left as it was. *)
Definition same_kb (w w' : world) : Prop := kb_file w' = kb_file w.

Lemma same_kb_refl (w : world) : same_kb w w.
Proof. reflexivity. Qed.

Lemma same_kb_trans (w1 w2 w3 : world) :
  same_kb w1 w2 -> same_kb w2 w3 -> same_kb w1 w3.
Proof. unfold same_kb. congruence. Qed.

Lemma same_kb_allows (e : event) : allows same_kb e.
Proof. intros w. reflexivity. Qed.

Lemma same_kb_log (stage : string) (data : json) :
  preserves same_kb (log stage data).
Proof. intros w. apply log_keeps_kb. Qed.

Lemma same_kb_request_user_permission (plan analysis : json) :
  preserves same_kb (request_user_permission plan analysis).
Proof.
  unfold request_user_permission.
  apply (preserves_bind _ same_kb_trans);
    [apply preserves_emit, same_kb_allows | intros _].
  apply (preserves_bind _ same_kb_trans);
    [apply (preserves_lift _ same_kb_refl) | intros r].
  destruct (eq_str r "deny"); [apply (preserves_ret _ same_kb_refl)|].
  destruct (eq_str r "approve"); [apply (preserves_ret _ same_kb_refl)|].
  intros w. apply prompt_user_keeps_files.
Qed.

Lemma same_kb_planning (E : env) (user_input : string) :
  preserves same_kb (planning E user_input).
Proof.
  unfold planning, print.
  apply (preserves_bind _ same_kb_trans);
    [apply preserves_emit, same_kb_allows | intros _].
  apply (preserves_bind _ same_kb_trans).
  { apply (preserves_analyze _ same_kb_refl same_kb_trans);
      intros; apply same_kb_allows. }
  intros c.
  apply (preserves_bind _ same_kb_trans); [apply same_kb_log | intros _].
  apply (preserves_bind _ same_kb_trans);
    [apply preserves_emit, same_kb_allows | intros _].
  apply (preserves_create_plan _ same_kb_refl same_kb_trans);
    intros; apply same_kb_allows.
Qed.

Lemma same_kb_examining (E : env) (plan : json) :
  preserves same_kb (examining E plan).
Proof.
  unfold examining, print.
  apply (preserves_bind _ same_kb_trans); [apply same_kb_log | intros _].
  apply (preserves_bind _ same_kb_trans);
    [apply preserves_emit, same_kb_allows | intros _].
  apply (preserves_analyze_plan _ same_kb_refl same_kb_trans);
    intros; apply same_kb_allows.
Qed.

Lemma same_kb_permission (plan analysis : json) :
  preserves same_kb (permission plan analysis).
Proof.
  unfold permission.
  apply (preserves_bind _ same_kb_trans); [apply same_kb_log | intros _].
  apply (preserves_bind _ same_kb_trans);
    [apply (preserves_lift _ same_kb_refl) | intros rp].
  destruct (truthy rp);
    [apply same_kb_request_user_permission
    | apply (preserves_ret _ same_kb_refl)].
Qed.

Lemma quiet_examining (E : env) (plan : json) :
  preserves quiet (examining E plan).
Proof.
  unfold examining.
  apply extends_bind; [apply quiet_log | intros _].
  apply extends_bind; [apply quiet_print | intros _].
  apply quiet_analyze_plan.
Qed.

(** [process_request] from the assessment on, for a plan with steps. *)
Lemma process_request_from_assessment
  (E : env) (user_input : string) (w w1 w2 : world)
  (plan steps analysis : json) :
  planning E user_input w = (Ok plan, w1) ->
  dict_get_default plan "steps" JNull = Ok steps ->
  truthy steps = true ->
  examining E plan w1 = (Ok analysis, w2) ->
  process_request E user_input w
  = (granted <- permission plan analysis ;;
     if negb granted then print "Execution cancelled by user."
     else run_plan E user_input plan) w2.
Proof.
  intros Hplan Hsteps Htruthy Hexam.
  rewrite process_request_stages, (bind_ok _ _ _ _ _ Hplan).
  unfold examining, bind in Hexam. unfold bind at 1.
  destruct (log "plan_creation" plan w1) as [[[]|e] wl]; [|discriminate].
  unfold bind at 1, lift. rewrite Hsteps, Htruthy. cbn [negb].
  unfold bind at 1.
  destruct (print "Examining plan for risks..." wl) as [[[]|e] wp];
    [|discriminate].
  unfold bind at 1. now rewrite Hexam.
Qed.

(** X-cancel. When the gate returns false for the assessment of a plan
    with steps (the recommendation is [deny], or the human answers no),
    [process_request] prints the cancellation and returns: [execute] was
    not called, no command was run, and the cache file is as it was
    before the run. *)
Theorem process_request_cancelled
  (E : env) (user_input : string) (w w1 w2 w3 : world)
  (plan steps analysis : json) :
  planning E user_input w = (Ok plan, w1) ->
  dict_get_default plan "steps" JNull = Ok steps ->
  truthy steps = true ->
  examining E plan w1 = (Ok analysis, w2) ->
  permission plan analysis w2 = (Ok false, w3) ->
  process_request E user_input w
  = (Ok tt, after w3 [EvPrint (MsgText "Execution cancelled by user.")])
  /\ kb_file w3 = kb_file w
  /\ quiet w w3.
Proof.
  intros Hplan Hsteps Htruthy Hexam Hgate.
  pose proof (same_kb_planning E user_input w) as K1.
  pose proof (same_kb_examining E plan w1) as K2.
  pose proof (same_kb_permission plan analysis w2) as K3.
  pose proof (quiet_planning E user_input w) as Q1.
  pose proof (quiet_examining E plan w1) as Q2.
  pose proof (quiet_permission plan analysis w2) as Q3.
  rewrite Hplan in K1, Q1. rewrite Hexam in K2, Q2.
  rewrite Hgate in K3, Q3. simpl in *.
  repeat split.
  - rewrite (process_request_from_assessment E user_input w w1 w2 plan
               steps analysis Hplan Hsteps Htruthy Hexam).
    now rewrite (bind_ok _ _ _ _ _ Hgate).
  - unfold same_kb in *. congruence.
  - exact (quiet_trans _ _ _ (quiet_trans _ _ _ Q1 Q2) Q3).
Qed.

Definition denial : string :=
  ("{" ++ Script.quoted "requires_permission" ++ ": true, "
   ++ Script.quoted "recommendation" ++ ": " ++ Script.quoted "deny"
   ++ "}")%string.

Lemma process_request_cancelled_witness :
  let E := Script.scripted "NO_SEARCH_NEEDED" "{}" three_step_plan denial
             [] [] in
  let w := Script.fresh Absent Absent [] in
  let plan := JObj [("steps", JList [JStr "make"; JStr "make install";
                                     JStr "make clean"])] in
  let analysis := JObj [("requires_permission", JBool true);
                        ("recommendation", JStr "deny")] in
  let w1 := snd (planning E "install it" w) in
  let w2 := snd (examining E plan w1) in
  let w3 := snd (permission plan analysis w2) in
  process_request E "install it" w
  = (Ok tt, after w3 [EvPrint (MsgText "Execution cancelled by user.")])
  /\ kb_file w3 = kb_file w
  /\ quiet w w3.
Proof.
  intros E w plan analysis w1 w2 w3.
  apply (process_request_cancelled E "install it" w w1 w2 w3 plan
           (JList [JStr "make"; JStr "make install"; JStr "make clean"])
           analysis); reflexivity.
Defined.

(** ** The gate at the end of input *)

(** X-eof. When the recommendation is neither [deny] nor [approve] and
    standard input ends without a line that is a yes or a no, the gate
    reads every line and raises [EOFError]: it never answers by
    default. *)
Theorem request_user_permission_end_of_input
  (plan : json) (kv : list (string * json)) (recommendation : json)
  (w : world) :
  assoc "recommendation" kv = Some recommendation ->
  eq_str recommendation "deny" = false ->
  eq_str recommendation "approve" = false ->
  Forall (fun l => answer l = None) (stdin w) ->
  request_user_permission plan (JObj kv) w
  = (Raise EOFError,
     {| kb_file := kb_file w; log_file := log_file w; stdin := [];
        trace := trace w
                 ++ CallRequestUserPermission plan (JObj kv)
                    :: repeat EvInput (S (List.length (stdin w))) |}).
Proof.
  intros Hrec Hd Ha Hlines.
  unfold request_user_permission, bind, emit, lift, subscript.
  rewrite Hrec, Hd, Ha. unfold prompt_user. simpl.
  assert (Hask : ask (stdin w)
                 = (Raise EOFError, [], S (List.length (stdin w)))).
  { induction Hlines as [|l ls Hl _ IH]; simpl; [reflexivity|].
    unfold answer in Hl.
    destruct (is_yes (lower (strip l))); [discriminate|].
    destruct (is_no (lower (strip l))); [discriminate|].
    now rewrite IH. }
  rewrite Hask. simpl. now rewrite <- app_assoc.
Qed.

Lemma request_user_permission_end_of_input_witness :
  let plan := JObj [("steps", JList [JStr "reboot"])] in
  let kv := [("recommendation", JStr "request_permission")] in
  request_user_permission plan (JObj kv)
    (Script.fresh Absent Absent ["maybe"; "later"])
  = (Raise EOFError,
     {| kb_file := Absent; log_file := Absent; stdin := [];
        trace := [CallRequestUserPermission plan (JObj kv);
                  EvInput; EvInput; EvInput] |}).
Proof.
  intros plan kv.
  apply (request_user_permission_end_of_input plan kv
           (JStr "request_permission")
           (Script.fresh Absent Absent ["maybe"; "later"])).
  - reflexivity.
  - reflexivity.
  - reflexivity.
  - repeat constructor.
Defined.

(** ** An assessment that cannot be parsed *)

Lemma log_effect (stage : string) (data : json) (w : world) :
  stdin (snd (log stage data w)) = stdin w
  /\ trace (snd (log stage data w)) = trace w ++ [CallLog stage data].
Proof.
  unfold log, bind, emit, read_logs, lift, set_log_file. simpl.
  destruct (log_file w) as [| | |v]; try (split; reflexivity).
  destruct v; split; reflexivity.
Qed.

(** The answer the loop returns is the first answer of the input. *)
Lemma ask_answer (lines : list string) :
  forall b rest n,
    ask lines = (Ok b, rest, n) ->
    exists skipped line,
      lines = skipped ++ line :: rest
      /\ Forall (fun l => answer l = None) skipped
      /\ answer line = Some b.
Proof.
  induction lines as [|l ls IH]; intros b rest n; simpl; [discriminate|].
  destruct (is_yes (lower (strip l))) eqn:Hy.
  - intros [= <- <- <-]. exists [], l. repeat split; [constructor|].
    unfold answer. now rewrite Hy.
  - destruct (is_no (lower (strip l))) eqn:Hn.
    + intros [= <- <- <-]. exists [], l. repeat split; [constructor|].
      unfold answer. now rewrite Hy, Hn.
    + destruct (ask ls) as [[r unread] m] eqn:Hask.
      intros [= -> -> <-].
      destruct (IH _ _ _ eq_refl) as (skipped & line & -> & Hs & Hl).
      exists (l :: skipped), line. repeat split; try assumption.
      constructor; [|exact Hs]. unfold answer. now rewrite Hy, Hn.
Qed.

(** X-unparseable. When no JSON object can be extracted from the LLM's
    reply to the examination prompt and parsed, the conservative default
    assessment sends the decision to the human: in such a run [execute]
    is called, a command is run or a plan is stored only if the first
    line of input that is an answer is a yes. *)
Theorem unparseable_assessment_needs_a_yes
  (E : env) (user_input : string) (w w1 : world)
  (kv : list (string * json)) (steps : json) (reply : string)
  (evs : list event) (e : event) :
  planning E user_input w = (Ok (JObj kv), w1) ->
  assoc "steps" kv = Some steps ->
  llm_invoke E
    (trace w1 ++ [CallLog "plan_creation" (JObj kv);
                  EvPrint (MsgText "Examining plan for risks...");
                  CallAnalyzePlan (JObj kv)])
    (ExaminePrompt steps) = Ok reply ->
  no_json E (strip reply) ->
  trace (snd (process_request E user_input w)) = trace w ++ evs ->
  In e evs -> execution_event e ->
  exists skipped line rest,
    stdin w1 = skipped ++ line :: rest
    /\ Forall (fun l => answer l = None) skipped
    /\ answer line = Some true.
Proof.
  intros Hplan Hsteps Hreply Hno Htrace Hin Hexec.
  apply no_json_extract in Hno.
  destruct (process_request_approved_or_quiet E user_input w)
    as [(plan & w1' & analysis & w2 & w3 & Hp & Hexam & Hgate)
       | (evs' & Htr & Hq)].
  2:{ exfalso. rewrite Htrace in Htr. apply app_inv_head in Htr.
      subst evs'. rewrite Forall_forall in Hq. exact (Hq e Hin Hexec). }
  rewrite Hplan in Hp. injection Hp as <- <-.
  (* the examination returns the default assessment *)
  unfold examining, bind in Hexam.
  pose proof (log_effect "plan_creation" (JObj kv) w1) as [Ls Lt].
  destruct (log "plan_creation" (JObj kv) w1) as [[[]|x] wl];
    [|discriminate].
  simpl in Ls, Lt, Hexam.
  unfold analyze_plan, bind, emit, lift, llm, dict_get_default, dict_get
    in Hexam.
  simpl in Hexam. rewrite Hsteps in Hexam. simpl in Hexam.
  rewrite Lt in Hexam. rewrite <- !app_assoc in Hexam. simpl in Hexam.
  rewrite Hreply, Hno in Hexam. unfold ret in Hexam.
  injection Hexam as <- <-.
  (* the gate asks *)
  unfold permission, bind in Hgate.
  match type of Hgate with
  | context [log "plan_analysis" ?a ?w0] =>
      pose proof (log_effect "plan_analysis" a w0) as [Ps Pt];
      destruct (log "plan_analysis" a w0) as [[[]|x] wg]; [|discriminate]
  end.
  simpl in Ps, Pt, Hgate.
  unfold request_user_permission, bind, emit, lift, prompt_user in Hgate.
  simpl in Hgate. rewrite Ps, Ls in Hgate.
  destruct (ask (stdin w1)) as [[r unread] n] eqn:Hask.
  injection Hgate as -> _.
  destruct (ask_answer _ _ _ _ Hask) as (skipped & line & Hl & Hs & Ha).
  now exists skipped, line, unread.
Qed.

Lemma unparseable_assessment_needs_a_yes_witness :
  let E := Script.scripted "NO_SEARCH_NEEDED" "{}" three_step_plan
             "I cannot assess these commands." [] [] in
  let w := Script.fresh Absent Absent ["what?"; "Y"] in
  let w1 := snd (planning E "install it" w) in
  exists skipped line rest,
    stdin w1 = skipped ++ line :: rest
    /\ Forall (fun l => answer l = None) skipped
    /\ answer line = Some true.
Proof.
  intros E w w1.
  apply (unparseable_assessment_needs_a_yes E "install it" w w1
           [("steps", JList [JStr "make"; JStr "make install";
                             JStr "make clean"])]
           (JList [JStr "make"; JStr "make install"; JStr "make clean"])
           "I cannot assess these commands."
           (skipn 0 (trace (snd (process_request E "install it" w))))
           (EvRun (JStr "make"))).
  - reflexivity.
  - reflexivity.
  - reflexivity.
  - left. reflexivity.
  - reflexivity.
  - vm_compute. repeat (first [left; reflexivity | right]).
  - exact I.
Defined.

(** ** Store, then look up *)

(** The cache file holds the pairs [pairs]: it is the array of their
    entries, or there are none and the file is missing or not JSON. *)
Definition cached (f : file) (pairs : list (string * json)) : Prop :=
  f = cache_of pairs \/ (pairs = [] /\ (f = Absent \/ f = Malformed)).

Lemma cached_entries (f : file) (pairs : list (string * json)) :
  cached f pairs ->
  kb_entries f = map (fun e => kb_entry (fst e) (snd e)) pairs
  /\ appendable f.
Proof.
  intros [-> | (-> & [-> | ->])]; simpl; split; try reflexivity.
  - right. right. unfold cache_of. eauto.
  - now left.
  - right. now left.
Qed.

Lemma first_plan_some_in (query : string) (plan : json)
  (pairs : list (string * json)) :
  first_plan query pairs = Some plan -> In (query, plan) pairs.
Proof.
  induction pairs as [|[q p] rest IH]; simpl; [discriminate|].
  destruct (String.eqb q query) eqn:Hq.
  - apply String.eqb_eq in Hq. subst q. intros [= ->]. now left.
  - intros H. right. now apply IH.
Qed.

(** The lookup of a query that is stored returns the plan stored first
    for it. *)
Lemma find_similar_plan_first (pairs : list (string * json))
  (query : string) (plan : json) (w : world) :
  kb_file w = cache_of pairs ->
  first_plan query pairs = Some plan ->
  find_similar_plan query w = (Ok plan, w).
Proof.
  intros Hkb Hfirst.
  pose proof (first_plan_some_in _ _ _ Hfirst) as Hin.
  rewrite find_similar_plan_lookup, Hkb. unfold cache_of, loaded, lookup.
  assert (Hne : truthy (JList (map (fun e => kb_entry (fst e) (snd e)) pairs))
                = true).
  { destruct pairs; [destruct Hin | reflexivity]. }
  rewrite Hne. cbn [negb py_iter].
  rewrite stored_queries, stored_possibilities.
  rewrite DifflibExact.get_close_matches_exact
    by (apply (in_map fst _ _ Hin)).
  now rewrite first_with_query_pairs, Hfirst.
Qed.

Lemma first_plan_app (query : string) (pairs more : list (string * json)) :
  first_plan query (pairs ++ more)
  = match first_plan query pairs with
    | Some p => Some p
    | None => first_plan query more
    end.
Proof.
  induction pairs as [|[q p] rest IH]; simpl; [reflexivity|].
  destruct (String.eqb q query); [reflexivity | exact IH].
Qed.

(** X-roundtrip. In a cache of stored pairs, or with no cache file yet
    (missing, or not JSON), [add_to_kb] followed by [find_similar_plan]
    of the same query returns a plan: the plan just stored when the
    query was not in the cache, and the plan stored first for the query
    when it was. *)
Theorem add_to_kb_then_find_similar_plan
  (pairs : list (string * json)) (query : string) (plan : json)
  (w : world) :
  cached (kb_file w) pairs ->
  let w' := snd (add_to_kb query plan w) in
  fst (add_to_kb query plan w) = Ok tt
  /\ find_similar_plan query w'
     = (Ok match first_plan query pairs with
           | Some first => first
           | None => plan
           end, w').
Proof.
  intros Hc. destruct (cached_entries _ _ Hc) as [Hent Happ].
  rewrite (add_to_kb_stored query plan w Happ). simpl. split; [reflexivity|].
  apply (find_similar_plan_first (pairs ++ [(query, plan)])).
  - simpl. rewrite Hent. unfold cache_of. now rewrite map_app.
  - rewrite first_plan_app. simpl. rewrite String.eqb_refl.
    now destruct (first_plan query pairs).
Qed.

Lemma add_to_kb_then_find_similar_plan_witness :
  let plan := JObj [("steps", JList [JStr "df -h"])] in
  let w := Script.fresh Malformed Absent [] in
  let w' := snd (add_to_kb "show disk usage" plan w) in
  fst (add_to_kb "show disk usage" plan w) = Ok tt
  /\ find_similar_plan "show disk usage" w' = (Ok plan, w').
Proof.
  intros plan w.
  apply (add_to_kb_then_find_similar_plan [] "show disk usage" plan w).
  right. split; [reflexivity | now right].
Defined.

Lemma create_plan_hit (E : env) (user_input : string)
  (comprehension_data error_context plan : json) (w : world) :
  find_similar_plan user_input w = (Ok plan, w) ->
  truthy plan = true ->
  create_plan E user_input comprehension_data error_context w
  = (Ok plan,
     after w [CallCreatePlan user_input comprehension_data error_context;
              EvPrint (MsgText "Retrieved existing plan from KB")]).
Proof.
  intros Hhit Htruthy. unfold create_plan.
  rewrite (bind_ok _ _ _ _ _ (emit_after _ w)).
  rewrite find_similar_plan_lookup in Hhit. injection Hhit as Hhit.
  erewrite bind_ok;
    [|rewrite find_similar_plan_lookup; cbn [kb_file after];
      rewrite Hhit; reflexivity].
  rewrite Htruthy. unfold print.
  rewrite (bind_ok _ _ _ _ _ (emit_after _ _)).
  unfold ret. now rewrite after_after.
Qed.

(** X-second. Once [execute] has returned with at least one successful
    step for a request that was not in the cache, planning the same
    request again returns the executed plan from the cache: [create_plan]
    prints that it retrieved a plan and calls neither the LLM nor the
    search tool. *)
Theorem second_request_served_from_cache
  (E : env) (pairs : list (string * json)) (user_input : string)
  (kv : list (string * json)) (steps outcome first : json)
  (others : list json) (w w2 : world) :
  cached (kb_file w) pairs ->
  first_plan user_input pairs = None ->
  assoc "steps" kv = Some steps ->
  execute E (JObj kv) user_input w = (Ok outcome, w2) ->
  dict_get outcome "results" = Ok (Some (JList (first :: others))) ->
  forall comprehension_data error_context w3,
    kb_file w3 = kb_file w2 ->
    create_plan E user_input comprehension_data error_context w3
    = (Ok (JObj kv),
       after w3 [CallCreatePlan user_input comprehension_data error_context;
                 EvPrint (MsgText "Retrieved existing plan from KB")]).
Proof.
  intros Hc Hnew Hsteps Hexec Hres comprehension_data error_context w3 Hkb.
  destruct (cached_entries _ _ Hc) as [Hent _].
  destruct (execute_persists _ _ _ _ _ _ Hexec) as (results & Hr & Hkb2).
  rewrite Hres in Hr. injection Hr as <-.
  apply create_plan_hit.
  - apply (find_similar_plan_first
             (pairs ++ repeat (user_input, JObj kv)
                         (List.length (first :: others)))).
    + rewrite Hkb, Hkb2. simpl. rewrite Hent. unfold cache_of.
      rewrite map_app. simpl. do 3 f_equal.
      induction (List.length others); simpl; [reflexivity|].
      now f_equal.
    + rewrite first_plan_app, Hnew. simpl. now rewrite String.eqb_refl.
  - destruct kv; [discriminate | reflexivity].
Qed.

Lemma second_request_served_from_cache_witness :
  let kv := [("steps", JList [JStr "df -h"])] in
  let w := Script.fresh Absent Absent [] in
  let w2 := snd (execute obliging (JObj kv) "show disk usage" w) in
  create_plan obliging "show disk usage" (default_comprehension "again")
    JNull w2
  = (Ok (JObj kv),
     after w2 [CallCreatePlan "show disk usage"
                 (default_comprehension "again") JNull;
               EvPrint (MsgText "Retrieved existing plan from KB")]).
Proof.
  intros kv w w2.
  apply (second_request_served_from_cache obliging [] "show disk usage" kv
           (JList [JStr "df -h"])
           (succeeded [step_success (JStr "df -h") "" ""])
           (step_success (JStr "df -h") "" "") [] w w2).
  - right. split; [reflexivity | now left].
  - reflexivity.
  - reflexivity.
  - reflexivity.
  - reflexivity.
  - reflexivity.
Defined.

(** ** [difflib]: the quick ratios bound the ratio *)

Module DifflibBound.

Import Difflib DifflibFacts.

#[local] Open Scope nat_scope.

Lemma remove_one_app_l (c : ascii) (y1 y1' y2 : seq) :
  remove_one c y1 = Some y1' -> remove_one c (y1 ++ y2) = Some (y1' ++ y2).
Proof.
  revert y1'. induction y1 as [|x r IH]; intros y1'; simpl; [discriminate|].
  destruct (Ascii.eqb x c); [now intros [= ->]|].
  destruct (remove_one c r) as [r'|]; [|discriminate].
  intros [= <-]. now rewrite (IH r' eq_refl).
Qed.

Lemma remove_one_app_r (c : ascii) (y1 y2 : seq) :
  remove_one c y1 = None ->
  remove_one c (y1 ++ y2)
  = match remove_one c y2 with
    | Some y2' => Some (y1 ++ y2')
    | None => None
    end.
Proof.
  induction y1 as [|x r IH]; simpl.
  - intros _. now destruct (remove_one c y2).
  - destruct (Ascii.eqb x c); [discriminate|].
    destruct (remove_one c r); [discriminate|].
    intros _. rewrite (IH eq_refl). now destruct (remove_one c y2).
Qed.

(** Two different elements are taken out in either order. *)
Lemma remove_one_swap (c d : ascii) (y y' : seq) :
  c <> d -> remove_one c y = Some y' ->
  match remove_one d y with
  | Some yd => exists yd', remove_one d y' = Some yd'
                           /\ remove_one c yd = Some yd'
  | None => remove_one d y' = None
  end.
Proof.
  intros Hne. revert y'. induction y as [|x r IH]; intros y'; simpl;
    [discriminate|].
  destruct (Ascii.eqb x c) eqn:Hc.
  - apply Ascii.eqb_eq in Hc. subst x. intros [= <-].
    destruct (Ascii.eqb c d) eqn:Hd;
      [apply Ascii.eqb_eq in Hd; contradiction|].
    destruct (remove_one d r) as [rd|].
    + exists rd. split; [reflexivity|]. simpl. now rewrite Ascii.eqb_refl.
    + reflexivity.
  - destruct (remove_one c r) as [r'|] eqn:Hr; [|discriminate].
    intros [= <-]. specialize (IH r' eq_refl). simpl.
    destruct (Ascii.eqb x d).
    + exists r'. split; [reflexivity | exact Hr].
    + destruct (remove_one d r) as [rd|].
      * destruct IH as (rd' & H1 & H2). rewrite H1.
        exists (x :: rd'). split; [reflexivity|]. simpl. now rewrite Hc, H2.
      * now rewrite IH.
Qed.

(** One element less to draw from costs at most one match. *)
Lemma quick_matches_remove (x : seq) :
  forall c y y',
    remove_one c y = Some y' ->
    quick_matches x y' <= quick_matches x y <= S (quick_matches x y').
Proof.
  induction x as [|d r IH]; intros c y y' Hy; simpl; [lia|].
  destruct (ascii_dec c d) as [<- | Hne].
  - rewrite Hy. destruct (remove_one c y') as [y''|] eqn:Hy'.
    + pose proof (IH c y' y'' Hy'). lia.
    + lia.
  - pose proof (remove_one_swap c d y y' Hne Hy) as Hs.
    destruct (remove_one d y) as [yd|].
    + destruct Hs as (yd' & H1 & H2). rewrite H1.
      pose proof (IH c yd yd' H2). lia.
    + rewrite Hs. exact (IH c y y' Hy).
Qed.

(** Matching two pairs of sequences apart finds no more than matching
    their concatenations. *)
Lemma quick_matches_app (x1 x2 : seq) :
  forall y1 y2,
    quick_matches x1 y1 + quick_matches x2 y2
    <= quick_matches (x1 ++ x2) (y1 ++ y2).
Proof.
  induction x1 as [|c r IH]; intros y1 y2; simpl.
  - revert y1. induction y1 as [|d y1 IHy]; [simpl; lia|].
    assert (H : quick_matches x2 (y1 ++ y2)
                <= quick_matches x2 ((d :: y1) ++ y2)).
    { apply (quick_matches_remove x2 d). simpl.
      now rewrite Ascii.eqb_refl. }
    lia.
  - destruct (remove_one c y1) as [y1'|] eqn:H1.
    + rewrite (remove_one_app_l c y1 y1' y2 H1).
      pose proof (IH y1' y2). lia.
    + rewrite (remove_one_app_r c y1 y2 H1).
      destruct (remove_one c y2) as [y2'|] eqn:H2.
      * pose proof (IH y1 y2').
        pose proof (quick_matches_remove x2 c y2 y2' H2). lia.
      * exact (IH y1 y2).
Qed.

Lemma quick_matches_refl (s : seq) : quick_matches s s = List.length s.
Proof.
  induction s as [|c r IH]; simpl; [reflexivity|].
  rewrite Ascii.eqb_refl. now rewrite IH.
Qed.

(** [s[lo:hi]]. *)
Definition slice (s : seq) (lo hi : nat) : seq :=
  firstn (hi - lo) (skipn lo s).

Lemma firstn_plus (n m : nat) (l : seq) :
  firstn (n + m) l = firstn n l ++ firstn m (skipn n l).
Proof.
  revert l. induction n as [|n IH]; intros l; [reflexivity|].
  destruct l as [|x l]; simpl.
  - now rewrite firstn_nil.
  - now rewrite IH.
Qed.

Lemma slice_split (s : seq) (lo mid hi : nat) :
  lo <= mid <= hi -> slice s lo hi = slice s lo mid ++ slice s mid hi.
Proof.
  intros H. unfold slice.
  replace (hi - lo) with ((mid - lo) + (hi - mid)) by lia.
  rewrite firstn_plus, skipn_skipn.
  now replace (mid - lo + lo) with mid by lia.
Qed.

Lemma slice_length (s : seq) (lo hi : nat) :
  hi <= List.length s -> List.length (slice s lo hi) = hi - lo.
Proof.
  intros H. unfold slice. rewrite length_firstn, length_skipn. lia.
Qed.

Lemma slice_nth (s : seq) (lo hi t : nat) :
  t < hi - lo -> nth t (slice s lo hi) zero = nth_char s (lo + t).
Proof.
  intros H. unfold slice, nth_char.
  rewrite nth_firstn.
  replace (t <? hi - lo) with true by (symmetry; apply Nat.ltb_lt; lia).
  apply nth_skipn.
Qed.

Section Bound.

Variables a b : seq.

(** The matching blocks of a range never hold more elements than the
    two ranges have in common as multisets. *)
Lemma matches_in_quick (fuel : nat) :
  forall alo ahi blo bhi,
    alo <= ahi <= List.length a -> blo <= bhi <= List.length b ->
    matches_in fuel a b alo ahi blo bhi
    <= quick_matches (slice a alo ahi) (slice b blo bhi).
Proof.
  induction fuel as [|fuel IH]; intros alo ahi blo bhi Ha Hb;
    [simpl; lia|].
  rewrite matches_in_S. cbv zeta.
  pose proof (find_longest_match_ok a b alo blo bhi ahi
                ltac:(lia) ltac:(lia)) as (Hi1 & Hi2 & Hj1 & Hj2 & Heq).
  set (m := find_longest_match a b alo ahi blo bhi) in *.
  destruct (bestsize m =? 0); [lia|].
  set (i := besti m) in *. set (j := bestj m) in *.
  set (k := bestsize m) in *.
  rewrite (slice_split a alo i ahi) by lia.
  rewrite (slice_split a i (i + k) ahi) by lia.
  rewrite (slice_split b blo j bhi) by lia.
  rewrite (slice_split b j (j + k) bhi) by lia.
  assert (Hmid : slice a i (i + k) = slice b j (j + k)).
  { apply nth_ext with (d := zero) (d' := zero).
    - rewrite !slice_length by lia. lia.
    - intros t Ht. rewrite slice_length in Ht by lia.
      rewrite !slice_nth by lia. apply Heq. lia. }
  pose proof (quick_matches_app (slice a alo i)
                (slice a i (i + k) ++ slice a (i + k) ahi)
                (slice b blo j)
                (slice b j (j + k) ++ slice b (j + k) bhi)) as H1.
  pose proof (quick_matches_app (slice a i (i + k)) (slice a (i + k) ahi)
                (slice b j (j + k)) (slice b (j + k) bhi)) as H2.
  rewrite <- Hmid in H2. rewrite quick_matches_refl in H2.
  rewrite slice_length in H2 by lia.
  rewrite <- Hmid in H1.
  pose proof (IH alo i blo j ltac:(lia) ltac:(lia)) as L.
  pose proof (IH (i + k) ahi (j + k) bhi ltac:(lia) ltac:(lia)) as R.
  rewrite <- Hmid.
  destruct ((alo <? i) && (blo <? j));
    destruct ((i + k <? ahi) && (j + k <? bhi)); lia.
Qed.

Lemma matches_quick : matches a b <= quick_matches a b.
Proof.
  unfold matches.
  pose proof (matches_in_quick (S (List.length a)) 0 (List.length a) 0
                (List.length b) ltac:(lia) ltac:(lia)) as H.
  unfold slice in H. rewrite !Nat.sub_0_r, !skipn_0, !firstn_all in H.
  exact H.
Qed.

(** [quick_ratio] and [real_quick_ratio] are upper bounds of [ratio]:
    a sequence that passes the test on [ratio] passes the two cheaper
    tests before it. *)
Lemma ratio_geb_quick (r : ratio_t) :
  ratio_geb (ratio a b) r = true ->
  ratio_geb (quick_ratio a b) r = true
  /\ ratio_geb (real_quick_ratio a b) r = true.
Proof.
  pose proof matches_quick as Hq. pose proof (matches_bound a b) as Hm.
  unfold ratio_geb, ratio_ltb, ratio, quick_ratio, real_quick_ratio,
    calculate_ratio.
  destruct (List.length a + List.length b =? 0); [tauto|].
  cbn [fst snd]. rewrite !negb_true_iff, !Nat.ltb_ge. nia.
Qed.

End Bound.

End DifflibBound.

(** ** The lookup returns the plan of the closest stored request *)

(** [SequenceMatcher(None, stored, query).ratio()], and the test of
    [get_close_matches] against the threshold 0.6. *)
Definition similarity (stored query : string) : Difflib.ratio_t :=
  Difflib.ratio (list_ascii_of_string stored) (list_ascii_of_string query).

Definition similar (stored query : string) : bool :=
  Difflib.ratio_geb (similarity stored query) Difflib.cutoff.

Module DifflibClosest.

Import Difflib DifflibFacts DifflibBound.

#[local] Open Scope nat_scope.

Lemma ratio_pos (a b : seq) : 0 < snd (ratio a b).
Proof.
  unfold ratio, calculate_ratio.
  destruct (List.length a + List.length b =? 0) eqn:H; simpl; [lia|].
  apply Nat.eqb_neq in H. lia.
Qed.

Lemma ratio_geb_trans (r1 r2 r3 : ratio_t) :
  0 < snd r2 ->
  ratio_geb r1 r2 = true -> ratio_geb r2 r3 = true ->
  ratio_geb r1 r3 = true.
Proof.
  unfold ratio_geb, ratio_ltb. rewrite !negb_true_iff, !Nat.ltb_ge.
  destruct r1 as [n1 d1], r2 as [n2 d2], r3 as [n3 d3]. simpl.
  intros Hpos H12 H23.
  assert (n3 * d1 * d2 <= n1 * d3 * d2) by nia. nia.
Qed.

Lemma ratio_ltb_geb (r1 r2 : ratio_t) :
  ratio_ltb r1 r2 = true -> ratio_geb r2 r1 = true.
Proof.
  unfold ratio_geb, ratio_ltb. rewrite negb_true_iff, Nat.ltb_lt, Nat.ltb_ge.
  lia.
Qed.

(** The candidates are the possibilities that pass the test on [ratio],
    each with its ratio. *)
Lemma close_candidates_spec (word : string) (possibilities : list string)
  (p : ratio_t * string) :
  In p (close_candidates word possibilities) <->
  In (snd p) possibilities
  /\ fst p = similarity (snd p) word /\ similar (snd p) word = true.
Proof.
  unfold similar, similarity.
  induction possibilities as [|x rest IH]; simpl; [tauto|].
  set (a := list_ascii_of_string x). set (b := list_ascii_of_string word).
  destruct (ratio_geb (ratio a b) cutoff) eqn:Hr.
  - destruct (ratio_geb_quick a b cutoff Hr) as [-> ->]. simpl.
    rewrite IH. split.
    + intros [<- | (H1 & H2 & H3)]; simpl; [|tauto].
      fold b. fold a. tauto.
    + intros ([Hx | H1] & H2 & H3); [|tauto].
      left. destruct p as [r y]. cbn [fst snd] in *. rewrite H2, <- Hx.
      reflexivity.
  - rewrite andb_false_r. rewrite IH. split; [tauto|].
    intros ([Hx | H1] & H2 & H3); [|tauto].
    rewrite <- Hx in H3. fold a in H3. fold b in H3. congruence.
Qed.

Lemma max_scored_in (l : list (ratio_t * string)) :
  forall cur, In (max_scored cur l) (cur :: l).
Proof.
  induction l as [|p l IH]; intros cur; simpl; [now left|].
  destruct (IH (if scored_ltb cur p then p else cur)) as [H | H];
    [|right; now right].
  rewrite <- H. destruct (scored_ltb cur p); [right | left]; tauto.
Qed.

(** No element has a ratio above that of the maximum. *)
Lemma max_scored_best (l : list (ratio_t * string)) :
  forall cur,
    Forall (fun p => 0 < snd (fst p)) (cur :: l) ->
    forall p, In p (cur :: l) ->
      ratio_geb (fst (max_scored cur l)) (fst p) = true.
Proof.
  induction l as [|x l IH]; intros cur Hpos p Hin.
  - destruct Hin as [<- | []]. simpl.
    unfold ratio_geb, ratio_ltb. now rewrite Nat.ltb_irrefl.
  - cbn [max_scored].
    inversion Hpos as [|? ? Hcur Hrest]; subst.
    inversion Hrest as [|? ? Hx Hl]; subst.
    set (cur' := if scored_ltb cur x then x else cur).
    assert (Hpos' : Forall (fun p => 0 < snd (fst p)) (cur' :: l)).
    { constructor; [|exact Hl]. unfold cur'. now destruct (scored_ltb cur x). }
    assert (Hcur' : 0 < snd (fst cur')).
    { unfold cur'. now destruct (scored_ltb cur x). }
    assert (Hboth : ratio_geb (fst cur') (fst cur) = true
                    /\ ratio_geb (fst cur') (fst x) = true).
    { unfold cur', scored_ltb. 
      destruct (ratio_ltb (fst cur) (fst x)) eqn:H1; cbn [orb].
      - split; [now apply ratio_ltb_geb|].
        unfold ratio_geb, ratio_ltb. now rewrite Nat.ltb_irrefl.
      - destruct (ratio_ltb (fst x) (fst cur)) eqn:H2; cbn [negb andb].
        + split; [|now apply ratio_ltb_geb].
          unfold ratio_geb, ratio_ltb. now rewrite Nat.ltb_irrefl.
        + destruct (String.ltb (snd cur) (snd x)).
          * split; unfold ratio_geb; [now rewrite H2|].
            unfold ratio_ltb. now rewrite Nat.ltb_irrefl.
          * split; unfold ratio_geb; [|now rewrite H1].
            unfold ratio_ltb. now rewrite Nat.ltb_irrefl. }
    pose proof (IH cur' Hpos' cur' (or_introl eq_refl)) as Hmax.
    destruct Hin as [<- | [<- | Hin]].
    + exact (ratio_geb_trans _ _ _ Hcur' Hmax (proj1 Hboth)).
    + exact (ratio_geb_trans _ _ _ Hcur' Hmax (proj2 Hboth)).
    + apply (IH cur' Hpos'). now right.
Qed.

Lemma get_close_matches_none (word : string) (possibilities : list string) :
  (forall x, In x possibilities -> similar x word = false) ->
  get_close_matches word possibilities = [].
Proof.
  intros Hall. unfold get_close_matches, nlargest1.
  destruct (close_candidates word possibilities) as [|p l] eqn:Hc;
    [reflexivity|].
  assert (Hin : In p (close_candidates word possibilities))
    by (rewrite Hc; now left).
  apply close_candidates_spec in Hin. destruct Hin as (H1 & _ & H3).
  rewrite (Hall _ H1) in H3. discriminate.
Qed.

Lemma get_close_matches_best (word x : string)
  (possibilities : list string) :
  In x possibilities -> similar x word = true ->
  exists m,
    get_close_matches word possibilities = [m]
    /\ In m possibilities /\ similar m word = true
    /\ forall y, In y possibilities ->
         ratio_geb (similarity m word) (similarity y word) = true.
Proof.
  intros Hx Hsim. unfold get_close_matches, nlargest1.
  assert (Hin : In (similarity x word, x)
                  (close_candidates word possibilities))
    by (apply close_candidates_spec; simpl; tauto).
  destruct (close_candidates word possibilities) as [|p l] eqn:Hc;
    [destruct Hin|].
  assert (Hspec : forall e, In e (p :: l) ->
                    In (snd e) possibilities
                    /\ fst e = similarity (snd e) word
                    /\ similar (snd e) word = true).
  { intros e He. apply close_candidates_spec. now rewrite Hc. }
  assert (Hpos : Forall (fun e => 0 < snd (fst e)) (p :: l)).
  { apply Forall_forall. intros e He.
    destruct (Hspec e He) as (_ & He' & _). destruct e as [r y].
    cbn [fst snd] in *. rewrite He'. apply ratio_pos. }
  destruct (Hspec _ (max_scored_in l p)) as (M1 & M2 & M3).
  exists (snd (max_scored p l)). simpl. repeat split; try assumption.
  intros y Hy. rewrite <- M2.
  destruct (similar y word) eqn:Hsy.
  - apply (max_scored_best l p Hpos (similarity y word, y)).
    rewrite <- Hc. apply close_candidates_spec. simpl. tauto.
  - rewrite M2. apply (ratio_geb_trans _ cutoff); [simpl; lia | exact M3|].
    apply ratio_ltb_geb. unfold similar, ratio_geb in Hsy.
    now apply negb_false_iff in Hsy.
Qed.

End DifflibClosest.

(** The lookup in a cache of stored pairs. *)
Lemma find_similar_plan_cache_of (pairs : list (string * json))
  (query : string) (w : world) :
  kb_file w = cache_of pairs ->
  find_similar_plan query w
  = (Ok match pairs with
        | [] => JNull
        | _ :: _ =>
            match Difflib.get_close_matches query (map fst pairs) with
            | [] => JNull
            | m :: _ => match first_plan m pairs with
                        | Some p => p
                        | None => JNull
                        end
            end
        end, w).
Proof.
  intros Hkb. rewrite find_similar_plan_lookup, Hkb.
  unfold cache_of, loaded, lookup.
  destruct pairs as [|e rest]; [reflexivity|].
  set (pairs := e :: rest).
  replace (truthy _) with true by reflexivity. cbn [negb py_iter].
  rewrite stored_queries, stored_possibilities.
  destruct (Difflib.get_close_matches query (map fst pairs));
    [reflexivity|].
  now rewrite first_with_query_pairs.
Qed.

(** X-miss. [find_similar_plan] returns [None], and changes nothing, when
    the cache file is missing, is not JSON, or holds stored pairs none of
    whose queries has a ratio of at least 0.6 to the request. *)
Theorem find_similar_plan_miss (pairs : list (string * json))
  (query : string) (w : world) :
  cached (kb_file w) pairs ->
  (forall q p, In (q, p) pairs -> similar q query = false) ->
  find_similar_plan query w = (Ok JNull, w).
Proof.
  intros [Hkb | (-> & [Hkb | Hkb])] Hfar.
  - rewrite (find_similar_plan_cache_of pairs query w Hkb).
    destruct pairs as [|e rest]; [reflexivity|].
    rewrite DifflibClosest.get_close_matches_none; [reflexivity|].
    intros x Hx. apply in_map_iff in Hx. destruct Hx as ([q p] & <- & Hin).
    exact (Hfar q p Hin).
  - rewrite find_similar_plan_lookup, Hkb. reflexivity.
  - rewrite find_similar_plan_lookup, Hkb. reflexivity.
Qed.

Lemma find_similar_plan_miss_witness :
  let w := Script.fresh
             (cache_of [("show disk usage",
                         JObj [("steps", JList [JStr "df -h"])])])
             Absent [] in
  find_similar_plan "list the open ports" w = (Ok JNull, w).
Proof.
  intros w.
  apply (find_similar_plan_miss
           [("show disk usage", JObj [("steps", JList [JStr "df -h"])])]).
  - left. reflexivity.
  - intros q p [[= <- <-] | []]. vm_compute. reflexivity.
Defined.

(** X-closest. When the cache holds a pair whose query has a ratio of at
    least 0.6 to the request, [find_similar_plan] changes nothing and
    returns the plan stored first for one of the stored queries: one
    with a ratio of at least 0.6, and with the highest ratio to the
    request among all stored queries. *)
Theorem find_similar_plan_closest (pairs : list (string * json))
  (query near : string) (some_plan : json) (w : world) :
  kb_file w = cache_of pairs ->
  In (near, some_plan) pairs ->
  similar near query = true ->
  exists best plan,
    find_similar_plan query w = (Ok plan, w)
    /\ first_plan best pairs = Some plan
    /\ similar best query = true
    /\ forall q p, In (q, p) pairs ->
         Difflib.ratio_geb (similarity best query) (similarity q query)
         = true.
Proof.
  intros Hkb Hin Hsim.
  destruct (DifflibClosest.get_close_matches_best query near (map fst pairs)
              (in_map fst _ _ Hin) Hsim) as (m & Hm & Hmin & Hms & Hbest).
  apply in_map_iff in Hmin. destruct Hmin as ([q0 p0] & Hq0 & Hp0).
  simpl in Hq0. subst q0.
  destruct (first_plan_in m p0 pairs Hp0) as (plan & Hplan & _).
  exists m, plan. repeat split; try assumption.
  - rewrite (find_similar_plan_cache_of pairs query w Hkb).
    destruct pairs as [|e rest]; [destruct Hin|].
    now rewrite Hm, Hplan.
  - intros q p Hq. apply Hbest. exact (in_map fst _ _ Hq).
Qed.

Lemma find_similar_plan_closest_witness :
  let pairs := [("show disk usage", JObj [("steps", JList [JStr "df -h"])]);
                ("show disk usage now",
                 JObj [("steps", JList [JStr "du -sh"])])] in
  let w := Script.fresh (cache_of pairs) Absent [] in
  exists best plan,
    find_similar_plan "show disk usages" w = (Ok plan, w)
    /\ first_plan best pairs = Some plan
    /\ similar best "show disk usages" = true
    /\ forall q p, In (q, p) pairs ->
         Difflib.ratio_geb (similarity best "show disk usages")
           (similarity q "show disk usages") = true.
Proof.
  intros pairs w.
  apply (find_similar_plan_closest pairs "show disk usages"
           "show disk usage now" (JObj [("steps", JList [JStr "du -sh"])])).
  - reflexivity.
  - right. left. reflexivity.
  - vm_compute. reflexivity.
Defined.

(** ** Reading a multi-line request *)

Lemma upper_char_lower_char (c : ascii) :
  (upper_char c = "E"%char <-> lower_char c = "e"%char)
  /\ (upper_char c = "N"%char <-> lower_char c = "n"%char)
  /\ (upper_char c = "D"%char <-> lower_char c = "d"%char).
Proof.
  destruct c as [[] [] [] [] [] [] [] []]; vm_compute;
    repeat split; intros H; first [reflexivity | discriminate H].
Qed.

(** A line ends the request when, stripped and in lower case, it is
    [end]: the test on the upper case is the test on the lower case. *)
Lemma is_end_lower (line : string) :
  is_end line = true <-> lower (strip line) = "end".
Proof.
  unfold is_end. rewrite String.eqb_eq.
  destruct (strip line) as [|c1 [|c2 [|c3 [|c4 s]]]]; simpl;
    try (split; discriminate).
  destruct (upper_char_lower_char c1) as (E1 & _ & _).
  destruct (upper_char_lower_char c2) as (_ & N2 & _).
  destruct (upper_char_lower_char c3) as (_ & _ & D3).
  split; intros [= H1 H2 H3].
  - apply E1 in H1. apply N2 in H2. apply D3 in H3. congruence.
  - apply E1 in H1. apply N2 in H2. apply D3 in H3. congruence.
Qed.

Lemma read_lines_to_end (body : list string) (terminator : string)
  (rest : list string) :
  Forall (fun l => is_end l = false) body ->
  is_end terminator = true ->
  read_lines (body ++ terminator :: rest)
  = (Ok body, rest, S (List.length body)).
Proof.
  intros Hbody Hend. induction Hbody as [|l ls Hl _ IH]; simpl.
  - now rewrite Hend.
  - now rewrite Hl, IH.
Qed.

Lemma read_lines_returned (lines : list string) :
  forall body rest n,
    read_lines lines = (Ok body, rest, n) ->
    exists terminator,
      lines = body ++ terminator :: rest
      /\ Forall (fun l => is_end l = false) body
      /\ is_end terminator = true
      /\ n = S (List.length body).
Proof.
  induction lines as [|l ls IH]; intros body rest n; simpl; [discriminate|].
  destruct (is_end l) eqn:Hl.
  - intros [= <- <- <-]. exists l. repeat split; [constructor | exact Hl].
  - destruct (read_lines ls) as [[[collected|e] unread] k];
      [|discriminate].
    intros [= <- <- <-].
    destruct (IH collected unread k eq_refl) as (t & -> & Hb & Ht & ->).
    exists t. repeat split; try assumption. now constructor.
Qed.

Lemma read_lines_raised (lines : list string) :
  forall e rest n,
    read_lines lines = (Raise e, rest, n) ->
    e = EOFError /\ rest = [] /\ n = S (List.length lines).
Proof.
  induction lines as [|l ls IH]; intros e rest n; simpl.
  - now intros [= <- <- <-].
  - destruct (is_end l); [discriminate|].
    destruct (read_lines ls) as [[[collected|e'] unread] k];
      [discriminate|].
    intros [= <- <- <-].
    destruct (IH e' unread k eq_refl) as (-> & -> & ->). now repeat split.
Qed.

(** X-multiline. [get_multiline_input] returns the lines that come
    before the first line that is [end] once stripped and lower-cased,
    joined by newlines as they were typed; that line is read and
    dropped, and the lines after it are left on standard input. *)
Theorem get_multiline_input_reads_to_end
  (prompt : string) (body : list string) (terminator : string)
  (rest : list string) (w : world) :
  stdin w = body ++ terminator :: rest ->
  Forall (fun l => lower (strip l) <> "end") body ->
  lower (strip terminator) = "end" ->
  get_multiline_input prompt w
  = (Ok (String.concat newline body),
     {| kb_file := kb_file w; log_file := log_file w; stdin := rest;
        trace := trace w ++ EvPrint (MsgText prompt)
                            :: repeat EvInput (S (List.length body)) |}).
Proof.
  intros Hin Hbody Hend.
  unfold get_multiline_input, print.
  rewrite (bind_ok _ _ _ _ _ (emit_after _ w)). cbn [stdin after].
  rewrite Hin, read_lines_to_end.
  - unfold after. cbn [kb_file log_file trace]. now rewrite <- app_assoc.
  - eapply Forall_impl; [|exact Hbody]. intros l Hl. cbv beta in Hl.
    destruct (is_end l) eqn:He; [|reflexivity].
    apply is_end_lower in He. contradiction.
  - now apply is_end_lower.
Qed.

Lemma get_multiline_input_reads_to_end_witness :
  let w := Script.fresh Absent Absent
             ["install nginx"; "the end"; " End "; "y"] in
  get_multiline_input "Enter request (type 'END' to finish):" w
  = (Ok (String.concat newline ["install nginx"; "the end"]),
     {| kb_file := kb_file w; log_file := log_file w; stdin := ["y"];
        trace := trace w
                 ++ EvPrint (MsgText "Enter request (type 'END' to finish):")
                    :: repeat EvInput 3 |}).
Proof.
  intros w.
  apply (get_multiline_input_reads_to_end
           "Enter request (type 'END' to finish):"
           ["install nginx"; "the end"] " End " ["y"] w).
  - reflexivity.
  - repeat constructor; vm_compute; discriminate.
  - vm_compute. reflexivity.
Defined.

(** ** What [main] does before a request is processed *)

(** An event of the dialogue: a line printed or a line read. *)
Definition dialogue (e : event) : Prop :=
  match e with
  | EvPrint _ | EvInput => True
  | _ => False
  end.

(** From [w] to [w'] the program only talked: both files are as they
    were, and the trace grew by prints and reads. *)
Definition talked (w w' : world) : Prop :=
  kb_file w' = kb_file w /\ log_file w' = log_file w
  /\ extends dialogue w w'.

Lemma talked_refl (w : world) : talked w w.
Proof. repeat split. apply extends_refl. Qed.

Lemma talked_trans (w1 w2 w3 : world) :
  talked w1 w2 -> talked w2 w3 -> talked w1 w3.
Proof.
  intros (K1 & L1 & T1) (K2 & L2 & T2). repeat split; try congruence.
  exact (extends_trans _ _ _ _ T1 T2).
Qed.

Lemma talked_print (s : string) (w : world) :
  print s w = (Ok tt, after w [EvPrint (MsgText s)])
  /\ talked w (after w [EvPrint (MsgText s)]).
Proof.
  split; [reflexivity|]. repeat split.
  exists [EvPrint (MsgText s)]. split; [reflexivity|].
  repeat constructor.
Qed.

Lemma talked_input (w : world) : talked w (snd (input w)).
Proof.
  unfold input. destruct (stdin w); repeat split;
    exists [EvInput]; split; try reflexivity; repeat constructor.
Qed.

Lemma talked_get_multiline_input (prompt : string) (w : world) :
  talked w (snd (get_multiline_input prompt w)).
Proof.
  unfold get_multiline_input, print.
  rewrite (bind_ok _ _ _ _ _ (emit_after _ w)). cbn [stdin after].
  destruct (read_lines (stdin w)) as [[r unread] n]. repeat split.
  exists (EvPrint (MsgText prompt) :: repeat EvInput n).
  split; [simpl; now rewrite <- app_assoc|].
  constructor; [exact I|]. clear. induction n; constructor; auto.
  exact I.
Qed.

(** X-main. Every run of [main] is of one of two kinds.  Either it only
    talks: it prints and reads lines, calls no agent and leaves both
    files as they were.  Or both keys are set and not empty, the first
    line read is the choice 1 or 2, the request is not empty, and after
    only talking [main] is [process_request] on that request, with the
    lines after the request as what is left of standard input: the
    request is the second line stripped (choice 1), or the lines before
    the first terminator joined by newlines, not stripped (choice 2). *)
Theorem main_talks_or_processes_a_request
  (E : env) (groq_api_key tavily_api_key : option string) (w : world) :
  talked w (snd (main E groq_api_key tavily_api_key w))
  \/ (env_set groq_api_key = true /\ env_set tavily_api_key = true
      /\ exists choice request rest w0,
           talked w w0 /\ stdin w0 = rest /\ request <> ""
           /\ main E groq_api_key tavily_api_key w
              = process_request E request w0
           /\ ((strip choice = "1"
                /\ exists line,
                     stdin w = choice :: line :: rest
                     /\ request = strip line)
               \/ (strip choice = "2"
                   /\ exists body terminator,
                        stdin w = choice :: body ++ terminator :: rest
                        /\ Forall (fun l => lower (strip l) <> "end") body
                        /\ lower (strip terminator) = "end"
                        /\ request = String.concat newline body))).
Proof.
  unfold main.
  destruct (env_set groq_api_key) eqn:Hg; cbn [negb orb];
    [|left; apply talked_print].
  destruct (env_set tavily_api_key) eqn:Ht; cbn [negb];
    [|left; apply talked_print].
  set (w1 := after w [EvPrint (MsgText "Choose input method:")]).
  set (w2 := after w1 [EvPrint (MsgText "1) Single line")]).
  set (w3 := after w2 [EvPrint (MsgText "2) Multi-line")]).
  assert (T3 : talked w w3).
  { apply (talked_trans _ w1); [apply talked_print|].
    apply (talked_trans _ w2); apply talked_print. }
  rewrite (bind_ok _ _ _ _ _ (proj1 (talked_print _ w))).
  rewrite (bind_ok _ _ _ _ _ (proj1 (talked_print _ w1))).
  rewrite (bind_ok _ _ _ _ _ (proj1 (talked_print _ w2))).
  fold w1 w2 w3.
  pose proof (talked_input w3) as T4.
  destruct (input w3) as [[choice|e] w4] eqn:Hchoice;
    [rewrite (bind_ok _ _ _ _ _ Hchoice)
    |rewrite (bind_raise _ _ _ _ _ Hchoice);
     left; exact (talked_trans _ _ _ T3 T4)].
  assert (Hin : stdin w = choice :: stdin w4).
  { unfold input in Hchoice. change (stdin w3) with (stdin w) in Hchoice.
    destruct (stdin w); [discriminate|].
    now injection Hchoice as -> <-. }
  cbn [snd] in T4. pose proof (talked_trans _ _ _ T3 T4) as T.
  destruct (String.eqb (strip choice) "1") eqn:H1.
  - apply String.eqb_eq in H1.
    pose proof (talked_input w4) as T5.
    destruct (input w4) as [[line|e] w5] eqn:Hline;
      [rewrite (bind_ok _ _ _ _ _ Hline)
      |rewrite (bind_raise _ _ _ _ _ Hline);
       left; exact (talked_trans _ _ _ T T5)].
    cbn [snd] in T5. unfold submit.
    destruct (String.eqb (strip line) "") eqn:Hempty; cbn [negb].
    + left. apply (talked_trans _ w5); [exact (talked_trans _ _ _ T T5)|].
      apply talked_print.
    + right. split; [reflexivity|]. split; [reflexivity|].
      exists choice, (strip line), (stdin w5), w5.
      split; [exact (talked_trans _ _ _ T T5)|]. split; [reflexivity|].
      split; [now apply String.eqb_neq|]. split; [reflexivity|].
      left. split; [exact H1|]. exists line. split; [|reflexivity].
      rewrite Hin. unfold input in Hline.
      destruct (stdin w4); [discriminate|].
      now injection Hline as -> <-.
  - destruct (String.eqb (strip choice) "2") eqn:H2;
      [|left; apply (talked_trans _ w4); [exact T | apply talked_print]].
    apply String.eqb_eq in H2.
    pose proof (talked_get_multiline_input
                  "Enter request (type 'END' to finish):" w4) as T5.
    destruct (get_multiline_input _ w4) as [[request|e] w5] eqn:Hreq;
      [rewrite (bind_ok _ _ _ _ _ Hreq)
      |rewrite (bind_raise _ _ _ _ _ Hreq);
       left; exact (talked_trans _ _ _ T T5)].
    cbn [snd] in T5. unfold submit.
    destruct (String.eqb request "") eqn:Hempty; cbn [negb].
    + left. apply (talked_trans _ w5); [exact (talked_trans _ _ _ T T5)|].
      apply talked_print.
    + right. split; [reflexivity|]. split; [reflexivity|].
      exists choice, request, (stdin w5), w5.
      split; [exact (talked_trans _ _ _ T T5)|]. split; [reflexivity|].
      split; [now apply String.eqb_neq|]. split; [reflexivity|].
      right. split; [exact H2|].
      unfold get_multiline_input, print in Hreq.
      rewrite (bind_ok _ _ _ _ _ (emit_after _ w4)) in Hreq.
      cbn [stdin after] in Hreq.
      destruct (read_lines (stdin w4)) as [[[collected|e] unread] n] eqn:Hr;
        [|discriminate].
      injection Hreq as <- <-. cbn [stdin].
      destruct (read_lines_returned _ _ _ _ Hr) as (t & Hl & Hb & He & _).
      exists collected, t. rewrite Hin, Hl.
      split; [reflexivity|]. split; [|split; [now apply is_end_lower|]].
      * eapply Forall_impl; [|exact Hb]. intros l Hl' Hend.
        apply is_end_lower in Hend. cbv beta in Hl'. congruence.
      * reflexivity.
Qed.

(** ** An assessment without a recommendation *)

Lemma log_returns (stage : string) (data : json) (w : world) :
  log_ok (log_file w) -> fst (log stage data w) = Ok tt.
Proof.
  unfold log, bind, emit, read_logs, lift, set_log_file. simpl.
  destruct (log_file w) as [| | |v]; try reflexivity.
  destruct v; simpl; tauto.
Qed.

(** X-norecommendation. The gate reads [analysis["recommendation"]]
    with a subscript: when the assessment the examiner returned for a
    plan with steps is a dict without that key, and [requires_permission]
    is missing or truthy in it, [process_request] raises [KeyError]
    once the assessment is logged.  No line of input was read, no
    command was run, and the cache file is as it was. *)
Theorem process_request_assessment_without_recommendation
  (E : env) (user_input : string) (w w1 w2 : world)
  (plan steps : json) (kv : list (string * json)) :
  planning E user_input w = (Ok plan, w1) ->
  dict_get_default plan "steps" JNull = Ok steps ->
  truthy steps = true ->
  examining E plan w1 = (Ok (JObj kv), w2) ->
  assoc "recommendation" kv = None ->
  (forall v, assoc "requires_permission" kv = Some v -> truthy v = true) ->
  log_ok (log_file w2) ->
  exists w3,
    process_request E user_input w = (Raise (KeyError "recommendation"), w3)
    /\ stdin w3 = stdin w2
    /\ kb_file w3 = kb_file w
    /\ quiet w w3.
Proof.
  intros Hplan Hsteps Htruthy Hexam Hrec Hperm Hlog.
  pose proof (same_kb_planning E user_input w) as K1.
  pose proof (same_kb_examining E plan w1) as K2.
  pose proof (same_kb_permission plan (JObj kv) w2) as K3.
  pose proof (quiet_planning E user_input w) as Q1.
  pose proof (quiet_examining E plan w1) as Q2.
  pose proof (quiet_permission plan (JObj kv) w2) as Q3.
  rewrite Hplan in K1, Q1. rewrite Hexam in K2, Q2.
  cbn [snd] in K1, K2, Q1, Q2. unfold same_kb in *.
  rewrite (process_request_from_assessment E user_input w w1 w2 plan steps
             (JObj kv) Hplan Hsteps Htruthy Hexam).
  assert (Hgate : exists w3,
             permission plan (JObj kv) w2
             = (Raise (KeyError "recommendation"), w3)
             /\ stdin w3 = stdin w2).
  { unfold permission.
    pose proof (log_returns "plan_analysis" (JObj kv) w2 Hlog) as Hl.
    destruct (log_effect "plan_analysis" (JObj kv) w2) as [Hin _].
    destruct (log "plan_analysis" (JObj kv) w2) as [[[]|e] wl] eqn:Hlg;
      [|discriminate].
    rewrite (bind_ok _ _ _ _ _ Hlg). cbn [snd] in Hin.
    unfold lift at 1, dict_get_default, dict_get.
    assert (Hrp : truthy match assoc "requires_permission" kv with
                         | Some v => v
                         | None => JBool true
                         end = true).
    { destruct (assoc "requires_permission" kv) as [v|] eqn:Hv;
        [now apply Hperm | reflexivity]. }
    unfold bind at 1.
    destruct (assoc "requires_permission" kv) as [v|]; rewrite Hrp;
      unfold request_user_permission;
      rewrite (bind_ok _ _ _ _ _ (emit_after _ wl));
      unfold lift, subscript; rewrite Hrec; unfold bind;
      eexists; (split; [reflexivity | exact Hin]). }
  destruct Hgate as (w3 & Hgate & Hin). exists w3.
  rewrite Hgate in K3, Q3. cbn [snd] in K3, Q3.
  rewrite (bind_raise _ _ _ _ _ Hgate).
  split; [reflexivity|]. split; [exact Hin|]. split; [congruence|].
  exact (quiet_trans _ _ _ (quiet_trans _ _ _ Q1 Q2) Q3).
Qed.

Definition bare_assessment : string :=
  ("{" ++ Script.quoted "risk_level" ++ ": " ++ Script.quoted "low"
   ++ "}")%string.

Lemma process_request_assessment_without_recommendation_witness :
  let E := Script.scripted "NO_SEARCH_NEEDED" "{}" three_step_plan
             bare_assessment [] [] in
  let w := Script.fresh Absent Absent ["y"] in
  let plan := JObj [("steps", JList [JStr "make"; JStr "make install";
                                     JStr "make clean"])] in
  let w1 := snd (planning E "install it" w) in
  let w2 := snd (examining E plan w1) in
  exists w3,
    process_request E "install it" w
    = (Raise (KeyError "recommendation"), w3)
    /\ stdin w3 = stdin w2
    /\ kb_file w3 = kb_file w
    /\ quiet w w3.
Proof.
  intros E w plan w1 w2.
  apply (process_request_assessment_without_recommendation E "install it"
           w w1 w2 plan
           (JList [JStr "make"; JStr "make install"; JStr "make clean"])
           [("risk_level", JStr "low")]).
  - reflexivity.
  - reflexivity.
  - reflexivity.
  - reflexivity.
  - reflexivity.
  - intros v H. discriminate H.
  - exact I.
Defined.

(** ** Steps that are not a list *)

Section Iterates.

Variable E : env.
Variables (plan : json) (user_query : string) (steps : json) (total : nat).

Lemma execute_loop_all_completed (cmds : list json) :
  (forall tr cmd, In cmd cmds ->
     exists out err, subprocess_run E tr cmd = Completed out err) ->
  forall idx results w,
    appendable (kb_file w) ->
    exists results' w2 evs,
      execute_loop E plan user_query steps total cmds idx results w
      = (Ok (succeeded results'), w2)
      /\ List.length results' = List.length results + List.length cmds
      /\ trace w2 = trace w ++ evs
      /\ runs_of evs = cmds
      /\ kb_file w2
         = grown (kb_file w)
             (repeat (kb_entry user_query plan) (List.length cmds)).
Proof.
  induction cmds as [|cmd rest IH]; intros completes idx results w Hkb.
  - exists results, w, []. simpl. unfold ret.
    repeat split; try lia. now rewrite app_nil_r.
  - destruct (completes (trace w ++ [EvPrint (MsgStep (idx + 1) total cmd)])
                cmd (or_introl eq_refl)) as (out & err & Hrun).
    rewrite (execute_loop_completed E plan user_query steps total cmd rest
               idx results out err w Hrun Hkb).
    set (w1 := after w [EvPrint (MsgStep (idx + 1) total cmd); EvRun cmd]).
    destruct (IH (fun tr c Hc => completes tr c (or_intror Hc))
                (S idx) (results ++ [step_success cmd out err])
                (stored w1 user_query plan)
                (stored_appendable w1 user_query plan))
      as (results' & w2 & evs & Hloop & Hlen & Htr & Hruns & Hfile).
    exists results', w2,
      ([EvPrint (MsgStep (idx + 1) total cmd); EvRun cmd;
        CallAddToKb user_query plan] ++ evs).
    split; [exact Hloop|]. split.
    { rewrite Hlen, length_app. simpl. lia. }
    split.
    { rewrite Htr. unfold stored, w1, after. simpl.
      now rewrite <- !app_assoc. }
    split; [simpl; now rewrite Hruns|].
    rewrite Hfile. exact (grown_stored w1 user_query plan (List.length rest)).
Qed.

End Iterates.

(** X-iterates. [execute] does not check that [steps] is a list: it
    runs whatever the [for] loop visits.  When each visited element
    exits with status zero as a command, the commands run are the
    elements of a list, the characters of a string one by one, or the
    keys of a dict, in order, and each of them stores the plan in the
    cache once. *)
Theorem execute_runs_what_iteration_visits
  (E : env) (kv : list (string * json)) (steps : json) (cmds : list json)
  (user_query : string) (w : world) :
  assoc "steps" kv = Some steps ->
  py_iter steps = Ok cmds ->
  appendable (kb_file w) ->
  (forall tr cmd, In cmd cmds ->
     exists out err, subprocess_run E tr cmd = Completed out err) ->
  exists results w2 evs,
    execute E (JObj kv) user_query w = (Ok (succeeded results), w2)
    /\ List.length results = List.length cmds
    /\ trace w2 = trace w ++ evs
    /\ runs_of evs = cmds
    /\ kb_file w2
       = grown (kb_file w)
           (repeat (kb_entry user_query (JObj kv)) (List.length cmds)).
Proof.
  intros Hsteps Hiter Hkb Hrun. unfold execute.
  rewrite (bind_ok _ _ _ _ _ (emit_after _ w)).
  unfold lift at 1, dict_get_default, dict_get. rewrite Hsteps.
  unfold bind at 1, lift at 1. rewrite Hiter. unfold bind at 1.
  destruct (execute_loop_all_completed E (JObj kv) user_query steps
              (List.length cmds) cmds Hrun 0 []
              (after w [CallExecute (JObj kv) user_query]) Hkb)
    as (results & w2 & evs & Hloop & Hlen & Htr & Hruns & Hfile).
  exists results, w2, (CallExecute (JObj kv) user_query :: evs).
  split; [exact Hloop|]. split; [exact Hlen|]. split.
  { rewrite Htr. unfold after. simpl. now rewrite <- app_assoc. }
  split; [exact Hruns | exact Hfile].
Qed.

Lemma execute_runs_what_iteration_visits_witness :
  let E := Script.scripted "" "" "" "" ["false"] [] in
  let kv := [("steps", JStr "::")] in
  let w := Script.fresh Absent Absent [] in
  exists results w2 evs,
    execute E (JObj kv) "do nothing twice" w
    = (Ok (succeeded results), w2)
    /\ List.length results = 2
    /\ trace w2 = trace w ++ evs
    /\ runs_of evs = [JStr ":"; JStr ":"]
    /\ kb_file w2
       = grown (kb_file w)
           (repeat (kb_entry "do nothing twice" (JObj kv)) 2).
Proof.
  intros E kv w.
  apply (execute_runs_what_iteration_visits E kv (JStr "::")
           [JStr ":"; JStr ":"] "do nothing twice" w).
  - reflexivity.
  - reflexivity.
  - left. reflexivity.
  - intros tr cmd [<- | [<- | []]]; exists "", ""; reflexivity.
Defined.

(** ** The span the brace search returns *)

Fixpoint has_char (c : ascii) (s : string) : bool :=
  match s with
  | EmptyString => false
  | String x r => Ascii.eqb x c || has_char c r
  end.

Lemma from_first_open_none (s : string) :
  from_first_open s = None <-> has_char "{" s = false.
Proof.
  induction s as [|c r IH]; simpl; [tauto|]. unfold is_open.
  destruct (Ascii.eqb c "{"); simpl; [split; discriminate | exact IH].
Qed.

Lemma upto_last_close_none (s : string) :
  upto_last_close s = None <-> has_char "}" s = false.
Proof.
  induction s as [|c r IH]; simpl; [tauto|]. unfold is_close.
  destruct (upto_last_close r).
  - split; [discriminate|]. intros H. apply orb_false_iff in H.
    destruct H as [_ H]. apply IH in H. discriminate.
  - destruct (Ascii.eqb c "}"); simpl; [split; discriminate|].
    split; [intros _; now apply IH | reflexivity].
Qed.

Lemma from_first_open_app (pre t : string) :
  from_first_open pre = None ->
  from_first_open (pre ++ String "{" t)%string = Some (String "{"%char t).
Proof.
  induction pre as [|c r IH]; simpl; [reflexivity|].
  destruct (is_open c); [discriminate | exact IH].
Qed.

Lemma upto_last_close_app (x post : string) :
  upto_last_close post = None ->
  upto_last_close (x ++ String "}" post)%string = Some (x ++ "}")%string.
Proof.
  intros Hpost. induction x as [|c r IH]; simpl.
  - now rewrite Hpost.
  - now rewrite IH.
Qed.

(** X-span. The match of [re.search(r'\{.*\}', s, re.DOTALL)] that the
    three agents hand to [json.loads] is the widest span of the reply
    that runs from a brace to a brace: [m] is the match if and only if
    the reply is [pre ++ m ++ post] with [m] from an opening to a
    closing brace, no opening brace in [pre] and no closing brace in
    [post].  Two JSON objects in one reply are therefore taken as one
    span. *)
Theorem re_search_braces_widest_span (s m : string) :
  re_search_braces s = Some m <->
  exists pre body post,
    s = (pre ++ m ++ post)%string
    /\ m = String "{"%char (body ++ "}")%string
    /\ has_char "{" pre = false
    /\ has_char "}" post = false.
Proof.
  split.
  - intros H.
    destruct (re_search_braces_spec s m H)
      as (pre & body & post & Hs & Hm & Hpre & Hpost).
    exists pre, body, post. repeat split; try assumption.
    + now apply from_first_open_none.
    + now apply upto_last_close_none.
  - intros (pre & body & post & -> & -> & Hpre & Hpost).
    apply from_first_open_none in Hpre.
    apply upto_last_close_none in Hpost.
    unfold re_search_braces. cbn [String.append].
    rewrite (from_first_open_app pre _ Hpre).
    assert (Hassoc : ((body ++ "}") ++ post
                      = body ++ String "}" post)%string).
    { clear. induction body as [|c r IH]; simpl; [reflexivity|].
      now rewrite IH. }
    rewrite Hassoc.
    exact (upto_last_close_app (String "{"%char body) post Hpost).
Qed.

(** ** A cache entry without a query *)

Lemma map_result_raises {A B} (f : A -> result B) (l : list A) (x : A)
  (e0 : exn) :
  In x l -> f x = Raise e0 -> exists e, map_result f l = Raise e.
Proof.
  intros Hin Hx. induction l as [|y r IH]; [destruct Hin|].
  simpl. destruct (f y) as [b|e] eqn:Hy; [|eauto].
  destruct Hin as [-> | Hin]; [congruence|].
  destruct (IH Hin) as (e & ->). eauto.
Qed.

(** X-poisoned. One element of the cached array that is not a dict, or
    is a dict without the key [query], makes every lookup raise,
    whatever the request: [find_similar_plan] collects the queries of
    all entries before it compares any, and [create_plan] raises with
    it before it calls the search tool or the LLM. *)
Theorem cache_entry_without_query_fails_every_lookup
  (items : list json) (item : json) (e0 : exn) (w : world) :
  kb_file w = Holds (JList items) ->
  In item items ->
  subscript item "query" = Raise e0 ->
  exists e,
    forall query,
      find_similar_plan query w = (Raise e, w)
      /\ forall E comprehension_data error_context,
           create_plan E query comprehension_data error_context w
           = (Raise e,
              after w [CallCreatePlan query comprehension_data
                         error_context]).
Proof.
  intros Hkb Hin Hitem.
  destruct (map_result_raises (fun i => subscript i "query") items item e0
              Hin Hitem) as (e & He).
  exists e. intros query.
  assert (Hfind : forall w', kb_file w' = kb_file w ->
                    find_similar_plan query w' = (Raise e, w')).
  { intros w' Hw'. rewrite find_similar_plan_lookup, Hw', Hkb.
    unfold loaded, lookup.
    destruct items as [|i0 rest]; [destruct Hin|].
    cbn [truthy negb py_iter]. now rewrite He. }
  split; [now apply Hfind|].
  intros E comprehension_data error_context. unfold create_plan.
  rewrite (bind_ok _ _ _ _ _ (emit_after _ w)).
  exact (bind_raise _ _ _ _ _
           (Hfind (after w [CallCreatePlan query comprehension_data
                              error_context]) eq_refl)).
Qed.

Lemma cache_entry_without_query_fails_every_lookup_witness :
  let items := [kb_entry "show disk usage"
                  (JObj [("steps", JList [JStr "df -h"])]);
                JObj [("plan", JObj [("steps", JList [JStr "ls"])])]] in
  let w := Script.fresh (Holds (JList items)) Absent [] in
  exists e,
    forall query,
      find_similar_plan query w = (Raise e, w)
      /\ forall E comprehension_data error_context,
           create_plan E query comprehension_data error_context w
           = (Raise e,
              after w [CallCreatePlan query comprehension_data
                         error_context]).
Proof.
  intros items w.
  apply (cache_entry_without_query_fails_every_lookup items
           (JObj [("plan", JObj [("steps", JList [JStr "ls"])])])
           (KeyError "query") w).
  - reflexivity.
  - right. left. reflexivity.
  - reflexivity.
Defined.

(** ** A cache file that cannot take an entry *)

Lemma add_to_kb_not_appendable (query : string) (plan : json) (w : world) :
  ~ appendable (kb_file w) ->
  exists e,
    add_to_kb query plan w = (Raise e, after w [CallAddToKb query plan]).
Proof.
  intros Hno. unfold add_to_kb.
  rewrite (bind_ok _ _ _ _ _ (emit_after _ w)).
  unfold bind, load_kb, lift, append. cbn [kb_file after].
  destruct (kb_file w) as [| | |v] eqn:Hkb.
  - exfalso. apply Hno. now left.
  - eauto.
  - exfalso. apply Hno. right. now left.
  - destruct v as [| | | | |l|];
      try (eexists; reflexivity).
    exfalso. apply Hno. right. right. now exists l.
Qed.

(** X-lost. [add_to_kb] is called inside the [try] of the loop, and its
    exceptions are not among those the loop catches.  When the cache
    file holds JSON that is not an array (an empty object, say, which
    the lookup takes for an empty cache) or cannot be decoded, and the
    first command exits with status zero, [execute] has run that command
    and then raises: no outcome is returned, no later step is run, and
    the cache file is as it was. *)
Theorem execute_raises_after_first_success
  (E : env) (kv : list (string * json)) (steps cmd : json)
  (rest : list json) (user_query out err : string) (w : world) :
  ~ appendable (kb_file w) ->
  assoc "steps" kv = Some steps ->
  py_iter steps = Ok (cmd :: rest) ->
  subprocess_run E
    (trace w ++ [CallExecute (JObj kv) user_query;
                 EvPrint (MsgStep 1 (S (List.length rest)) cmd)]) cmd
  = Completed out err ->
  exists e,
    execute E (JObj kv) user_query w
    = (Raise e,
       after w [CallExecute (JObj kv) user_query;
                EvPrint (MsgStep 1 (S (List.length rest)) cmd);
                EvRun cmd;
                CallAddToKb user_query (JObj kv)]).
Proof.
  intros Hno Hsteps Hiter Hrun. unfold execute.
  rewrite (bind_ok _ _ _ _ _ (emit_after _ w)).
  unfold lift at 1, dict_get_default, dict_get. rewrite Hsteps.
  unfold bind at 1, lift at 1. rewrite Hiter. unfold bind at 1.
  cbn [execute_loop List.length Nat.add].
  rewrite (bind_ok _ _ _ _ _ (emit_after _ _)).
  rewrite (bind_ok _ _ _ _ _ (run_after E cmd _)).
  rewrite !after_after. cbn [trace after app]. rewrite Hrun.
  destruct (add_to_kb_not_appendable user_query (JObj kv)
              (after w [CallExecute (JObj kv) user_query;
                        EvPrint (MsgStep 1 (S (List.length rest)) cmd);
                        EvRun cmd]) Hno) as (e & He).
  exists e. rewrite (bind_raise _ _ _ _ _ He). now rewrite after_after.
Qed.

Lemma execute_raises_after_first_success_witness :
  let kv := [("steps", JList [JStr "make"; JStr "make install"])] in
  let w := Script.fresh (Holds (JObj [])) Absent [] in
  exists e,
    execute obliging (JObj kv) "install it" w
    = (Raise e,
       after w [CallExecute (JObj kv) "install it";
                EvPrint (MsgStep 1 2 (JStr "make"));
                EvRun (JStr "make");
                CallAddToKb "install it" (JObj kv)]).
Proof.
  intros kv w.
  apply (execute_raises_after_first_success obliging kv
           (JList [JStr "make"; JStr "make install"]) (JStr "make")
           [JStr "make install"] "install it" "" "" w).
  - intros [H | [H | (l & H)]]; discriminate H.
  - reflexivity.
  - reflexivity.
  - reflexivity.
Defined.

(** ** What is run was examined *)

(** A run that got past the gate is the execution stage on the plan the
    gate approved. *)
Lemma process_request_runs_or_quiet
  (E : env) (user_input : string) (w : world) :
  (exists plan w1 analysis w2 w3,
      planning E user_input w = (Ok plan, w1)
      /\ examining E plan w1 = (Ok analysis, w2)
      /\ permission plan analysis w2 = (Ok true, w3)
      /\ process_request E user_input w = run_plan E user_input plan w3)
  \/ quiet w (snd (process_request E user_input w)).
Proof.
  pose proof (process_request_stages E user_input w) as Hpr.
  pose proof (quiet_planning E user_input w) as Q1.
  destruct (planning E user_input w) as [[plan|e] w1] eqn:Hp;
    [rewrite (bind_ok _ _ _ _ _ Hp) in Hpr
    |rewrite (bind_raise _ _ _ _ _ Hp) in Hpr; right; now rewrite Hpr].
  cbn [snd] in Q1.
  pose proof (quiet_log "plan_creation" plan w1) as Q2.
  destruct (log "plan_creation" plan w1) as [[[]|e] w2] eqn:Hl;
    [rewrite (bind_ok _ _ _ _ _ Hl) in Hpr
    |rewrite (bind_raise _ _ _ _ _ Hl) in Hpr; right; rewrite Hpr;
     exact (quiet_trans _ _ _ Q1 Q2)].
  cbn [snd] in Q2. pose proof (quiet_trans _ _ _ Q1 Q2) as Q12.
  unfold bind at 1, lift at 1 in Hpr.
  destruct (dict_get_default plan "steps" JNull) as [steps|e];
    [|right; now rewrite Hpr].
  destruct (negb (truthy steps)).
  { right. rewrite Hpr. exact (quiet_trans _ _ _ Q12 (quiet_print _ w2)). }
  unfold print at 1 in Hpr.
  rewrite (bind_ok _ _ _ _ _ (emit_after _ w2)) in Hpr.
  pose proof (quiet_print "Examining plan for risks..." w2) as Q3.
  change (snd (print "Examining plan for risks..." w2))
    with (after w2 [EvPrint (MsgText "Examining plan for risks...")]) in Q3.
  set (w3 := after w2 [EvPrint (MsgText "Examining plan for risks...")])
    in *.
  pose proof (quiet_trans _ _ _ Q12 Q3) as Q13.
  pose proof (quiet_analyze_plan E plan w3) as Q4.
  destruct (analyze_plan E plan w3) as [[analysis|e] w4] eqn:Ha;
    [rewrite (bind_ok _ _ _ _ _ Ha) in Hpr
    |rewrite (bind_raise _ _ _ _ _ Ha) in Hpr; right; rewrite Hpr;
     exact (quiet_trans _ _ _ Q13 Q4)].
  cbn [snd] in Q4. pose proof (quiet_trans _ _ _ Q13 Q4) as Q14.
  pose proof (quiet_permission plan analysis w4) as Q5.
  destruct (permission plan analysis w4) as [[[|]|e] w5] eqn:Hg.
  - rewrite (bind_ok _ _ _ _ _ Hg) in Hpr. cbn [negb] in Hpr.
    left. exists plan, w1, analysis, w4, w5. repeat split; try assumption.
    unfold examining. rewrite (bind_ok _ _ _ _ _ Hl). unfold print.
    rewrite (bind_ok _ _ _ _ _ (emit_after _ w2)). exact Ha.
  - rewrite (bind_ok _ _ _ _ _ Hg) in Hpr. cbn [negb] in Hpr.
    right. rewrite Hpr. cbn [snd] in Q5.
    exact (quiet_trans _ _ _ (quiet_trans _ _ _ Q14 Q5) (quiet_print _ w5)).
  - rewrite (bind_raise _ _ _ _ _ Hg) in Hpr. right. rewrite Hpr.
    exact (quiet_trans _ _ _ Q14 Q5).
Qed.

(** The commands among the events are among [cmds]. *)
Definition runs_within (cmds : list json) (e : event) : Prop :=
  forall c, e = EvRun c -> In c cmds.

Lemma execute_loop_runs_within (E : env) (plan : json)
  (user_query : string) (steps : json) (total : nat) (cmds : list json) :
  forall idx results,
    preserves (extends (runs_within cmds))
      (execute_loop E plan user_query steps total cmds idx results).
Proof.
  induction cmds as [|cmd rest IH]; intros idx results.
  - apply extends_ret.
  - cbn [execute_loop].
    apply extends_bind; [apply extends_emit; now intros c [=] | intros _].
    apply extends_bind.
    { apply preserves_run, extends_allows. intros c [= <-]. now left. }
    intros o. destruct o.
    + apply extends_bind;
        [apply extends_add_to_kb; now intros c [=] | intros _].
      intros w. generalize (IH (S idx) (results ++ [step_success cmd stdout
                                                     stderr]) w).
      apply extends_weaken. intros e He c Hc. right. now apply He.
    + apply extends_bind; [apply extends_lift | intros ?].
      apply extends_ret.
    + apply extends_bind; [apply extends_lift | intros ?].
      apply extends_ret.
    + apply preserves_raise, extends_refl.
Qed.

Lemma execute_runs_within (E : env) (plan : json) (user_query : string)
  (w : world) :
  exists evs,
    trace (snd (execute E plan user_query w)) = trace w ++ evs
    /\ forall c, In (EvRun c) evs ->
         exists steps cmds,
           dict_get_default plan "steps" (JList []) = Ok steps
           /\ py_iter steps = Ok cmds /\ In c cmds.
Proof.
  unfold execute.
  rewrite (bind_ok _ _ _ _ _ (emit_after _ w)).
  unfold bind at 1, lift at 1.
  destruct (dict_get_default plan "steps" (JList [])) as [steps|e] eqn:Hs.
  2: { exists [CallExecute plan user_query]. split; [reflexivity|].
       intros c [H | []]; discriminate H. }
  unfold bind at 1, lift at 1.
  destruct (py_iter steps) as [cmds|e] eqn:Hi.
  2: { exists [CallExecute plan user_query]. split; [reflexivity|].
       intros c [H | []]; discriminate H. }
  destruct (execute_loop_runs_within E plan user_query steps
              (List.length cmds) cmds 0 []
              (after w [CallExecute plan user_query]))
    as (evs & Htr & Hall).
  exists (CallExecute plan user_query :: evs). split.
  - rewrite Htr. unfold after. simpl. now rewrite <- app_assoc.
  - intros c [H | H]; [discriminate H|].
    exists steps, cmds. split; [reflexivity|]. split; [exact Hi|].
    rewrite Forall_forall in Hall. exact (Hall _ H c eq_refl).
Qed.

(** The execution stage runs nothing but what iterating the steps of the
    plan visits. *)
Lemma run_plan_runs_within (E : env) (user_input : string) (plan : json)
  (w : world) :
  exists evs,
    trace (snd (run_plan E user_input plan w)) = trace w ++ evs
    /\ forall c, In (EvRun c) evs ->
         exists steps cmds,
           dict_get_default plan "steps" (JList []) = Ok steps
           /\ py_iter steps = Ok cmds /\ In c cmds.
Proof.
  unfold run_plan, print.
  rewrite (bind_ok _ _ _ _ _ (emit_after _ w)).
  set (w0 := after w [EvPrint (MsgText "Executing plan...")]).
  destruct (execute_runs_within E plan user_input w0) as (evs & Htr & Hruns).
  unfold bind at 1.
  destruct (execute E plan user_input w0) as [[execution|e] w1].
  2: { exists (EvPrint (MsgText "Executing plan...") :: evs). split.
       - cbn [snd] in *. rewrite Htr. unfold w0, after. simpl.
         now rewrite <- app_assoc.
       - intros c [H | H]; [discriminate H | now apply Hruns]. }
  cbn [snd] in Htr.
  assert (Hrest : extends (fun e => forall c, e <> EvRun c) w1
                    (snd ((log "execution" execution ;;;
                           summary execution ;;; ret tt) w1))).
  { apply extends_bind;
      [apply extends_log; intros c0 H0; discriminate H0 | intros _].
    apply extends_bind;
      [apply extends_summary; [intros c0 H0 | intros m c0 H0];
       discriminate H0
      |intros _].
    apply extends_ret. }
  destruct Hrest as (evs2 & Htr2 & Hall).
  exists (EvPrint (MsgText "Executing plan...") :: evs ++ evs2). split.
  - rewrite Htr2, Htr. unfold w0, after. simpl.
    now rewrite <- !app_assoc.
  - intros c [H | H]; [discriminate H|].
    apply in_app_or in H. destruct H as [H | H]; [now apply Hruns|].
    rewrite Forall_forall in Hall. exfalso. exact (Hall _ H c eq_refl).
Qed.

Lemma examining_trace (E : env) (plan analysis : json) (w w2 : world) :
  examining E plan w = (Ok analysis, w2) ->
  exists steps,
    dict_get_default plan "steps" (JList []) = Ok steps
    /\ trace w2
       = trace w ++ [CallLog "plan_creation" plan;
                     EvPrint (MsgText "Examining plan for risks...");
                     CallAnalyzePlan plan;
                     EvLLM (ExaminePrompt steps)].
Proof.
  unfold examining.
  destruct (log_effect "plan_creation" plan w) as [_ Hlt].
  unfold bind at 1.
  destruct (log "plan_creation" plan w) as [[[]|e] wl]; [|discriminate].
  cbn [snd] in Hlt. unfold print.
  rewrite (bind_ok _ _ _ _ _ (emit_after _ wl)).
  unfold analyze_plan.
  rewrite (bind_ok _ _ _ _ _ (emit_after _ _)).
  unfold bind at 1, lift at 1.
  destruct (dict_get_default plan "steps" (JList [])) as [steps|e];
    [|discriminate].
  intros H. exists steps. split; [reflexivity|].
  unfold bind, llm, emit in H.
  destruct (llm_invoke E _ (ExaminePrompt steps)) as [reply|e];
    [|discriminate].
  destruct (extract_json E (strip reply)); injection H as _ <-;
    cbn [trace after]; rewrite Hlt; now rewrite <- !app_assoc.
Qed.

(** X-examined. Every command [process_request] runs was submitted to
    the examiner earlier in the same run: the trace holds, before the
    command, the LLM call with the examination prompt for a value
    [steps], and the command is one of the elements the loop over
    [steps] visits.  The plan is not changed between the examination
    and the execution. *)
Theorem commands_run_were_examined
  (E : env) (user_input : string) (w : world) (evs : list event)
  (cmd : json) :
  trace (snd (process_request E user_input w)) = trace w ++ evs ->
  In (EvRun cmd) evs ->
  exists before later steps cmds,
    evs = before ++ EvLLM (ExaminePrompt steps) :: later
    /\ In (EvRun cmd) later
    /\ py_iter steps = Ok cmds
    /\ In cmd cmds.
Proof.
  intros Htrace Hin.
  destruct (process_request_runs_or_quiet E user_input w)
    as [(plan & w1 & analysis & w2 & w3 & Hp & Hx & Hg & Hrun)
       | (evs' & Htr & Hq)].
  2: { exfalso. rewrite Htrace in Htr. apply app_inv_head in Htr.
       subst evs'. rewrite Forall_forall in Hq. exact (Hq _ Hin I). }
  pose proof (quiet_planning E user_input w) as (ev1 & T1 & Q1).
  pose proof (quiet_permission plan analysis w2) as (ev3 & T3 & Q3).
  rewrite Hp in T1. rewrite Hg in T3. cbn [snd] in T1, T3.
  destruct (examining_trace E plan analysis w1 w2 Hx) as (steps & Hs & T2).
  destruct (run_plan_runs_within E user_input plan w3)
    as (ev4 & T4 & Hruns).
  rewrite Hrun, T4, T3, T2, T1 in Htrace.
  rewrite <- !app_assoc in Htrace. apply app_inv_head in Htrace.
  subst evs.
  rewrite Forall_forall in Q1, Q3.
  apply in_app_or in Hin. destruct Hin as [Hin | Hin];
    [exfalso; exact (Q1 _ Hin I)|].
  cbn [app] in Hin.
  destruct Hin as [H | [H | [H | [H | Hin]]]]; try discriminate H.
  assert (Hin4 : In (EvRun cmd) ev4).
  { apply in_app_or in Hin. destruct Hin as [Hin | Hin]; [|exact Hin].
    exfalso. exact (Q3 _ Hin I). }
  destruct (Hruns cmd Hin4) as (steps' & cmds & Hs' & Hi & Hc).
  rewrite Hs in Hs'. injection Hs' as <-.
  exists (ev1 ++ [CallLog "plan_creation" plan;
                  EvPrint (MsgText "Examining plan for risks...");
                  CallAnalyzePlan plan]), (ev3 ++ ev4), steps, cmds.
  split; [now rewrite <- app_assoc|].
  split; [apply in_or_app; now right|]. now split.
Qed.

Lemma commands_run_were_examined_witness :
  let E := Script.scripted "NO_SEARCH_NEEDED" "{}" three_step_plan approval
             [] [] in
  let w := Script.fresh Absent Absent [] in
  exists before later steps cmds,
    skipn 0 (trace (snd (process_request E "install it" w)))
    = before ++ EvLLM (ExaminePrompt steps) :: later
    /\ In (EvRun (JStr "make install")) later
    /\ py_iter steps = Ok cmds
    /\ In (JStr "make install") cmds.
Proof.
  intros E w.
  apply (commands_run_were_examined E "install it" w
           (skipn 0 (trace (snd (process_request E "install it" w))))
           (JStr "make install")).
  - reflexivity.
  - vm_compute. repeat (first [left; reflexivity | right]).
Defined.

(** ** What is on the screen when the human is asked *)

(** The lines printed before the execution stage. *)
Definition progress_messages : list string :=
  ["Analyzing request..."; "Generating plan...";
   "Retrieved existing plan from KB"; "Examining plan for risks..."].

(** An event that shows nothing of a plan or of its assessment: any
    event but a printed line that is not one of the progress
    messages. *)
Definition shows_no_plan (e : event) : Prop :=
  match e with
  | EvPrint (MsgText s) => In s progress_messages
  | EvPrint _ => False
  | _ => True
  end.

Ltac progress_message :=
  unfold shows_no_plan, progress_messages;
  repeat (first [left; reflexivity | right]).

Lemma shows_no_plan_create_plan (E : env) (user_input : string)
  (comprehension_data error_context : json) :
  preserves (extends shows_no_plan)
    (create_plan E user_input comprehension_data error_context).
Proof.
  unfold create_plan, print.
  apply extends_bind; [now apply extends_emit | intros _].
  apply extends_bind.
  { apply preserves_find_similar_plan; [apply extends_refl|].
    apply extends_trans. }
  intros p. destruct (truthy p).
  - apply extends_bind; [|intros _; apply extends_ret].
    apply extends_emit. progress_message.
  - do 2 (apply extends_bind; [apply extends_lift | intros ?]).
    apply extends_bind.
    + destruct (_ || _); [|apply extends_ret].
      apply extends_bind; [apply extends_lift | intros intent].
      apply extends_bind.
      { apply preserves_search, extends_allows. exact I. }
      intros o. destruct o; apply extends_ret.
    + intros search_context.
      apply extends_bind; [apply extends_lift | intros failure].
      apply extends_bind.
      { apply preserves_llm, extends_allows. exact I. }
      intros reply. destruct (extract_json _ _); apply extends_ret.
Qed.

Lemma shows_no_plan_planning (E : env) (user_input : string) :
  preserves (extends shows_no_plan) (planning E user_input).
Proof.
  unfold planning, print.
  apply extends_bind; [apply extends_emit; progress_message | intros _].
  apply extends_bind.
  { apply extends_analyze; try (intros ?); exact I. }
  intros c.
  apply extends_bind; [now apply extends_log | intros _].
  apply extends_bind; [apply extends_emit; progress_message | intros _].
  apply shows_no_plan_create_plan.
Qed.

Lemma shows_no_plan_permission (plan analysis : json) :
  preserves (extends shows_no_plan) (permission plan analysis).
Proof.
  unfold permission.
  apply extends_bind; [now apply extends_log | intros _].
  apply extends_bind; [apply extends_lift | intros rp].
  destruct (truthy rp); [|apply extends_ret].
  apply extends_request_user_permission; exact I.
Qed.

Lemma run_plan_reads_nothing (E : env) (user_input : string) (plan : json) :
  preserves (extends (fun e => e <> EvInput)) (run_plan E user_input plan).
Proof.
  unfold run_plan, print.
  apply extends_bind; [now apply extends_emit | intros _].
  apply extends_bind.
  { apply extends_execute; try (intros ?); discriminate. }
  intros execution.
  apply extends_bind; [now apply extends_log | intros _].
  apply extends_bind; [|intros _; apply extends_ret].
  apply extends_summary; try (intros ?); discriminate.
Qed.

(** A run is a part up to the gate that shows nothing of the plan,
    followed by a part that reads no input. *)
Lemma process_request_around_the_gate
  (E : env) (user_input : string) (w : world) :
  exists up down,
    trace (snd (process_request E user_input w)) = trace w ++ up ++ down
    /\ Forall shows_no_plan up
    /\ Forall (fun e => e <> EvInput) down.
Proof.
  assert (Hup : forall w', extends shows_no_plan w w' ->
                  exists up down,
                    trace w' = trace w ++ up ++ down
                    /\ Forall shows_no_plan up
                    /\ Forall (fun e => e <> EvInput) down).
  { intros w' (up & T & F). exists up, []. rewrite app_nil_r.
    repeat split; [exact T | exact F | constructor]. }
  assert (Hdown : forall w1 w',
                    extends shows_no_plan w w1 ->
                    extends (fun e => e <> EvInput) w1 w' ->
                    exists up down,
                      trace w' = trace w ++ up ++ down
                      /\ Forall shows_no_plan up
                      /\ Forall (fun e => e <> EvInput) down).
  { intros w1 w' (up & T & F) (down & T' & F'). exists up, down.
    repeat split; [|exact F | exact F'].
    now rewrite T', T, app_assoc. }
  assert (Hprint : forall s w1,
                     extends (fun e => e <> EvInput) w1 (snd (print s w1))).
  { intros s w1. exists [EvPrint (MsgText s)]. split; [reflexivity|].
    repeat constructor. discriminate. }
  pose proof (process_request_stages E user_input w) as Hpr.
  pose proof (shows_no_plan_planning E user_input w) as Q1.
  destruct (planning E user_input w) as [[plan|e] w1] eqn:Hp;
    [rewrite (bind_ok _ _ _ _ _ Hp) in Hpr
    |rewrite (bind_raise _ _ _ _ _ Hp) in Hpr; rewrite Hpr;
     now apply Hup].
  cbn [snd] in Q1.
  assert (Q2 : extends shows_no_plan w1 (snd (log "plan_creation" plan w1)))
    by now apply extends_log.
  destruct (log "plan_creation" plan w1) as [[[]|e] w2] eqn:Hl;
    [rewrite (bind_ok _ _ _ _ _ Hl) in Hpr
    |rewrite (bind_raise _ _ _ _ _ Hl) in Hpr; rewrite Hpr;
     apply Hup; exact (extends_trans _ _ _ _ Q1 Q2)].
  cbn [snd] in Q2. pose proof (extends_trans _ _ _ _ Q1 Q2) as Q12.
  unfold bind at 1, lift at 1 in Hpr.
  destruct (dict_get_default plan "steps" JNull) as [steps|e];
    [|rewrite Hpr; now apply Hup].
  destruct (negb (truthy steps)).
  { rewrite Hpr. exact (Hdown _ _ Q12 (Hprint _ w2)). }
  unfold print at 1 in Hpr.
  rewrite (bind_ok _ _ _ _ _ (emit_after _ w2)) in Hpr.
  set (w3 := after w2 [EvPrint (MsgText "Examining plan for risks...")])
    in *.
  assert (Q3 : extends shows_no_plan w2 w3).
  { exists [EvPrint (MsgText "Examining plan for risks...")].
    split; [reflexivity|]. constructor; [progress_message | constructor]. }
  pose proof (extends_trans _ _ _ _ Q12 Q3) as Q13.
  assert (Q4 : extends shows_no_plan w3 (snd (analyze_plan E plan w3))).
  { apply extends_analyze_plan; try (intros ?); exact I. }
  destruct (analyze_plan E plan w3) as [[analysis|e] w4] eqn:Ha;
    [rewrite (bind_ok _ _ _ _ _ Ha) in Hpr
    |rewrite (bind_raise _ _ _ _ _ Ha) in Hpr; rewrite Hpr;
     apply Hup; exact (extends_trans _ _ _ _ Q13 Q4)].
  cbn [snd] in Q4. pose proof (extends_trans _ _ _ _ Q13 Q4) as Q14.
  pose proof (shows_no_plan_permission plan analysis w4) as Q5.
  destruct (permission plan analysis w4) as [[granted|e] w5] eqn:Hg;
    [rewrite (bind_ok _ _ _ _ _ Hg) in Hpr
    |rewrite (bind_raise _ _ _ _ _ Hg) in Hpr; rewrite Hpr;
     apply Hup; exact (extends_trans _ _ _ _ Q14 Q5)].
  cbn [snd] in Q5. pose proof (extends_trans _ _ _ _ Q14 Q5) as Q15.
  rewrite Hpr. destruct granted; cbn [negb].
  - exact (Hdown _ _ Q15 (run_plan_reads_nothing E user_input plan w5)).
  - exact (Hdown _ _ Q15 (Hprint _ w5)).
Qed.

Lemma split_before (x : event) (a : list event) :
  forall b c d,
    c ++ d = a ++ x :: b -> ~ In x d -> exists t, c = a ++ x :: t.
Proof.
  induction a as [|y a IH]; intros b c d Heq Hd.
  - destruct c as [|z c]; simpl in Heq.
    + exfalso. apply Hd. rewrite Heq. now left.
    + injection Heq as -> _. now exists c.
  - destruct c as [|z c]; simpl in Heq.
    + exfalso. apply Hd. rewrite Heq. right. apply in_elt.
    + injection Heq as -> Heq. destruct (IH b c d Heq Hd) as (t & ->).
      now exists t.
Qed.

(** X-unseen. Whenever [process_request] reads a line of input (the
    answer to the gate's question), the only lines it has printed so
    far are among the four progress messages: neither the commands of
    the plan nor the examiner's assessment and warning have been shown
    to the human who is asked whether to execute them. *)
Theorem gate_asks_before_the_plan_is_shown
  (E : env) (user_input : string) (w : world)
  (before later : list event) (m : message) :
  trace (snd (process_request E user_input w))
  = trace w ++ before ++ EvInput :: later ->
  In (EvPrint m) before ->
  exists s, m = MsgText s /\ In s progress_messages.
Proof.
  intros Htrace Hin.
  destruct (process_request_around_the_gate E user_input w)
    as (up & down & Htr & Hup & Hdown).
  rewrite Htrace in Htr. apply app_inv_head in Htr. symmetry in Htr.
  destruct (split_before EvInput before later up down Htr) as (t & ->).
  { intros H. rewrite Forall_forall in Hdown. now apply (Hdown _ H). }
  rewrite Forall_forall in Hup.
  assert (H : shows_no_plan (EvPrint m)).
  { apply Hup. apply in_or_app. now left. }
  destruct m as [s| |]; simpl in H; try contradiction.
  now exists s.
Qed.

(** The events before the first line read, and those after it. *)
Fixpoint until_input (evs : list event) : list event :=
  match evs with
  | [] => []
  | EvInput :: _ => []
  | e :: rest => e :: until_input rest
  end.

Fixpoint from_input (evs : list event) : list event :=
  match evs with
  | [] => []
  | EvInput :: rest => rest
  | _ :: rest => from_input rest
  end.

Lemma gate_asks_before_the_plan_is_shown_witness :
  exists s,
    MsgText "Examining plan for risks..." = MsgText s
    /\ In s progress_messages.
Proof.
  pose (E := Script.scripted "NO_SEARCH_NEEDED" "{}" three_step_plan
               "I cannot assess these commands." [] []).
  pose (w := Script.fresh Absent Absent ["y"]).
  apply (gate_asks_before_the_plan_is_shown E "install it" w
           (until_input (trace (snd (process_request E "install it" w))))
           (from_input (trace (snd (process_request E "install it" w))))
           (MsgText "Examining plan for risks...")).
  - reflexivity.
  - vm_compute. repeat (first [left; reflexivity | right]).
Defined.
